(** * Inventory reservations, event bus and SSE fan-out: a shallow embedding

    The development follows the TypeScript sources of the platform:

    - [packages/db]  (BaseRepository: create / findById / updateById),
    - [services/inventory-service] (inventory and reservation models,
      repositories, HTTP routes, event consumers and the expiry sweeper),
    - [packages/event-bus] (RabbitEventBus.publish / subscribe),
    - [apps/gateway] (SSEManager and the SSE broadcast consumer).

    Conventions.  Quantities are JavaScript numbers that the zod schemas
    restrict to integers; they are modelled as [Z], which is what the
    code computes as long as every number involved stays within
    [Number.MAX_SAFE_INTEGER] ([maxSafeInteger] below): beyond it the
    additions of the code and of the store round, which the model does
    not follow.  Times are [Date.now()] milliseconds, also [Z].  A MongoDB
    collection is the list of its documents; [_id]s are strings, those
    the store generates being [ObjectId]s.  Values chosen by the
    environment (the clock, a generated [_id], whether the AMQP channel
    accepts a write, whether a socket write throws) are explicit
    arguments.  Every [await] of a handler is a point where another
    handler may run; where a property depends on it the handler is given
    as a step function and schedules interleave the steps.  Of the
    [preHandler]s of the routes, authentication is outside the model; the
    validation of the body is part of every route, with the numeric
    constraints of the request schemas, and so is the validation of the
    path parameter on the routes that have one. *)

From Stdlib Require Import ZArith Ascii String List Bool Lia Permutation Sorted.
Import ListNotations.

Local Open Scope string_scope.
Local Open Scope list_scope.
Local Open Scope Z_scope.

Set Implicit Arguments.

(* ================================================================== *)
(** ** packages/db : collections and BaseRepository *)
(* ================================================================== *)

(** A hexadecimal digit, [[0-9a-fA-F]]. *)
Definition isHexDigit (c : ascii) : bool :=
  let n := nat_of_ascii c in
  ((48 <=? n) && (n <=? 57)
   || (65 <=? n) && (n <=? 70)
   || (97 <=? n) && (n <=? 102))%nat.

Fixpoint allHex (s : string) : bool :=
  match s with
  | EmptyString => true
  | String c rest => isHexDigit c && allHex rest
  end.

(** [Number.MAX_SAFE_INTEGER], [2^53 - 1]: up to it, in absolute value,
    the numbers of the code are exact integers. *)
Definition maxSafeInteger : Z := 9007199254740991.

Module Db.

Inductive DbError :=
| ValidationError (path : string)   (* mongoose validator on save() *)
| DuplicateKey (index : string).    (* E11000 on a unique index *)

(** What casts to an [ObjectId], the type of every [_id] here (no schema
    declares another): a string of 24 hexadecimal digits.  [findById] and
    [findByIdAndUpdate] given anything else reject with a [CastError].
    (Some releases of the driver also take any string of 12 characters;
    the routes below never hand one to a lookup.) *)
Definition isObjectId (s : string) : bool :=
  (String.length s =? 24)%nat && allHex s.

Definition castErrorMessage : string :=
  "CastError: Cast to ObjectId failed at path _id".
Section Collection.

Variable T : Type.

(** The filter [{ key: k }] on a string field. *)
Definition keyed (key : T -> string) (k : string) (d : T) : bool :=
  String.eqb (key d) k.

(** [Model.findOne(filter)] : first document matching the filter. *)
Fixpoint findOne (filter : T -> bool) (docs : list T) : option T :=
  match docs with
  | [] => None
  | d :: rest => if filter d then Some d else findOne filter rest
  end.

(** [Model.find(filter)] : every document matching the filter. *)
Definition findAll (filter : T -> bool) (docs : list T) : list T :=
  List.filter filter docs.

(** [Model.findOneAndUpdate(filter, update, { new: true })] : the first
    matching document is replaced by its update; the collection and the
    updated document (or [None], JavaScript [null]) are returned.  No
    schema validator runs: mongoose only validates updates under
    [runValidators], which the sources never set. *)
Fixpoint findOneAndUpdate (filter : T -> bool) (update : T -> T)
         (docs : list T) : list T * option T :=
  match docs with
  | [] => ([], None)
  | d :: rest =>
      if filter d then (update d :: rest, Some (update d))
      else let (rest', r) := findOneAndUpdate filter update rest in
           (d :: rest', r)
  end.

(** [Model.countDocuments(filter)]. *)
Definition count (filter : T -> bool) (docs : list T) : Z :=
  Z.of_nat (List.length (List.filter filter docs)).

(** [Model.deleteMany(filter)] : what is left, and [deletedCount]. *)
Definition deleteMany (filter : T -> bool) (docs : list T) : list T * Z :=
  (List.filter (fun d => negb (filter d)) docs,
   Z.of_nat (List.length (List.filter filter docs))).

(** BaseRepository [findMany] on the documents matched, given in the
    order the [sort] option asks for: [skip] and [limit] are applied only
    when they are truthy, that is not zero.  (The store refuses a negative
    [skip]; the request schemas never produce one.) *)
Definition findMany (skip limit : Z) (sorted : list T) : list T :=
  let skipped := if skip =? 0 then sorted
                 else List.skipn (Z.to_nat skip) sorted in
  if limit =? 0 then skipped else List.firstn (Z.to_nat limit) skipped.

End Collection.

End Db.

(* ================================================================== *)
(** ** services/inventory-service : models *)
(* ================================================================== *)

(** models/inventory.model.ts, [InventoryDocument].  The [createdAt] and
    [updatedAt] stamps added by [addBaseFields] are left out here and in
    the reservations: no operation below reads them. *)
Record InventoryDocument := mkInventory {
  inv_id : string;
  productId : string;
  sku : string;
  available : Z;
  reserved : Z;
  total : Z;
  reorderLevel : Z
}.

(** models/reservation.model.ts, [status] enum. *)
Inductive ReservationStatus := pending | confirmed | released.

Definition status_eqb (a b : ReservationStatus) : bool :=
  match a, b with
  | pending, pending | confirmed, confirmed | released, released => true
  | _, _ => false
  end.

(** models/reservation.model.ts, [ReservationDocument].  The TTL index
    on [expiresAt], by which the store itself may drop a document after
    that date, is not modelled. *)
Record ReservationDocument := mkReservation {
  res_id : string;
  orderId : string;
  res_productId : string;
  quantity : Z;
  status : ReservationStatus;
  expiresAt : Z
}.

(** packages/types, [DomainEvent] restricted to the inventory payloads
    ([InventoryReservedEvent], [InventoryReleasedEvent]); the generated
    event id and timestamp are left out. *)
Record DomainEvent := mkEvent {
  ev_type : string;
  ev_reservationId : string;
  ev_orderId : string;
  ev_productId : string;
  ev_quantity : Z
}.

(** The state the inventory service acts on: its two collections and the
    events handed to [channel.publish]. *)
Record World := mkWorld {
  inventory : list InventoryDocument;
  reservations : list ReservationDocument;
  sent : list DomainEvent
}.

Definition set_inventory (w : World) (l : list InventoryDocument) : World :=
  mkWorld l (reservations w) (sent w).

Definition set_reservations (w : World) (l : list ReservationDocument) : World :=
  mkWorld (inventory w) l (sent w).

(** Partial updates, [Partial<InventoryDocument>] as the routes build them. *)
Record InventoryUpdate := mkInvUpdate {
  u_available : option Z;
  u_reserved : option Z;
  u_total : option Z;
  u_reorderLevel : option Z
}.

Definition orElse {A : Type} (o : option A) (d : A) : A :=
  match o with Some x => x | None => d end.

Definition applyInventoryUpdate (u : InventoryUpdate) (d : InventoryDocument)
  : InventoryDocument :=
  mkInventory (inv_id d) (productId d) (sku d)
              (orElse (u_available u) (available d))
              (orElse (u_reserved u) (reserved d))
              (orElse (u_total u) (total d))
              (orElse (u_reorderLevel u) (reorderLevel d)).

Definition setStatus (s : ReservationStatus) (r : ReservationDocument)
  : ReservationDocument :=
  mkReservation (res_id r) (orderId r) (res_productId r) (quantity r) s
                (expiresAt r).

(* ================================================================== *)
(** ** repositories/inventory.repository.ts *)
(* ================================================================== *)

Module InventoryRepository.

Definition hasId (id : string) : InventoryDocument -> bool :=
  Db.keyed inv_id id.

Definition hasProductId (p : string) : InventoryDocument -> bool :=
  Db.keyed productId p.

Definition hasSku (s : string) : InventoryDocument -> bool :=
  Db.keyed sku s.

(** [findByProductId] : [model.findOne({ productId })]. *)
Definition findByProductId (p : string) (docs : list InventoryDocument) :=
  Db.findOne (hasProductId p) docs.

(** BaseRepository [findById]. *)
Definition findById (id : string) (docs : list InventoryDocument) :=
  Db.findOne (hasId id) docs.

(** BaseRepository [create] : [new Model(data).save()].  [save] runs the
    schema validators ([required] on [productId] and [sku], which an empty
    string fails, and [min: 0] on the four numbers) and the unique indexes
    on [_id], [productId] and [sku]. *)
Definition create (d : InventoryDocument) (docs : list InventoryDocument)
  : Db.DbError + list InventoryDocument :=
  if String.eqb (productId d) "" then inl (Db.ValidationError "productId")
  else if String.eqb (sku d) "" then inl (Db.ValidationError "sku")
  else if available d <? 0 then inl (Db.ValidationError "available")
  else if reserved d <? 0 then inl (Db.ValidationError "reserved")
  else if total d <? 0 then inl (Db.ValidationError "total")
  else if reorderLevel d <? 0 then inl (Db.ValidationError "reorderLevel")
  else if existsb (hasId (inv_id d)) docs then inl (Db.DuplicateKey "_id")
  else if existsb (hasProductId (productId d)) docs
       then inl (Db.DuplicateKey "productId")
  else if existsb (hasSku (sku d)) docs then inl (Db.DuplicateKey "sku")
  else inr (docs ++ [d]).

(** BaseRepository [updateById] : [findByIdAndUpdate(id, update, {new})]. *)
Definition updateById (id : string) (u : InventoryUpdate)
           (docs : list InventoryDocument) :=
  Db.findOneAndUpdate (hasId id) (applyInventoryUpdate u) docs.

(** [$inc] of the three counters. *)
Definition inc (da dr dt : Z) (d : InventoryDocument) : InventoryDocument :=
  mkInventory (inv_id d) (productId d) (sku d)
              (available d + da) (reserved d + dr) (total d + dt)
              (reorderLevel d).

(** [adjustStock] : [$inc: { available: quantity, total: quantity }]. *)
Definition adjustStock (p : string) (q : Z) (docs : list InventoryDocument) :=
  Db.findOneAndUpdate (hasProductId p) (inc q 0 q) docs.

(** [reserve] : filter [{ productId, available: { $gte: quantity } }],
    [$inc: { available: -quantity, reserved: quantity }]. *)
Definition reserve (p : string) (q : Z) (docs : list InventoryDocument) :=
  Db.findOneAndUpdate
    (fun d => hasProductId p d && (q <=? available d))
    (inc (- q) q 0) docs.

(** [release] : [$inc: { available: quantity, reserved: -quantity }]. *)
Definition release (p : string) (q : Z) (docs : list InventoryDocument) :=
  Db.findOneAndUpdate (hasProductId p) (inc q (- q) 0) docs.

(** [confirm] : [$inc: { reserved: -quantity, total: -quantity }]. *)
Definition confirm (p : string) (q : Z) (docs : list InventoryDocument) :=
  Db.findOneAndUpdate (hasProductId p) (inc 0 (- q) (- q)) docs.

(** [findBySku] : [model.findOne({ sku })]. *)
Definition findBySku (s : string) (docs : list InventoryDocument) :=
  Db.findOne (hasSku s) docs.

(** The filter [$expr: { $lte: ['$available', '$reorderLevel'] }], which
    is also the [isLowStock] virtual of the model. *)
Definition isLowStock (d : InventoryDocument) : bool :=
  available d <=? reorderLevel d.

(** [.sort({ available: 1 })] : ascending on [available]; documents with
    the same [available] keep the order they are met in. *)
Fixpoint insertByAvailable (d : InventoryDocument)
         (sorted : list InventoryDocument) : list InventoryDocument :=
  match sorted with
  | [] => [d]
  | x :: rest =>
      if available d <=? available x then d :: x :: rest
      else x :: insertByAvailable d rest
  end.

Definition sortByAvailable (docs : list InventoryDocument)
  : list InventoryDocument :=
  fold_right insertByAvailable [] docs.

(** [findLowStock]. *)
Definition findLowStock (docs : list InventoryDocument)
  : list InventoryDocument :=
  sortByAvailable (Db.findAll isLowStock docs).

Record InventoryStats := mkStats {
  totalItems : Z;
  totalStock : Z;
  totalReserved : Z;
  lowStockCount : Z
}.

Definition sumOf (f : InventoryDocument -> Z) (docs : list InventoryDocument)
  : Z :=
  fold_right (fun d acc => f d + acc) 0 docs.

(** [getInventoryStats] : the [$group] stage yields one document for a
    collection that is not empty and none for an empty one, in which case
    the zeros after [||] are returned. *)
Definition getInventoryStats (docs : list InventoryDocument) : InventoryStats :=
  match docs with
  | [] => mkStats 0 0 0 0
  | _ :: _ =>
      mkStats (Z.of_nat (List.length docs))
              (sumOf available docs)
              (sumOf reserved docs)
              (sumOf (fun d => if isLowStock d then 1 else 0) docs)
  end.

End InventoryRepository.

(* ================================================================== *)
(** ** repositories/reservation.repository.ts *)
(* ================================================================== *)

Module ReservationRepository.

Definition hasId (id : string) : ReservationDocument -> bool :=
  Db.keyed res_id id.

(** BaseRepository [findById]. *)
Definition findById (id : string) (docs : list ReservationDocument) :=
  Db.findOne (hasId id) docs.

(** [findByOrderId] : [model.find({ orderId })]. *)
Definition findByOrderId (o : string) (docs : list ReservationDocument) :=
  Db.findAll (fun r => String.eqb (orderId r) o) docs.

(** [findExpired] : [{ status: 'pending', expiresAt: { $lt: new Date() } }]. *)
Definition findExpired (now : Z) (docs : list ReservationDocument) :=
  Db.findAll (fun r => status_eqb (status r) pending && (expiresAt r <? now))
             docs.

(** BaseRepository [create]; the schema asks [quantity >= 1] and [_id] is
    unique. *)
Definition create (r : ReservationDocument) (docs : list ReservationDocument)
  : Db.DbError + list ReservationDocument :=
  if quantity r <? 1 then inl (Db.ValidationError "quantity")
  else if existsb (hasId (res_id r)) docs then inl (Db.DuplicateKey "_id")
  else inr (docs ++ [r]).

(** BaseRepository [updateById] with [{ status }]. *)
Definition updateStatusById (id : string) (s : ReservationStatus)
           (docs : list ReservationDocument) :=
  Db.findOneAndUpdate (hasId id) (setStatus s) docs.

(** [confirmReservation] : [findByIdAndUpdate(id, { status: 'confirmed' })]. *)
Definition confirmReservation (id : string) (docs : list ReservationDocument) :=
  Db.findOneAndUpdate (hasId id) (setStatus confirmed) docs.

(** [releaseReservation] : [findByIdAndUpdate(id, { status: 'released' })]. *)
Definition releaseReservation (id : string) (docs : list ReservationDocument) :=
  Db.findOneAndUpdate (hasId id) (setStatus released) docs.

(** [findByProductId] : [model.find({ productId })]. *)
Definition findByProductId (p : string) (docs : list ReservationDocument) :=
  Db.findAll (fun r => String.eqb (res_productId r) p) docs.



(** [24 * 60 * 60 * 1000]. *)
Definition dayMs : Z := 24 * 60 * 60 * 1000.

(** [cleanupExpiredReservations] : [deleteMany] of the released
    reservations that expired more than a day before [now]; the result is
    the collection and [deletedCount || 0]. *)
Definition cleanupExpiredReservations (now : Z)
           (docs : list ReservationDocument) : list ReservationDocument * Z :=
  Db.deleteMany
    (fun r => status_eqb (status r) released && (expiresAt r <? now - dayMs))
    docs.

End ReservationRepository.

(* ================================================================== *)
(** ** packages/event-bus : RabbitEventBus.publish *)
(* ================================================================== *)

Module EventBus.

(** The bus's [channel] field: [None] while it is [null]; [Some b] once
    connected, [b] being what [channel.publish] returns for the next
    message ([false] when the write buffer of the broker connection is
    full). *)
Definition Channel := option bool.

(** [publish] : throws when the channel is missing or when
    [channel.publish] returns [false]; the log lists the events handed to
    [channel.publish].  The result is the log and the thrown message. *)
Definition publish (ch : Channel) (e : DomainEvent) (log : list DomainEvent)
  : list DomainEvent * option string :=
  match ch with
  | None => (log, Some "RabbitMQ channel not initialized")
  | Some true => (log ++ [e], None)
  | Some false => (log ++ [e], Some "Failed to publish message to RabbitMQ")
  end.

End EventBus.

(* ================================================================== *)
(** ** Replies, exceptions and the environment of a request *)
(* ================================================================== *)

Inductive ReplyBody :=
| ErrorBody (error : string)
| InsufficientBody (error : string) (data_available data_requested : Z)
| InventoryBody (item : InventoryDocument)
| ReservationBody (r : ReservationDocument)
| NoBody.

(** What a request ends with: a reply, or an exception that leaves the
    handler (fastify's error handler turns it into a 5xx reply). *)
Inductive Outcome :=
| Reply (code : Z) (body : ReplyBody)
| Throw (message : string).

Definition isError (o : Outcome) : bool :=
  match o with
  | Reply code _ => 400 <=? code
  | Throw _ => true
  end.

Definition dbErrorMessage (e : Db.DbError) : string :=
  match e with
  | Db.ValidationError p => "ValidationError: " ++ p
  | Db.DuplicateKey i => "E11000 duplicate key: " ++ i
  end.

(** What the environment decides during one request. *)
Record Env := mkEnv {
  now : Z;                        (* Date.now() *)
  newId : string;                 (* the _id given to a created document *)
  channel : EventBus.Channel      (* state of the event bus *)
}.

(* ================================================================== *)
(** ** packages/validation *)
(* ================================================================== *)

Module Validation.

(** [n] hexadecimal digits at the head of [s], and what follows them. *)
Fixpoint hexRun (n : nat) (s : string) : option string :=
  match n, s with
  | O, _ => Some s
  | S n', String c rest => if isHexDigit c then hexRun n' rest else None
  | S _, EmptyString => None
  end.

Definition dash (s : string) : option string :=
  match s with
  | String "-" rest => Some rest
  | _ => None
  end.

Definition andThen {A B : Type} (o : option A) (f : A -> option B)
  : option B :=
  match o with Some x => f x | None => None end.

(** [z.string().uuid()] : groups of 8, 4, 4, 4 and 12 hexadecimal digits
    separated by dashes.  (The releases of zod that also restrict the
    version and variant digits accept fewer strings, all of this shape.) *)
Definition isUuid (s : string) : bool :=
  match andThen (hexRun 8 s) (fun s1 =>
        andThen (dash s1) (fun s2 =>
        andThen (hexRun 4 s2) (fun s3 =>
        andThen (dash s3) (fun s4 =>
        andThen (hexRun 4 s4) (fun s5 =>
        andThen (dash s5) (fun s6 =>
        andThen (hexRun 4 s6) (fun s7 =>
        andThen (dash s7) (fun s8 => hexRun 12 s8)))))))) with
  | Some EmptyString => true
  | _ => false
  end.

(** What a route with one path parameter hands to [validateParams]: a zod
    object schema, with its check of the parameter, or an object literal
    that is no zod schema and so has no [parse] method. *)
Inductive ParamsSchema :=
| ZodObject (check : string -> bool)
| PlainObject.

(** [idSchema] : [z.object({ id: z.string().uuid('Invalid ID format') })]. *)
Definition idSchema : ParamsSchema := ZodObject isUuid.

(** [validateParams(schema)] as a [preHandler] : [None] lets the request
    go on; a [ZodError] of [schema.parse] is answered 400 and the request
    ends there; any other exception of [schema.parse] is thrown again. *)
Definition validateParams (schema : ParamsSchema) (param : string)
  : option Outcome :=
  match schema with
  | ZodObject check =>
      if check param then None
      else Some (Reply 400 (ErrorBody "Parameter validation failed"))
  | PlainObject => Some (Throw "TypeError: schema.parse is not a function")
  end.

End Validation.

(* ================================================================== *)
(** ** services/inventory-service/src/routes/inventory.ts *)
(* ================================================================== *)

Module Routes.

(** *** GET /  (list inventory items) *)

(** [paginationSchema] as far as the handler computes with it: [page] and
    [limit], taken as whole numbers.  The [sort] and [order] options decide
    the order in which the store returns the documents, which is an
    argument of the handler below. *)
Record PaginationQuery := mkPaginationQuery {
  pq_page : Z;
  pq_limit : Z
}.

Definition paginationSchema (q : PaginationQuery) : bool :=
  (1 <=? pq_page q) && (1 <=? pq_limit q) && (pq_limit q <=? 100).

(** The [pagination] object of a [PaginatedResponse]. *)
Record Pagination := mkPagination {
  pg_page : Z;
  pg_limit : Z;
  pg_total : Z;
  pg_pages : Z;
  pg_hasNext : bool;
  pg_hasPrev : bool
}.

(** [Math.ceil(a / b)] for [0 <= a] and [1 <= b]. *)
Definition ceilDiv (a b : Z) : Z := (a + b - 1) / b.

(** The handler of GET /: [findMany] and [count] see the same collection,
    [sorted] being its documents in the order asked for. *)
Definition listInventoryHandler (q : PaginationQuery)
           (sorted : list InventoryDocument)
  : list InventoryDocument * Pagination :=
  let skip := (pq_page q - 1) * pq_limit q in
  let items := Db.findMany skip (pq_limit q) sorted in
  let total := Db.count (fun _ => true) sorted in
  let totalPages := ceilDiv total (pq_limit q) in
  (items,
   mkPagination (pq_page q) (pq_limit q) total totalPages
                (pq_page q <? totalPages) (1 <? pq_page q)).

(** *** POST /  (create inventory item) *)
Record CreateInventoryBody := mkCreateBody {
  cb_productId : string;
  cb_sku : string;
  cb_total : Z;
  cb_reorderLevel : Z
}.

(** [createInventorySchema] (the uuid format of [productId] is not
    modelled). *)
Definition createInventorySchema (b : CreateInventoryBody) : bool :=
  (1 <=? Z.of_nat (String.length (cb_sku b)))
  && (Z.of_nat (String.length (cb_sku b)) <=? 50)
  && (0 <=? cb_total b) && (0 <=? cb_reorderLevel b).

Definition createInventoryHandler (env : Env) (b : CreateInventoryBody)
           (w : World) : World * Outcome :=
  match InventoryRepository.findByProductId (cb_productId b) (inventory w) with
  | Some _ =>
      (w, Reply 409 (ErrorBody "Inventory item already exists for this product"))
  | None =>
      let data := mkInventory (newId env) (cb_productId b) (cb_sku b)
                              (cb_total b) 0 (cb_total b) (cb_reorderLevel b) in
      match InventoryRepository.create data (inventory w) with
      | inl e => (w, Throw (dbErrorMessage e))
      | inr docs => (set_inventory w docs, Reply 201 (InventoryBody data))
      end
  end.

Definition createInventoryRoute (env : Env) (b : CreateInventoryBody)
           (w : World) : World * Outcome :=
  if createInventorySchema b then createInventoryHandler env b w
  else (w, Reply 400 (ErrorBody "Validation failed")).

(** *** PATCH /:id  (update inventory item) *)
Record UpdateInventoryBody := mkUpdateBody {
  ub_total : option Z;
  ub_reorderLevel : option Z
}.

Definition optNonNeg (o : option Z) : bool :=
  match o with Some z => 0 <=? z | None => true end.

(** [updateInventorySchema]. *)
Definition updateInventorySchema (b : UpdateInventoryBody) : bool :=
  optNonNeg (ub_total b) && optNonNeg (ub_reorderLevel b).

Definition updateInventoryHandler (id : string) (b : UpdateInventoryBody)
           (w : World) : World * Outcome :=
  (* await inventoryRepository.findById(id) *)
  if negb (Db.isObjectId id) then (w, Throw Db.castErrorMessage) else
  match InventoryRepository.findById id (inventory w) with
  | None => (w, Reply 404 (ErrorBody "Inventory item not found"))
  | Some existingItem =>
      (* if total is being updated, adjust available quantity *)
      let updateData :=
        match ub_total b with
        | Some t =>
            let totalChange := t - total existingItem in
            mkInvUpdate (Some (available existingItem + totalChange)) None
                        (Some t) (ub_reorderLevel b)
        | None => mkInvUpdate None None None (ub_reorderLevel b)
        end in
      match InventoryRepository.updateById id updateData (inventory w) with
      | (docs, Some updatedItem) =>
          (set_inventory w docs, Reply 200 (InventoryBody updatedItem))
      | (docs, None) =>
          (set_inventory w docs,
           Throw "TypeError: Cannot read properties of null")
      end
  end.

(** The route: [validateParams(idSchema)], [validateBody
    (updateInventorySchema)], then the handler. *)
Definition updateInventoryRoute (id : string) (b : UpdateInventoryBody)
           (w : World) : World * Outcome :=
  match Validation.validateParams Validation.idSchema id with
  | Some o => (w, o)
  | None =>
      if updateInventorySchema b then updateInventoryHandler id b w
      else (w, Reply 400 (ErrorBody "Validation failed"))
  end.

(** *** POST /reserve *)
Record ReserveBody := mkReserveBody {
  rb_orderId : string;
  rb_productId : string;
  rb_quantity : Z;
  rb_expiresIn : option Z
}.

(** The validated body: [expiresIn] has its default. *)
Record ReserveData := mkReserveData {
  rd_orderId : string;
  rd_productId : string;
  rd_quantity : Z;
  rd_expiresIn : Z
}.

(** [reserveInventorySchema.parse] (uuid formats are not modelled). *)
Definition reserveInventorySchema (b : ReserveBody) : option ReserveData :=
  let e := orElse (rb_expiresIn b) 1800 in
  if (1 <=? rb_quantity b) && (60 <=? e) && (e <=? 3600)
  then Some (mkReserveData (rb_orderId b) (rb_productId b) (rb_quantity b) e)
  else None.

(** Where a reserve request stands between two [await]s. *)
Inductive ReserveState :=
| RS_Start
| RS_Checked (inventoryItem : InventoryDocument)
| RS_Created (inventoryItem : InventoryDocument)
             (reservation : ReservationDocument)
| RS_Updated (reservation : ReservationDocument)
| RS_Finished (o : Outcome).

(** One [await]ed operation of the handler of POST /reserve, with the
    synchronous code that follows it. *)
Definition reserveStep (env : Env) (d : ReserveData) (w : World)
           (s : ReserveState) : World * ReserveState :=
  match s with
  | RS_Start =>
      (* await inventoryRepository.findByProductId(productId) *)
      match InventoryRepository.findByProductId (rd_productId d) (inventory w) with
      | None =>
          (w, RS_Finished (Reply 404 (ErrorBody "Inventory item not found")))
      | Some inventoryItem =>
          if available inventoryItem <? rd_quantity d then
            (w, RS_Finished
                  (Reply 400 (InsufficientBody "Insufficient stock available"
                                (available inventoryItem) (rd_quantity d))))
          else (w, RS_Checked inventoryItem)
      end
  | RS_Checked inventoryItem =>
      (* await reservationRepository.create({ ..., status: 'pending' }) *)
      let reservation :=
        mkReservation (newId env) (rd_orderId d) (rd_productId d)
                      (rd_quantity d) pending
                      (now env + rd_expiresIn d * 1000) in
      match ReservationRepository.create reservation (reservations w) with
      | inl e => (w, RS_Finished (Throw (dbErrorMessage e)))
      | inr docs => (set_reservations w docs,
                     RS_Created inventoryItem reservation)
      end
  | RS_Created inventoryItem reservation =>
      (* await inventoryRepository.updateById(inventoryItem.id, {...}) *)
      let update :=
        mkInvUpdate (Some (available inventoryItem - rd_quantity d))
                    (Some (reserved inventoryItem + rd_quantity d))
                    None None in
      (set_inventory w
         (fst (InventoryRepository.updateById (inv_id inventoryItem) update
                                              (inventory w))),
       RS_Updated reservation)
  | RS_Updated reservation =>
      (* await eventBus.publish('inventory.reserved', {...}) *)
      let e := mkEvent "inventory.reserved" (res_id reservation)
                       (rd_orderId d) (rd_productId d) (rd_quantity d) in
      match EventBus.publish (channel env) e (sent w) with
      | (log, Some msg) =>
          (mkWorld (inventory w) (reservations w) log, RS_Finished (Throw msg))
      | (log, None) =>
          (mkWorld (inventory w) (reservations w) log,
           RS_Finished (Reply 201 (ReservationBody reservation)))
      end
  | RS_Finished o => (w, RS_Finished o)
  end.

Definition reserveSteps (env : Env) (d : ReserveData)
           (p : World * ReserveState) : World * ReserveState :=
  reserveStep env d (fst p) (snd p).

(** The handler run without interruption: its four [await]s in a row. *)
Definition reserveHandler (env : Env) (d : ReserveData) (w : World)
  : World * ReserveState :=
  Nat.iter 4 (reserveSteps env d) (w, RS_Start).

Definition outcomeOf (s : ReserveState) : option Outcome :=
  match s with RS_Finished o => Some o | _ => None end.

Definition reserveRoute (env : Env) (b : ReserveBody) (w : World)
  : World * option Outcome :=
  match reserveInventorySchema b with
  | None => (w, Some (Reply 400 (ErrorBody "Validation failed")))
  | Some d => let (w', s) := reserveHandler env d w in (w', outcomeOf s)
  end.

(** *** POST /release/:reservationId *)
Definition releaseHandler (env : Env) (reservationId : string) (w : World)
  : World * Outcome :=
  (* await reservationRepository.findById(reservationId) *)
  if negb (Db.isObjectId reservationId)
  then (w, Throw Db.castErrorMessage) else
  match ReservationRepository.findById reservationId (reservations w) with
  | None => (w, Reply 404 (ErrorBody "Reservation not found"))
  | Some reservation =>
      if negb (status_eqb (status reservation) pending) then
        (w, Reply 400 (ErrorBody "Reservation cannot be released"))
      else
        (* release reservation *)
        let w1 := set_reservations w
                    (fst (ReservationRepository.updateStatusById
                            reservationId released (reservations w))) in
        (* update inventory *)
        let w2 :=
          match InventoryRepository.findByProductId
                  (res_productId reservation) (inventory w1) with
          | Some inventoryItem =>
              let update :=
                mkInvUpdate
                  (Some (available inventoryItem + quantity reservation))
                  (Some (reserved inventoryItem - quantity reservation))
                  None None in
              set_inventory w1
                (fst (InventoryRepository.updateById (inv_id inventoryItem)
                                                     update (inventory w1)))
          | None => w1
          end in
        (* publish release event *)
        let e := mkEvent "inventory.released" reservationId
                         (orderId reservation) (res_productId reservation)
                         (quantity reservation) in
        match EventBus.publish (channel env) e (sent w2) with
        | (log, Some msg) =>
            (mkWorld (inventory w2) (reservations w2) log, Throw msg)
        | (log, None) =>
            (mkWorld (inventory w2) (reservations w2) log, Reply 204 NoBody)
        end
  end.

(** What the route hands to [validateParams] :
    [{ reservationId: idSchema.shape.id }], an object literal. *)
Definition releaseParams : Validation.ParamsSchema := Validation.PlainObject.

(** The route: [validateParams(releaseParams)], then the handler. *)
Definition releaseRoute (env : Env) (reservationId : string) (w : World)
  : World * Outcome :=
  match Validation.validateParams releaseParams reservationId with
  | Some o => (w, o)
  | None => releaseHandler env reservationId w
  end.

End Routes.

(* ================================================================== *)
(** ** services/inventory-service/src/consumers/index.ts *)
(* ================================================================== *)

Module Consumers.

Record ProductCreatedEvent := mkProductCreated {
  pc_productId : string;
  pc_sku : string;
  pc_stock : Z
}.

(** Handler of [product.created].  [Math.floor(stock * 0.1)] is the
    integer quotient by ten; a failing [create] is caught and logged. *)
Definition onProductCreated (env : Env) (e : ProductCreatedEvent) (w : World)
  : World :=
  let data := mkInventory (newId env) (pc_productId e) (pc_sku e)
                          (pc_stock e) 0 (pc_stock e)
                          (Z.max 10 (pc_stock e / 10)) in
  match InventoryRepository.create data (inventory w) with
  | inl _ => w
  | inr docs => set_inventory w docs
  end.

(** Handler of [order.created]: the loop over the reservations found for
    the order.  Each pending one gets [confirmReservation]; the inventory
    collection is not touched. *)
Fixpoint confirmLoop (found : list ReservationDocument) (w : World) : World :=
  match found with
  | [] => w
  | reservation :: rest =>
      if status_eqb (status reservation) pending then
        confirmLoop rest
          (set_reservations w
             (fst (ReservationRepository.confirmReservation
                     (res_id reservation) (reservations w))))
      else confirmLoop rest w
  end.

Definition onOrderCreated (order : string) (w : World) : World :=
  confirmLoop (ReservationRepository.findByOrderId order (reservations w)) w.

(** One turn of the release loops (cancellation and sweeper):
    [releaseReservation(reservation.id)] and then
    [inventoryRepository.release(productId, quantity)]. *)
Definition releaseOne (reservation : ReservationDocument) (w : World) : World :=
  let w1 := set_reservations w
              (fst (ReservationRepository.releaseReservation
                      (res_id reservation) (reservations w))) in
  set_inventory w1
    (fst (InventoryRepository.release (res_productId reservation)
                                      (quantity reservation) (inventory w1))).

(** Handler of [order.updated]: for a cancelled order, the loop over the
    reservations found for it. *)
Fixpoint cancelLoop (found : list ReservationDocument) (w : World) : World :=
  match found with
  | [] => w
  | reservation :: rest =>
      if status_eqb (status reservation) pending
         || status_eqb (status reservation) confirmed
      then cancelLoop rest (releaseOne reservation w)
      else cancelLoop rest w
  end.

Definition onOrderUpdated (order currentStatus : string) (w : World) : World :=
  if String.eqb currentStatus "cancelled" then
    cancelLoop (ReservationRepository.findByOrderId order (reservations w)) w
  else w.

(** The sweeper ([setInterval], every five minutes): the loop over the
    reservations selected by [findExpired].  The loop works on the
    documents as they were selected. *)
Fixpoint sweepLoop (expiredReservations : list ReservationDocument)
         (w : World) : World :=
  match expiredReservations with
  | [] => w
  | reservation :: rest => sweepLoop rest (releaseOne reservation w)
  end.

Definition sweeperTick (now : Z) (w : World) : World :=
  sweepLoop (ReservationRepository.findExpired now (reservations w)) w.

End Consumers.

(* ================================================================== *)
(** ** Requests running concurrently *)
(* ================================================================== *)

Module Concurrent.

(** A reserve request in flight. *)
Record Task := mkTask {
  t_env : Env;
  t_data : Routes.ReserveData;
  t_state : Routes.ReserveState
}.

(** The [n]-th request performs its next [await]ed operation. *)
Fixpoint stepTask (n : nat) (tasks : list Task) (w : World)
  : World * list Task :=
  match tasks, n with
  | [], _ => (w, [])
  | t :: rest, O =>
      let (w', s') := Routes.reserveStep (t_env t) (t_data t) w (t_state t) in
      (w', mkTask (t_env t) (t_data t) s' :: rest)
  | t :: rest, S n' =>
      let (w', rest') := stepTask n' rest w in (w', t :: rest')
  end.

(** A schedule names, turn after turn, the request that advances. *)
Fixpoint runSchedule (schedule : list nat) (tasks : list Task) (w : World)
  : World * list Task :=
  match schedule with
  | [] => (w, tasks)
  | n :: rest =>
      let (w', tasks') := stepTask n tasks w in runSchedule rest tasks' w'
  end.

Definition start (env : Env) (d : Routes.ReserveData) : Task :=
  mkTask env d Routes.RS_Start.

(** Reservations a request was answered 201 for. *)
Definition succeeded (t : Task) : option ReservationDocument :=
  match t_state t with
  | Routes.RS_Finished (Reply 201 (ReservationBody r)) => Some r
  | _ => None
  end.

Fixpoint totalSucceeded (tasks : list Task) : Z :=
  match tasks with
  | [] => 0
  | t :: rest =>
      match succeeded t with
      | Some r => quantity r + totalSucceeded rest
      | None => totalSucceeded rest
      end
  end.
(** The repository's [reserve] is a single [findOneAndUpdate], which the
    store runs atomically: requests that go through it are served one after
    the other, in some order.  The result is the collection and the
    quantity granted in total. *)
Fixpoint reserveMany (p : string) (qs : list Z) (docs : list InventoryDocument)
  : list InventoryDocument * Z :=
  match qs with
  | [] => (docs, 0)
  | q :: rest =>
      match InventoryRepository.reserve p q docs with
      | (docs', Some _) =>
          let (docs'', granted) := reserveMany p rest docs' in
          (docs'', q + granted)
      | (docs', None) => reserveMany p rest docs'
      end
  end.

End Concurrent.

(* ================================================================== *)
(** ** The ledger invariant *)
(* ================================================================== *)
Definition balanced (d : InventoryDocument) : Prop :=
  available d + reserved d = total d.

Definition ledgerInvariant (d : InventoryDocument) : Prop :=
  available d + reserved d = total d /\ 0 <= available d /\ 0 <= reserved d.

(** An entry that satisfies the invariant with a [total] within
    [Number.MAX_SAFE_INTEGER]: its three counters are exact, and so is
    every sum or difference of them that stays between zero and [total]. *)
Definition safeEntry (d : InventoryDocument) : Prop :=
  ledgerInvariant d /\ total d <= maxSafeInteger.

Definition ledgerInvariantb (d : InventoryDocument) : bool :=
  (available d + reserved d =? total d)
  && (0 <=? available d) && (0 <=? reserved d).

(** The three counters of every ledger entry. *)
Definition counters (w : World) : list (Z * Z * Z) :=
  map (fun d => (available d, reserved d, total d)) (inventory w).

(** Unique [_id]s, as MongoDB keeps them. *)
Definition uniqueIds (w : World) : Prop :=
  NoDup (map inv_id (inventory w)) /\ NoDup (map res_id (reservations w)).

(** The [_id] and the [total] of every ledger entry. *)
Definition totals (w : World) : list (string * Z) :=
  map (fun d => (inv_id d, total d)) (inventory w).

(** What a reserve request in flight holds of the entry it read: the entry
    satisfied the invariant when it was read, it had the quantity asked
    for, and the [total] stored under its [_id] is still the one read. *)
Definition snapshotFits (w : World) (d : Routes.ReserveData)
           (s : Routes.ReserveState) : Prop :=
  1 <= Routes.rd_quantity d
  /\ match s with
     | Routes.RS_Checked item | Routes.RS_Created item _ =>
         ledgerInvariant item
         /\ Routes.rd_quantity d <= available item
         /\ forall t, In (inv_id item, t) (totals w) -> t = total item
     | _ => True
     end.

(* ================================================================== *)
(** ** The inventory service as a whole *)
(* ================================================================== *)

Module Service.

(** Everything that reaches the service: the requests of its routes, the
    events of its three subscriptions and the turns of the sweeper. *)
Inductive Request :=
| PostInventory (env : Env) (b : Routes.CreateInventoryBody)
| PatchInventory (id : string) (b : Routes.UpdateInventoryBody)
| PostReserve (env : Env) (b : Routes.ReserveBody)
| PostRelease (env : Env) (reservationId : string)
| ProductCreated (env : Env) (e : Consumers.ProductCreatedEvent)
| OrderCreated (order : string)
| OrderUpdated (order currentStatus : string)
| Sweep (now : Z).

(** One request served from start to end, no other running meanwhile. *)
Definition serve (rq : Request) (w : World) : World :=
  match rq with
  | PostInventory env b => fst (Routes.createInventoryRoute env b w)
  | PatchInventory id b => fst (Routes.updateInventoryRoute id b w)
  | PostReserve env b => fst (Routes.reserveRoute env b w)
  | PostRelease env id => fst (Routes.releaseRoute env id w)
  | ProductCreated env e => Consumers.onProductCreated env e w
  | OrderCreated order => Consumers.onOrderCreated order w
  | OrderUpdated order st => Consumers.onOrderUpdated order st w
  | Sweep now => Consumers.sweeperTick now w
  end.

Fixpoint serveAll (rqs : list Request) (w : World) : World :=
  match rqs with
  | [] => w
  | rq :: rest => serveAll rest (serve rq w)
  end.

(** A reservation that still holds stock: pending or confirmed. *)
Definition active (r : ReservationDocument) : bool :=
  status_eqb (status r) pending || status_eqb (status r) confirmed.

(** The quantity held on a product by the reservations of a collection. *)
Fixpoint heldFor (p : string) (rs : list ReservationDocument) : Z :=
  match rs with
  | [] => 0
  | r :: rest =>
      (if String.eqb (res_productId r) p && active r then quantity r else 0)
      + heldFor p rest
  end.

(** Ids and product ids are unique, every reservation is for at least one
    unit of a product that has an entry, and the [reserved] counter of each
    entry is the quantity its reservations hold. *)
Definition consistent (w : World) : Prop :=
  NoDup (map inv_id (inventory w))
  /\ NoDup (map productId (inventory w))
  /\ NoDup (map res_id (reservations w))
  /\ Forall (fun r => 1 <= quantity r
                      /\ In (res_productId r) (map productId (inventory w)))
            (reservations w)
  /\ Forall (fun e => reserved e = heldFor (productId e) (reservations w))
            (inventory w).

(** A request whose stock is within [Number.MAX_SAFE_INTEGER]. *)
Definition inRange (rq : Request) : bool :=
  match rq with
  | PostInventory _ b => Routes.cb_total b <=? maxSafeInteger
  | ProductCreated _ e => Consumers.pc_stock e <=? maxSafeInteger
  | _ => true
  end.

End Service.

(* ================================================================== *)
(** ** packages/event-bus : RabbitEventBus.subscribe *)
(* ================================================================== *)

Module Subscribe.

(** What a handler invocation ends with: the promise resolves or rejects. *)
Inductive HandlerResult := Resolved | Rejected (error : string).

(** An AMQP delivery: its delivery tag and its content. *)
Record ConsumeMessage := mkMessage {
  deliveryTag : Z;
  content : string
}.

(** Calls made on the channel by the consume callback. *)
Inductive ChannelCall :=
| Ack (msg : ConsumeMessage)
| Nack (msg : ConsumeMessage) (allUpTo requeue : bool).

Section Callback.

(** [JSON.parse(msg.content.toString())]: [None] when it throws. *)
Variable Event : Type.
Variable parse : string -> option Event.
Variable handler : Event -> HandlerResult.

(** The callback given to [channel.consume]. *)
Definition consumeCallback (msg : option ConsumeMessage) : list ChannelCall :=
  match msg with
  | None => []
  | Some m =>
      match parse (content m) with
      | None => [Nack m false false]
      | Some event =>
          match handler event with
          | Resolved => [Ack m]
          | Rejected _ => [Nack m false false]
          end
      end
  end.

End Callback.

(** The broker's side of one queue (AMQP 0-9-1, no dead-letter exchange is
    declared by [assertQueue]): messages waiting to be delivered and
    messages delivered but not yet settled. *)
Record Queue := mkQueue {
  ready : list ConsumeMessage;
  unacked : list ConsumeMessage
}.

Definition sameTag (m n : ConsumeMessage) : bool :=
  deliveryTag m =? deliveryTag n.

(** [ack] settles one delivery; [nack] settles one delivery, or every
    delivery up to its tag, and puts them back on the queue only when
    [requeue] is set. *)
Definition settle (q : Queue) (c : ChannelCall) : Queue :=
  match c with
  | Ack m => mkQueue (ready q) (filter (fun n => negb (sameTag m n)) (unacked q))
  | Nack m allUpTo requeue =>
      let hit n := if allUpTo then deliveryTag n <=? deliveryTag m
                   else sameTag m n in
      mkQueue (if requeue then filter hit (unacked q) ++ ready q else ready q)
              (filter (fun n => negb (hit n)) (unacked q))
  end.

Definition settleAll (q : Queue) (cs : list ChannelCall) : Queue :=
  fold_left settle cs q.

Definition holds (q : Queue) (m : ConsumeMessage) : bool :=
  existsb (sameTag m) (ready q) || existsb (sameTag m) (unacked q).

End Subscribe.

(* ================================================================== *)
(** ** apps/gateway : SSEManager and the SSE broadcast consumer *)
(* ================================================================== *)

Module SSE.

(** packages/types, [SSEMessage]; [data] is the text written on the
    stream (the string itself, or its [JSON.stringify]). *)
Record SSEMessage := mkMessage {
  msg_id : option string;
  msg_event : option string;
  msg_data : string
}.

(** [SSEClient]; the [reply] socket is represented by the frames written
    to it. *)
Record SSEClient := mkClient {
  client_id : string;
  userId : string;
  subscriptions : list string;     (* Set<string>, in insertion order *)
  lastPing : Z
}.

(** The manager: [clients] is the [Map<string, SSEClient>] in insertion
    order; [written] lists the frames written, with the client they went
    to. *)
Record Manager := mkManager {
  clients : list (string * SSEClient);
  written : list (string * string)
}.

(** Whether [reply.raw.write] succeeds for a client. *)
Definition Sockets := string -> bool.

Definition keyIs (k : string) (e : string * SSEClient) : bool :=
  String.eqb (fst e) k.

(** [Map.get]. *)
Fixpoint mapGet (k : string) (m : list (string * SSEClient)) : option SSEClient :=
  match m with
  | [] => None
  | e :: rest => if keyIs k e then Some (snd e) else mapGet k rest
  end.

(** [Map.set]: an existing key keeps its place. *)
Fixpoint mapSet (k : string) (c : SSEClient) (m : list (string * SSEClient))
  : list (string * SSEClient) :=
  match m with
  | [] => [(k, c)]
  | e :: rest => if keyIs k e then (k, c) :: rest else e :: mapSet k c rest
  end.

(** [Map.delete]. *)
Definition mapDelete (k : string) (m : list (string * SSEClient))
  : list (string * SSEClient) :=
  filter (fun e => negb (keyIs k e)) m.

(** [Set.has], [Set.add], [Set.delete] on the subscription set. *)
Definition setHas (x : string) (s : list string) : bool :=
  existsb (String.eqb x) s.

Definition setAdd (s : list string) (x : string) : list string :=
  if setHas x s then s else s ++ [x].

Definition setDelete (s : list string) (x : string) : list string :=
  filter (fun y => negb (String.eqb x y)) s.

Definition nl : string := String (Ascii.ascii_of_nat 10) EmptyString.

(** JavaScript truthiness of an optional string field. *)
Definition truthy (o : option string) : option string :=
  match o with
  | Some EmptyString => None
  | other => other
  end.

(** The text block built by [sendToClient]. *)
Definition frame (message : SSEMessage) : string :=
  ((match truthy (msg_id message) with
    | Some i => "id: " ++ i ++ nl | None => "" end)
   ++ (match truthy (msg_event message) with
       | Some e => "event: " ++ e ++ nl | None => "" end)
   ++ "data: " ++ msg_data message ++ nl ++ nl)%string.

(** [removeClient]. *)
Definition removeClient (clientId : string) (m : Manager) : Manager :=
  match mapGet clientId (clients m) with
  | Some _ => mkManager (mapDelete clientId (clients m)) (written m)
  | None => m
  end.

(** [sendToClient]: a write that throws removes the client. *)
Definition sendToClient (io : Sockets) (clientId : string)
           (message : SSEMessage) (m : Manager) : Manager :=
  match mapGet clientId (clients m) with
  | None => m
  | Some _ =>
      if io clientId
      then mkManager (clients m) (written m ++ [(clientId, frame message)])
      else removeClient clientId m
  end.

(** [addClient]; the data of the first message is the connection time. *)
Definition addClient (io : Sockets) (timestamp : string) (client : SSEClient)
           (m : Manager) : Manager :=
  sendToClient io (client_id client)
               (mkMessage None (Some "connected") timestamp)
               (mkManager (mapSet (client_id client) client (clients m))
                          (written m)).

(** The [for (const [clientId, client] of this.clients)] loops: the
    entries are visited in order; an entry removed on its own turn does not
    disturb the rest. *)
Fixpoint sendToUserLoop (io : Sockets) (user : string) (message : SSEMessage)
         (entries : list (string * SSEClient)) (m : Manager) : Manager :=
  match entries with
  | [] => m
  | (clientId, client) :: rest =>
      if String.eqb (userId client) user
      then sendToUserLoop io user message rest
                          (sendToClient io clientId message m)
      else sendToUserLoop io user message rest m
  end.

(** [sendToUser]. *)
Definition sendToUser (io : Sockets) (user : string) (message : SSEMessage)
           (m : Manager) : Manager :=
  sendToUserLoop io user message (clients m) m.

Fixpoint broadcastLoop (io : Sockets) (eventType : string)
         (message : SSEMessage) (entries : list (string * SSEClient))
         (m : Manager) : Manager :=
  match entries with
  | [] => m
  | (clientId, client) :: rest =>
      if setHas eventType (subscriptions client)
         || setHas "*" (subscriptions client)
      then broadcastLoop io eventType message rest
                         (sendToClient io clientId message m)
      else broadcastLoop io eventType message rest m
  end.

(** [broadcastToSubscribers]. *)
Definition broadcastToSubscribers (io : Sockets) (eventType : string)
           (message : SSEMessage) (m : Manager) : Manager :=
  broadcastLoop io eventType message (clients m) m.

(** The subscription set of one client is changed in place. *)
Fixpoint updateSubscriptions (clientId : string)
         (f : list string -> list string) (entries : list (string * SSEClient))
  : list (string * SSEClient) :=
  match entries with
  | [] => []
  | e :: rest =>
      if keyIs clientId e
      then (fst e, mkClient (client_id (snd e)) (userId (snd e))
                            (f (subscriptions (snd e))) (lastPing (snd e)))
           :: rest
      else e :: updateSubscriptions clientId f rest
  end.

(** [subscribeClient]. *)
Definition subscribeClient (clientId : string) (eventTypes : list string)
           (m : Manager) : Manager :=
  mkManager (updateSubscriptions clientId
               (fun s => fold_left setAdd eventTypes s) (clients m))
            (written m).

(** [unsubscribeClient]. *)
Definition unsubscribeClient (clientId : string) (eventTypes : list string)
           (m : Manager) : Manager :=
  mkManager (updateSubscriptions clientId
               (fun s => fold_left setDelete eventTypes s) (clients m))
            (written m).

Definition staleThreshold : Z := 60000.

Definition pingPeriod : Z := 30000.

Fixpoint pingLoop (io : Sockets) (now : Z) (timestamp : string)
         (entries : list (string * SSEClient)) (m : Manager) : Manager :=
  match entries with
  | [] => m
  | (clientId, client) :: rest =>
      if staleThreshold <? now - lastPing client
      then pingLoop io now timestamp rest (removeClient clientId m)
      else pingLoop io now timestamp rest
                    (sendToClient io clientId
                                  (mkMessage None (Some "ping") timestamp) m)
  end.

(** [pingClients], run by [setInterval] every [pingPeriod] milliseconds;
    [timestamp] is the text of [{ timestamp: now }]. *)
Definition pingClients (io : Sockets) (now : Z) (timestamp : string)
           (m : Manager) : Manager :=
  pingLoop io now timestamp (clients m) m.

(** A domain event as the gateway reads it: [data] as text, and the
    [userId] of [data] when [data] is an object that has one. *)
Record GatewayEvent := mkGatewayEvent {
  ge_id : string;
  ge_type : string;
  ge_data : string;
  ge_userId : option string
}.

(** The handler given to [subscribeToPattern('*', ...)] in [setupSSE]. *)
Definition onEvent (io : Sockets) (event : GatewayEvent) (m : Manager)
  : Manager :=
  let message := mkMessage (Some (ge_id event)) (Some (ge_type event))
                           (ge_data event) in
  let m1 := broadcastToSubscribers io (ge_type event) message m in
  let m2 := match ge_userId event with
            | Some u => if String.prefix "user." (ge_type event)
                        then sendToUser io u message m1 else m1
            | None => m1
            end in
  match ge_userId event with
  | Some u => if String.prefix "order." (ge_type event)
              then sendToUser io u message m2 else m2
  | None => m2
  end.

(** packages/types, [JWTPayload] as far as the SSE routes read it. *)
Record JWTPayload := mkJWT {
  jwt_userId : string;
  jwt_roles : list string
}.

(** GET /sse/notifications; [nowText] is the decimal text of [now] and
    [timestamp] its ISO text. *)
Definition connectNotifications (io : Sockets) (user : JWTPayload)
           (now : Z) (nowText timestamp : string) (m : Manager) : Manager :=
  let clientId := (jwt_userId user ++ "-" ++ nowText)%string in
  addClient io timestamp
            (mkClient clientId (jwt_userId user)
                      ["notification.*";
                       ("user." ++ jwt_userId user ++ ".*")%string]
                      now) m.

(** GET /sse/orders/:userId; [None] is the 403 reply. *)
Definition connectOrders (io : Sockets) (user : JWTPayload) (param : string)
           (now : Z) (nowText timestamp : string) (m : Manager)
  : option Manager :=
  if negb (String.eqb (jwt_userId user) param)
     && negb (existsb (String.eqb "admin") (jwt_roles user))
  then None
  else
    let clientId := ("orders-" ++ param ++ "-" ++ nowText)%string in
    Some (addClient io timestamp
                    (mkClient clientId (jwt_userId user) ["order.*"] now) m).

(** Everything that can happen to the manager after it is built. *)
Inductive Op :=
| OpAddClient (timestamp : string) (client : SSEClient)
| OpRemoveClient (clientId : string)
| OpSendToClient (clientId : string) (message : SSEMessage)
| OpSendToUser (user : string) (message : SSEMessage)
| OpBroadcast (eventType : string) (message : SSEMessage)
| OpSubscribe (clientId : string) (eventTypes : list string)
| OpUnsubscribe (clientId : string) (eventTypes : list string)
| OpPing (now : Z) (timestamp : string)
| OpEvent (event : GatewayEvent).

Definition apply (io : Sockets) (op : Op) (m : Manager) : Manager :=
  match op with
  | OpAddClient ts c => addClient io ts c m
  | OpRemoveClient k => removeClient k m
  | OpSendToClient k msg => sendToClient io k msg m
  | OpSendToUser u msg => sendToUser io u msg m
  | OpBroadcast t msg => broadcastToSubscribers io t msg m
  | OpSubscribe k ts => subscribeClient k ts m
  | OpUnsubscribe k ts => unsubscribeClient k ts m
  | OpPing now ts => pingClients io now ts m
  | OpEvent e => onEvent io e m
  end.

Fixpoint run (ops : list (Sockets * Op)) (m : Manager) : Manager :=
  match ops with
  | [] => m
  | (io, op) :: rest => run rest (apply io op m)
  end.

(** The operation that creates the client [clientId]. *)
Definition creates (clientId : string) (op : Op) : bool :=
  match op with
  | OpAddClient _ c => String.eqb (client_id c) clientId
  | _ => false
  end.

(** The time of the [k]-th run of [pingClients] for a manager built at
    [built], timers firing on time. *)
Definition tick (built : Z) (k : Z) : Z := built + pingPeriod * k.

(** The client [clientId] of [m'], if there is one, was already a client
    of [m], with the same [lastPing]. *)
Definition pingKept (clientId : string) (m m' : Manager) : Prop :=
  forall c', mapGet clientId (clients m') = Some c' ->
             exists c, mapGet clientId (clients m) = Some c
                       /\ lastPing c' = lastPing c.

End SSE.

(* ================================================================== *)
(** ** Topics and patterns *)
(* ================================================================== *)

Module Topic.

(** The dot-separated segments of a topic or pattern. *)
Fixpoint segments (s : string) : list string :=
  match s with
  | EmptyString => [EmptyString]
  | String c rest =>
      if Ascii.eqb c "."%char then EmptyString :: segments rest
      else match segments rest with
           | seg :: more => String c seg :: more
           | [] => [String c EmptyString]
           end
  end.

Fixpoint segmentsMatch (pattern topic : list string) : bool :=
  match pattern, topic with
  | [], [] => true
  | p :: ps, t :: ts =>
      (String.eqb p "*" || String.eqb p t) && segmentsMatch ps ts
  | _, _ => false
  end.

Definition stars (pattern : list string) : nat :=
  List.length (filter (String.eqb "*") pattern).

(** The matching the specification asks of the fan-out layer, in its words:
    a subscription names a topic, or a topic with a single [*] segment, or
    is the full [*] that stands for all topics. *)
Definition specPatternMatches (pattern topic : string) : bool :=
  String.eqb pattern "*"
  || ((stars (segments pattern) <=? 1)%nat
      && segmentsMatch (segments pattern) (segments topic)).

(** A client the specification wants the event delivered to. *)
Definition specInterested (c : SSE.SSEClient) (topic : string) : bool :=
  existsb (fun p => specPatternMatches p topic) (SSE.subscriptions c).

(** The broker's side of a binding on a topic exchange (AMQP 0-9-1): in a
    binding key [*] stands for exactly one word and [#] for any number of
    words. *)
Fixpoint bindingMatches (fuel : nat) (key routing : list string) : bool :=
  match fuel with
  | O => false
  | S fuel' =>
      match key, routing with
      | [], [] => true
      | k :: ks, _ =>
          if String.eqb k "#" then
            bindingMatches fuel' ks routing
            || match routing with
               | [] => false
               | _ :: rs => bindingMatches fuel' key rs
               end
          else match routing with
               | [] => false
               | r :: rs =>
                   (String.eqb k "*" || String.eqb k r)
                   && bindingMatches fuel' ks rs
               end
      | [], _ :: _ => false
      end
  end.

Definition routedTo (bindingKey routingKey : string) : bool :=
  let k := segments bindingKey in
  let r := segments routingKey in
  bindingMatches (S (List.length k + List.length r)) k r.

End Topic.

(* ================================================================== *)
(** ** Concrete runs *)
(* ================================================================== *)

Module Scenario.

(** Identifiers: uuids for the product and the orders, as the request
    schemas ask, and generated [_id]s for the stored documents. *)
Definition product : string := "0c7f4a52-6d1e-4b8a-9f3e-2a5d8c1b7e01".
Definition orderA : string := "5e2b9d14-3c7a-4f60-8b1d-9a4e6c2f0a01".
Definition orderB : string := "5e2b9d14-3c7a-4f60-8b1d-9a4e6c2f0a02".
Definition entryId : string := "65a1f0c2b7e4d3a2c1b0f001".
Definition resA : string := "65a1f0c2b7e4d3a2c1b0fa01".
Definition resB : string := "65a1f0c2b7e4d3a2c1b0fb02".

Definition bus : EventBus.Channel := Some true.

(** One ledger entry with ten units, and two reserve requests of ten
    units each. *)
Definition raceWorld : World :=
  mkWorld [mkInventory entryId product "SKU-1" 10 0 10 2] [] [].

Definition raceTasks : list Concurrent.Task :=
  [Concurrent.start (mkEnv 1000 resA bus)
                    (Routes.mkReserveData orderA product 10 1800);
   Concurrent.start (mkEnv 1001 resB bus)
                    (Routes.mkReserveData orderB product 10 1800)].

(** Both requests read the entry before either writes it. *)
Definition raceSchedule : list nat := [0; 1; 0; 1; 0; 1; 0; 1]%nat.

Definition emptyWorld : World := mkWorld [] [] [].

(** POST / with total 15, then POST /reserve of 10. *)
Definition stocked15 : World :=
  fst (Routes.createInventoryRoute
         (mkEnv 0 entryId bus)
         (Routes.mkCreateBody product "SKU-1" 15 2) emptyWorld).

Definition reserved10of15 : World :=
  fst (Routes.reserveRoute
         (mkEnv 1000 resA bus)
         (Routes.mkReserveBody orderA product 10 None) stocked15).

(** The ledger [{available: 100, reserved: 0, total: 100}]. *)
Definition ledger100 : World :=
  mkWorld [mkInventory entryId product "SKU-1" 100 0 100 10] [] [].

(** Reserve of 10 for order A, with a ttl of 1800 seconds. *)
Definition reserveA : World * option Outcome :=
  Routes.reserveRoute (mkEnv 1000 resA bus)
                      (Routes.mkReserveBody orderA product 10 (Some 1800))
                      ledger100.

(** The [order.created] event of order A arrives. *)
Definition confirmedA : World := Consumers.onOrderCreated orderA (fst reserveA).

(** Reserve of 10 with a ttl of 60 seconds; at [now = 62000] the sweeper
    selects it, the order is confirmed, and the sweeper's loop then runs on
    its selection. *)
Definition reserveShort : World :=
  fst (Routes.reserveRoute (mkEnv 1000 resA bus)
                           (Routes.mkReserveBody orderA product 10 (Some 60))
                           ledger100).

Definition selected : list ReservationDocument :=
  ReservationRepository.findExpired 62000 (reservations reserveShort).

Definition confirmedMeanwhile : World :=
  Consumers.onOrderCreated orderA reserveShort.

Definition sweptAfterConfirm : World :=
  Consumers.sweepLoop selected confirmedMeanwhile.

(** The same selection of the sweeper; the [order.updated] cancellation of
    order A is handled, and the sweeper's loop then runs on its
    selection. *)
Definition cancelledMeanwhile : World :=
  Consumers.onOrderUpdated orderA "cancelled" reserveShort.

Definition sweptAfterCancel : World :=
  Consumers.sweepLoop selected cancelledMeanwhile.



(** POST /release/:reservationId for the pending reservation of order A. *)
Definition releaseRequested : World * Outcome :=
  Routes.releaseRoute (mkEnv 2000 "" bus) resA (fst reserveA).

(** POST /reserve while [channel.publish] returns [false]. *)
Definition reserveUnpublished : World * option Outcome :=
  Routes.reserveRoute (mkEnv 1000 resA (Some false))
                      (Routes.mkReserveBody orderA product 10 (Some 1800))
                      ledger100.

(** An administrator follows the orders of user [u-1] on
    GET /sse/orders/u-1; then [order.created] of that user arrives. *)
Definition allOpen : SSE.Sockets := fun _ => true.

Definition admin : SSE.JWTPayload := SSE.mkJWT "admin-1" ["admin"].

Definition watching : option SSE.Manager :=
  SSE.connectOrders allOpen admin "u-1" 5000 "5000" "1970-01-01T00:00:05.000Z"
                    (SSE.mkManager [] []).

Definition orderCreated : SSE.GatewayEvent :=
  SSE.mkGatewayEvent "evt-1" "order.created" "{userId: u-1, orderId: o-1}"
                     (Some "u-1").

(** The same client, and what happens to it during its first minute. *)
Definition watcher : SSE.SSEClient :=
  SSE.mkClient "orders-u-1-5000" "admin-1" ["order.*"] 5000.

Definition watched : SSE.Manager :=
  SSE.addClient allOpen "1970-01-01T00:00:05.000Z" watcher (SSE.mkManager [] []).

Definition firstMinute : list (SSE.Sockets * SSE.Op) :=
  [(allOpen, SSE.OpEvent orderCreated);
   (allOpen, SSE.OpPing 30000 "30000");
   (allOpen, SSE.OpSubscribe "orders-u-1-5000" ["order.created"]);
   (allOpen, SSE.OpEvent orderCreated);
   (allOpen, SSE.OpPing 60000 "60000")].

(** Requests, events and sweeper turns of the inventory service, one after
    the other. *)
Definition day : list Service.Request :=
  [Service.PostInventory (mkEnv 0 entryId bus)
                         (Routes.mkCreateBody product "SKU-1" 15 2);
   Service.PostReserve (mkEnv 1000 resA bus)
                       (Routes.mkReserveBody orderA product 10 None);
   Service.PostReserve (mkEnv 2000 resB bus)
                       (Routes.mkReserveBody orderB product 10 None);
   Service.OrderCreated orderA;
   Service.PatchInventory entryId (Routes.mkUpdateBody None (Some 5));
   Service.PostReserve (mkEnv 3000 resB bus)
                       (Routes.mkReserveBody orderB product 5 (Some 60));
   Service.Sweep 100000;
   Service.OrderUpdated orderA "cancelled";
   Service.PostRelease (mkEnv 200000 "" bus) resB].

End Scenario.

(* ================================================================== *)
(** * Properties *)
(* ================================================================== *)

(** ** Collections *)

Section CollectionFacts.

Variable T : Type.
Variable key : T -> string.

Lemma findOne_In (f : T -> bool) (l : list T) (d : T) :
  Db.findOne f l = Some d -> In d l /\ f d = true.
Proof.
  induction l as [|x l IH]; simpl; [discriminate|].
  destruct (f x) eqn:E.
  - intros [= ->]. auto.
  - intros H. destruct (IH H). auto.
Qed.

Lemma findOne_None (f : T -> bool) (l : list T) :
  Db.findOne f l = None -> forall d, In d l -> f d = false.
Proof using Type.
  induction l as [|x l IH]; simpl; [intros _ d []|].
  destruct (f x) eqn:E; [discriminate|].
  intros H d [Hx|Hd]; [subst d; exact E|exact (IH H d Hd)].
Qed.

(** With unique keys, the document found under a key is the only one. *)
Lemma unique_key (l : list T) (d e : T) :
  NoDup (map key l) -> In d l -> In e l -> key d = key e -> d = e.
Proof.
  induction l as [|x l IH]; simpl; [tauto|].
  intros Hnd Hd He Hk. inversion Hnd as [|? ? Hx Hl]; subst.
  destruct Hd as [<-|Hd], He as [<-|He]; auto.
  - exfalso. apply Hx. rewrite Hk. now apply in_map.
  - exfalso. apply Hx. rewrite <- Hk. now apply in_map.
Qed.

(** An update by key, on unique keys, rewrites exactly the documents of
    that key. *)
Lemma update_by_key (k : string) (u : T -> T) (l : list T) :
  NoDup (map key l) ->
  fst (Db.findOneAndUpdate (Db.keyed key k) u l)
  = map (fun d => if Db.keyed key k d then u d else d) l.
Proof.
  induction l as [|x l IH]; simpl; [reflexivity|].
  intros Hnd. inversion Hnd as [|? ? Hx Hl]; subst.
  destruct (Db.keyed key k x) eqn:E; simpl.
  - f_equal. symmetry. erewrite map_ext_in; [apply map_id|].
    intros d Hd. simpl.
    destruct (Db.keyed key k d) eqn:Ed; [|reflexivity].
    exfalso. apply Hx. unfold Db.keyed in *.
    apply String.eqb_eq in E, Ed. rewrite E, <- Ed. now apply in_map.
  - destruct (Db.findOneAndUpdate (Db.keyed key k) u l) as [l' r] eqn:El.
    simpl in *. now rewrite IH.
Qed.


(** Looking up through a rewriting that keeps the filter's verdict. *)
Lemma findOne_map (g : T -> bool) (h : T -> T) (l : list T) :
  (forall d, g (h d) = g d) ->
  Db.findOne g (map h l) = option_map h (Db.findOne g l).
Proof.
  intros Hg. induction l as [|x l IH]; simpl; [reflexivity|].
  rewrite Hg. destruct (g x); [reflexivity|exact IH].
Qed.

(** The document an update hits is the one the same filter finds. *)
Lemma findOne_updated (f : T -> bool) (u : T -> T) (l : list T) (d : T) :
  Db.findOne f l = Some d -> f (u d) = true ->
  Db.findOne f (fst (Db.findOneAndUpdate f u l)) = Some (u d).
Proof.
  induction l as [|x l IH]; simpl; [discriminate|].
  destruct (f x) eqn:E.
  - intros [= ->] Hu. simpl. now rewrite Hu.
  - intros H Hu. destruct (Db.findOneAndUpdate f u l) as [l' r] eqn:El.
    simpl in *. rewrite E. now apply IH.
Qed.

Lemma update_keeps_keys (f : T -> bool) (u : T -> T) (l : list T) :
  (forall d, key (u d) = key d) ->
  map key (fst (Db.findOneAndUpdate f u l)) = map key l.
Proof.
  intros Hu. induction l as [|x l IH]; simpl; [reflexivity|].
  destruct (f x); simpl.
  - now rewrite Hu.
  - destruct (Db.findOneAndUpdate f u l). simpl in *. now rewrite IH.
Qed.

End CollectionFacts.

Lemma ledgerInvariantb_spec (d : InventoryDocument) :
  ledgerInvariantb d = true <-> ledgerInvariant d.
Proof.
  unfold ledgerInvariantb, ledgerInvariant.
  rewrite !andb_true_iff, Z.eqb_eq, !Z.leb_le. tauto.
Qed.

(** ** The path parameter of PATCH /:id and POST /release/:reservationId *)

Lemma hexRun_length (n : nat) (s r : string) :
  Validation.hexRun n s = Some r ->
  String.length s = (n + String.length r)%nat.
Proof.
  revert s. induction n as [|n IH]; intros s; cbn [Validation.hexRun].
  - intros [= ->]. reflexivity.
  - destruct s as [|c s]; [discriminate|].
    destruct (isHexDigit c); [|discriminate].
    intros H. apply IH in H. cbn [String.length]. lia.
Qed.

Lemma dash_length (s r : string) :
  Validation.dash s = Some r -> String.length s = S (String.length r).
Proof.
  destruct s as [|c s]; [discriminate|].
  destruct c as [[] [] [] [] [] [] [] []]; cbn [Validation.dash];
    try discriminate.
  intros [= ->]. reflexivity.
Qed.

(** A string the uuid check accepts has 36 characters. *)
Lemma isUuid_length (s : string) :
  Validation.isUuid s = true -> String.length s = 36%nat.
Proof.
  unfold Validation.isUuid, Validation.andThen.
  destruct (Validation.hexRun 8 s) as [s1|] eqn:H1; [|discriminate].
  destruct (Validation.dash s1) as [s2|] eqn:H2; [|discriminate].
  destruct (Validation.hexRun 4 s2) as [s3|] eqn:H3; [|discriminate].
  destruct (Validation.dash s3) as [s4|] eqn:H4; [|discriminate].
  destruct (Validation.hexRun 4 s4) as [s5|] eqn:H5; [|discriminate].
  destruct (Validation.dash s5) as [s6|] eqn:H6; [|discriminate].
  destruct (Validation.hexRun 4 s6) as [s7|] eqn:H7; [|discriminate].
  destruct (Validation.dash s7) as [s8|] eqn:H8; [|discriminate].
  destruct (Validation.hexRun 12 s8) as [s9|] eqn:H9; [|discriminate].
  destruct s9; [|discriminate]. intros _.
  apply hexRun_length in H1, H3, H5, H7, H9.
  apply dash_length in H2, H4, H6, H8.
  cbn [String.length] in H9. lia.
Qed.

(** So no string passes both the uuid check of [idSchema] and the cast to
    [ObjectId] of [findById]. *)
Lemma uuid_is_no_objectId (s : string) :
  Validation.isUuid s = true -> Db.isObjectId s = false.
Proof.
  intros H. apply isUuid_length in H. unfold Db.isObjectId. now rewrite H.
Qed.

(** PATCH /:id never reaches the lookup of its handler. *)
Lemma updateInventoryRoute_cases (id : string) (b : Routes.UpdateInventoryBody)
      (w : World) :
  Routes.updateInventoryRoute id b w
  = (w, if Validation.isUuid id
        then if Routes.updateInventorySchema b
             then Throw Db.castErrorMessage
             else Reply 400 (ErrorBody "Validation failed")
        else Reply 400 (ErrorBody "Parameter validation failed")).
Proof.
  unfold Routes.updateInventoryRoute, Validation.validateParams,
    Validation.idSchema.
  destruct (Validation.isUuid id) eqn:Hid; [|reflexivity].
  destruct (Routes.updateInventorySchema b); [|reflexivity].
  unfold Routes.updateInventoryHandler.
  now rewrite (uuid_is_no_objectId id Hid).
Qed.

(** POST /release/:reservationId never reaches its handler. *)
Lemma releaseRoute_throws (env : Env) (id : string) (w : World) :
  Routes.releaseRoute env id w
  = (w, Throw "TypeError: schema.parse is not a function").
Proof. reflexivity. Qed.

(** ** The atomic reserve of the repository *)

Lemma update_no_match (T : Type) (f : T -> bool) (u : T -> T) (l : list T) :
  (forall d, In d l -> f d = false) -> Db.findOneAndUpdate f u l = (l, None).
Proof.
  induction l as [|x l IH]; simpl; intros H; [reflexivity|].
  rewrite (H x (or_introl eq_refl)).
  rewrite IH; [reflexivity|]. intros d Hd. apply H. now right.
Qed.

Lemma reserve_atomic_step (p : string) (q : Z) (l : list InventoryDocument)
      (item : InventoryDocument) :
  NoDup (map productId l) ->
  InventoryRepository.findByProductId p l = Some item ->
  if q <=? available item then
    exists l',
      InventoryRepository.reserve p q l
      = (l', Some (InventoryRepository.inc (- q) q 0 item))
      /\ InventoryRepository.findByProductId p l'
         = Some (InventoryRepository.inc (- q) q 0 item)
      /\ map productId l' = map productId l
  else InventoryRepository.reserve p q l = (l, None).
Proof.
  unfold InventoryRepository.reserve, InventoryRepository.findByProductId.
  induction l as [|x l IH]; simpl; [discriminate|].
  intros Hnd. inversion Hnd as [|? ? Hx Hl]; subst.
  destruct (InventoryRepository.hasProductId p x) eqn:E; simpl.
  - intros [= ->]. destruct (q <=? available item) eqn:Eq.
    + eexists. split; [reflexivity|]. simpl.
      unfold InventoryRepository.hasProductId, Db.keyed in *. simpl.
      rewrite E. auto.
    + rewrite update_no_match; [reflexivity|].
      intros d Hd.
      destruct (InventoryRepository.hasProductId p d) eqn:Ed; [|reflexivity].
      exfalso. apply Hx.
      unfold InventoryRepository.hasProductId, Db.keyed in *.
      apply String.eqb_eq in E, Ed. rewrite E, <- Ed. now apply in_map.
  - intros Hitem. specialize (IH Hl Hitem).
    destruct (q <=? available item).
    + destruct IH as (l' & Hl' & Hf & Hm). rewrite Hl'.
      eexists. split; [reflexivity|]. simpl. rewrite E. split; [exact Hf|].
      now rewrite Hm.
    + now rewrite IH.
Qed.

(** Requests served by the repository's [reserve] never get more than was
    available, and [available] stays non-negative. *)
Lemma atomic_reserve_never_oversells (p : string) (qs : list Z)
      (l : list InventoryDocument) (item : InventoryDocument) :
  NoDup (map productId l) ->
  InventoryRepository.findByProductId p l = Some item ->
  0 <= available item ->
  exists item',
    InventoryRepository.findByProductId p (fst (Concurrent.reserveMany p qs l))
    = Some item'
    /\ snd (Concurrent.reserveMany p qs l) <= available item
    /\ available item' = available item - snd (Concurrent.reserveMany p qs l)
    /\ reserved item' = reserved item + snd (Concurrent.reserveMany p qs l)
    /\ 0 <= available item'.
Proof.
  revert l item. induction qs as [|q qs IH]; intros l item Hnd Hitem Ha; simpl.
  - exists item. repeat split; auto; lia.
  - pose proof (reserve_atomic_step p q l Hnd Hitem) as Hstep.
    destruct (q <=? available item) eqn:Eq.
    + destruct Hstep as (l' & Hl' & Hf & Hm). rewrite Hl'.
      apply Z.leb_le in Eq.
      destruct (IH l' (InventoryRepository.inc (- q) q 0 item))
        as (item' & H1 & H2 & H3 & H4 & H5);
        [now rewrite Hm|exact Hf|simpl; lia|].
      destruct (Concurrent.reserveMany p qs l') as [l'' g]. simpl in *.
      exists item'. repeat split; auto; lia.
    + rewrite Hstep. now apply IH.
Qed.

(** ** Reserve under concurrency *)

(** C1.  POST /reserve reads the entry, checks [available >= quantity] and
    later writes counters computed from what it read: check and write are
    separate operations.  Two requests of ten units against an entry with
    ten available units, both reading before either writes, are both
    answered 201: twenty units are promised out of ten, and the entry ends
    with [reserved = 10]. *)
Theorem reserve_route_interleaved_oversells :
  let run := Concurrent.runSchedule Scenario.raceSchedule Scenario.raceTasks
                                    Scenario.raceWorld in
  counters Scenario.raceWorld = [(10, 0, 10)]
  /\ map (fun t => option_map res_id (Concurrent.succeeded t)) (snd run)
     = [Some Scenario.resA; Some Scenario.resB]
  /\ map (fun r => (quantity r, status r)) (reservations (fst run))
     = [(10, pending); (10, pending)]
  /\ Concurrent.totalSucceeded (snd run) = 20
  /\ counters (fst run) = [(0, 10, 10)].
Proof. vm_compute. repeat split; reflexivity. Qed.

(** ** The ledger invariant *)

(** C2.  The stock of one reservation given back twice.  From the ledger
    [(100, 0, 100)] a reserve of 10 gives [(90, 10, 100)], which satisfies
    the invariant.  The reservation expires and the sweeper selects it; the
    [order.updated] cancellation of its order is handled meanwhile and
    releases it, and the sweeper's loop then releases its selection: the
    [$inc] of [release] has no guard, and the entry is left at
    [(110, -10, 100)], with [reserved] below zero and more available than
    the total. *)
Theorem double_release_breaks_invariant :
  counters Scenario.reserveShort = [(90, 10, 100)]
  /\ forallb ledgerInvariantb (inventory Scenario.reserveShort) = true
  /\ map (fun r => (res_id r, status r)) Scenario.selected
     = [(Scenario.resA, pending)]
  /\ map (fun r => (res_id r, status r))
         (reservations Scenario.cancelledMeanwhile)
     = [(Scenario.resA, released)]
  /\ counters Scenario.cancelledMeanwhile = [(100, 0, 100)]
  /\ counters Scenario.sweptAfterCancel = [(110, -10, 100)]
  /\ forallb ledgerInvariantb (inventory Scenario.sweptAfterCancel) = false.
Proof. vm_compute. repeat split; reflexivity. Qed.

(** The other [$inc] updates of the repository have no lower bound either:
    [adjustStock] by -20 on ten available units. *)
Lemma adjustStock_below_zero :
  map (fun d => (available d, reserved d, total d))
      (fst (InventoryRepository.adjustStock Scenario.product (-20)
                                            (inventory Scenario.raceWorld)))
  = [(-10, 0, -10)].
Proof. vm_compute. reflexivity. Qed.

(** ** Confirm *)

(** C3.  The handler of [order.created] sets the reservation to confirmed
    and stops there: from the ledger [(100, 0, 100)], a reserve of 10 gives
    [(90, 10, 100)] and the confirmation leaves [(90, 10, 100)], not
    [(90, 0, 90)]. *)
Theorem order_created_confirm_leaves_ledger :
  counters Scenario.ledger100 = [(100, 0, 100)]
  /\ counters (fst Scenario.reserveA) = [(90, 10, 100)]
  /\ map status (reservations (fst Scenario.reserveA)) = [pending]
  /\ map status (reservations Scenario.confirmedA) = [confirmed]
  /\ counters Scenario.confirmedA = [(90, 10, 100)].
Proof. vm_compute. repeat split; reflexivity. Qed.

(** ** The sweeper *)

(** [releaseReservation] writes the status whatever it was, and
    [inventoryRepository.release] credits the entry whatever the status
    was. *)
Lemma releaseOne_unconditional (w : World) (selected current : ReservationDocument)
      (item : InventoryDocument) :
  ReservationRepository.findById (res_id selected) (reservations w)
  = Some current ->
  InventoryRepository.findByProductId (res_productId selected) (inventory w)
  = Some item ->
  ReservationRepository.findById
    (res_id selected) (reservations (Consumers.releaseOne selected w))
  = Some (setStatus released current)
  /\ InventoryRepository.findByProductId
       (res_productId selected) (inventory (Consumers.releaseOne selected w))
     = Some (InventoryRepository.inc (quantity selected) (- quantity selected)
                                     0 item).
Proof.
  intros Hr Hi. unfold Consumers.releaseOne. simpl. split.
  - apply findOne_updated; [exact Hr|].
    apply findOne_In in Hr. exact (proj2 Hr).
  - apply findOne_updated; [exact Hi|].
    apply findOne_In in Hi. exact (proj2 Hi).
Qed.

(** C4.  A reservation selected by [findExpired] and confirmed before the
    sweeper's loop reaches it: the loop sets it to released and credits the
    entry, [(90, 10, 100)] becoming [(100, 0, 100)]. *)
Theorem sweeper_releases_confirmed_reservation :
  map res_id Scenario.selected = [Scenario.resA]
  /\ map status (reservations Scenario.confirmedMeanwhile) = [confirmed]
  /\ counters Scenario.confirmedMeanwhile = [(90, 10, 100)]
  /\ map status (reservations Scenario.sweptAfterConfirm) = [released]
  /\ counters Scenario.sweptAfterConfirm = [(100, 0, 100)].
Proof. vm_compute. repeat split; reflexivity. Qed.

(** ** Release *)

Section MoreCollectionFacts.

Variable T : Type.
Variable key : T -> string.

Lemma findOne_absent (f : T -> bool) (l : list T) :
  existsb f l = false -> Db.findOne f l = None.
Proof.
  induction l as [|x l IH]; simpl; [reflexivity|].
  destruct (f x); simpl; [discriminate|exact IH].
Qed.

Lemma findOne_appended (f : T -> bool) (l : list T) (x : T) :
  Db.findOne f l = None -> f x = true -> Db.findOne f (l ++ [x]) = Some x.
Proof.
  induction l as [|y l IH]; simpl; intros H Hx.
  - now rewrite Hx.
  - destruct (f y); [discriminate|]. now apply IH.
Qed.

Lemma findOne_by_key (l : list T) (d : T) :
  NoDup (map key l) -> In d l -> Db.findOne (Db.keyed key (key d)) l = Some d.
Proof.
  intros Hnd Hd.
  destruct (Db.findOne (Db.keyed key (key d)) l) as [e|] eqn:E.
  - apply findOne_In in E. destruct E as [He Hk].
    apply String.eqb_eq in Hk. f_equal. now apply (@unique_key T key l).
  - pose proof (findOne_None _ _ E d Hd) as Hk.
    unfold Db.keyed in Hk. now rewrite String.eqb_refl in Hk.
Qed.

End MoreCollectionFacts.

Lemma reserveInventorySchema_ok (b : Routes.ReserveBody) (d : Routes.ReserveData) :
  Routes.reserveInventorySchema b = Some d ->
  Routes.rd_orderId d = Routes.rb_orderId b
  /\ Routes.rd_productId d = Routes.rb_productId b
  /\ Routes.rd_quantity d = Routes.rb_quantity b
  /\ 1 <= Routes.rd_quantity d
  /\ 60 <= Routes.rd_expiresIn d <= 3600.
Proof.
  unfold Routes.reserveInventorySchema.
  destruct (_ && _) eqn:E; [|discriminate].
  intros [= <-]. simpl.
  apply andb_true_iff in E. destruct E as [E E3].
  apply andb_true_iff in E. destruct E as [E1 E2].
  apply Z.leb_le in E1, E2, E3. repeat split; auto.
Qed.

(** ** Reserve, step by step *)

(** What the handler of POST /reserve does once the entry is found with
    enough stock and the reservation can be stored: both writes happen, and
    the answer depends on the publish alone. *)
Lemma reserveHandler_writes (env : Env) (d : Routes.ReserveData) (w : World)
      (item : InventoryDocument) :
  InventoryRepository.findByProductId (Routes.rd_productId d) (inventory w)
  = Some item ->
  Routes.rd_quantity d <= available item ->
  1 <= Routes.rd_quantity d ->
  existsb (ReservationRepository.hasId (newId env)) (reservations w) = false ->
  let r := mkReservation (newId env) (Routes.rd_orderId d)
                         (Routes.rd_productId d) (Routes.rd_quantity d) pending
                         (now env + Routes.rd_expiresIn d * 1000) in
  let u := mkInvUpdate (Some (available item - Routes.rd_quantity d))
                       (Some (reserved item + Routes.rd_quantity d))
                       None None in
  let e := mkEvent "inventory.reserved" (newId env) (Routes.rd_orderId d)
                   (Routes.rd_productId d) (Routes.rd_quantity d) in
  Routes.reserveHandler env d w
  = (mkWorld (fst (InventoryRepository.updateById (inv_id item) u (inventory w)))
             (reservations w ++ [r])
             (fst (EventBus.publish (channel env) e (sent w))),
     Routes.RS_Finished
       match snd (EventBus.publish (channel env) e (sent w)) with
       | Some msg => Throw msg
       | None => Reply 201 (ReservationBody r)
       end).
Proof.
  intros Hitem Hq H1 Hfresh r u e.
  unfold Routes.reserveHandler, Nat.iter. cbn [nat_rect].
  unfold Routes.reserveSteps at 4. cbn [fst snd Routes.reserveStep].
  rewrite Hitem.
  replace (available item <? Routes.rd_quantity d) with false
    by (symmetry; apply Z.ltb_ge; exact Hq).
  unfold Routes.reserveSteps at 3. cbn [fst snd Routes.reserveStep].
  unfold ReservationRepository.create. cbn [quantity res_id].
  replace (Routes.rd_quantity d <? 1) with false
    by (symmetry; apply Z.ltb_ge; exact H1).
  rewrite Hfresh.
  unfold Routes.reserveSteps at 2. cbn [fst snd Routes.reserveStep].
  unfold Routes.reserveSteps. cbn [fst snd Routes.reserveStep].
  cbn [set_inventory set_reservations inventory reservations sent res_id].
  fold r u e.
  destruct (EventBus.publish (channel env) e (sent w)) as [log [msg|]];
    reflexivity.
Qed.

(** The write of POST /reserve on the ledger. *)
Lemma ledger_reserved (l : list InventoryDocument) (item : InventoryDocument)
      (p : string) (u : InventoryUpdate) :
  NoDup (map inv_id l) ->
  InventoryRepository.findByProductId p l = Some item ->
  InventoryRepository.findByProductId
    p (fst (InventoryRepository.updateById (inv_id item) u l))
  = Some (applyInventoryUpdate u item).
Proof.
  intros Hnd Hitem.
  unfold InventoryRepository.updateById, InventoryRepository.hasId.
  rewrite (update_by_key inv_id (inv_id item) (applyInventoryUpdate u) l Hnd).
  unfold InventoryRepository.findByProductId in *.
  rewrite findOne_map by (intros x; destruct (Db.keyed inv_id (inv_id item) x);
                          reflexivity).
  rewrite Hitem. simpl. unfold Db.keyed. now rewrite String.eqb_refl.
Qed.

(** The same write undone by the [$inc] of [inventoryRepository.release],
    as the sweeper and the cancellation do it. *)
Lemma ledger_round_trip_inc (l : list InventoryDocument)
      (item : InventoryDocument) (p : string) (q : Z) :
  NoDup (map inv_id l) ->
  InventoryRepository.findByProductId p l = Some item ->
  fst (InventoryRepository.release
         p q
         (fst (InventoryRepository.updateById
                 (inv_id item)
                 (mkInvUpdate (Some (available item - q))
                              (Some (reserved item + q)) None None) l)))
  = l.
Proof.
  intros Hnd Hitem.
  set (u1 := mkInvUpdate (Some (available item - q))
                         (Some (reserved item + q)) None None).
  unfold InventoryRepository.updateById, InventoryRepository.hasId.
  rewrite (update_by_key inv_id (inv_id item) (applyInventoryUpdate u1) l Hnd).
  unfold InventoryRepository.release, InventoryRepository.findByProductId in *.
  assert (Hback : InventoryRepository.inc q (- q) 0
                                          (applyInventoryUpdate u1 item)
                  = item).
  { destruct item as [i pr sk a r t ro].
    unfold u1, InventoryRepository.inc, applyInventoryUpdate, orElse.
    cbn [u_available u_reserved u_total u_reorderLevel inv_id productId sku
         available reserved total reorderLevel].
    f_equal; lia. }
  clearbody u1.
  induction l as [|x l IH]; [discriminate|].
  cbn [map Db.findOne] in *.
  inversion Hnd as [|? ? Hx Hl]; subst.
  destruct (InventoryRepository.hasProductId p x) eqn:E.
  - injection Hitem as ->.
    assert (Hk : Db.keyed inv_id (inv_id item) item = true)
      by apply String.eqb_refl.
    rewrite Hk. cbn [Db.findOneAndUpdate].
    assert (E' : InventoryRepository.hasProductId
                   p (applyInventoryUpdate u1 item) = true) by exact E.
    rewrite E'. cbn [fst]. rewrite Hback. f_equal.
    erewrite map_ext_in; [apply map_id|].
    intros d Hd. cbn beta.
    destruct (Db.keyed inv_id (inv_id item) d) eqn:Ed; [|reflexivity].
    exfalso. apply Hx. apply String.eqb_eq in Ed. rewrite <- Ed.
    now apply in_map.
  - destruct (Db.keyed inv_id (inv_id item) x) eqn:Ex.
    + exfalso. apply Hx. apply String.eqb_eq in Ex. rewrite Ex.
      apply in_map. apply findOne_In in Hitem. exact (proj1 Hitem).
    + cbn [Db.findOneAndUpdate]. rewrite E.
      destruct (Db.findOneAndUpdate _ _ (map _ l)) as [l' r] eqn:El.
      cbn [fst] in *. f_equal. now apply IH.
Qed.

(** ** Reserve and release *)

(** C6.  Reserve, then POST /release/:reservationId for the reservation
    made: from the ledger [(100, 0, 100)] the reserve of 10 is answered 201
    and gives [(90, 10, 100)]; the release request ends in the exception
    of [validateParams] before its handler runs, the reservation stays
    pending and the ledger stays [(90, 10, 100)]. *)
Theorem reserve_then_release_route_not_restored :
  counters Scenario.ledger100 = [(100, 0, 100)]
  /\ snd Scenario.reserveA
     = Some (Reply 201 (ReservationBody
                          (mkReservation Scenario.resA Scenario.orderA
                                         Scenario.product 10 pending 1801000)))
  /\ counters (fst Scenario.reserveA) = [(90, 10, 100)]
  /\ snd Scenario.releaseRequested
     = Throw "TypeError: schema.parse is not a function"
  /\ map (fun r => (res_id r, status r))
         (reservations (fst Scenario.releaseRequested))
     = [(Scenario.resA, pending)]
  /\ counters (fst Scenario.releaseRequested) = [(90, 10, 100)].
Proof. vm_compute. repeat split; reflexivity. Qed.

(** ** Publish failures *)

(** C7, as the code has it.  When the bus cannot publish
    [inventory.reserved], POST /reserve ends with the bus's exception, and
    the two writes made before the publish stay: the pending reservation is
    stored and the entry has [available - quantity] and
    [reserved + quantity]. *)
Theorem reserve_publish_failure_keeps_writes
        (env : Env) (b : Routes.ReserveBody) (d : Routes.ReserveData)
        (w : World) (item : InventoryDocument) :
  uniqueIds w ->
  Routes.reserveInventorySchema b = Some d ->
  InventoryRepository.findByProductId (Routes.rb_productId b) (inventory w)
  = Some item ->
  Routes.rb_quantity b <= available item ->
  existsb (ReservationRepository.hasId (newId env)) (reservations w) = false ->
  channel env <> Some true ->
  exists w1 msg r,
    Routes.reserveRoute env b w = (w1, Some (Throw msg))
    /\ reservations w1 = reservations w ++ [r]
    /\ res_id r = newId env
    /\ status r = pending
    /\ quantity r = Routes.rb_quantity b
    /\ InventoryRepository.findByProductId (Routes.rb_productId b) (inventory w1)
       = Some (mkInventory (inv_id item) (productId item) (sku item)
                           (available item - Routes.rb_quantity b)
                           (reserved item + Routes.rb_quantity b)
                           (total item) (reorderLevel item)).
Proof.
  intros [Hnd _] Hschema Hitem Hq Hfresh Hch.
  destruct (reserveInventorySchema_ok b Hschema) as (Ho & Hp & Hqd & H1 & _).
  rewrite <- Hp in Hitem. rewrite <- Hqd in Hq.
  pose proof (reserveHandler_writes env d w Hitem Hq H1 Hfresh) as Hrun.
  cbv zeta in Hrun.
  pose proof (ledger_reserved
                (inventory w) (Routes.rd_productId d)
                (mkInvUpdate (Some (available item - Routes.rd_quantity d))
                             (Some (reserved item + Routes.rd_quantity d))
                             None None) Hnd Hitem) as Hfound.
  unfold Routes.reserveRoute. rewrite Hschema, Hrun. rewrite <- Hp, <- Hqd.
  destruct (channel env) as [[|]|]; [congruence| |];
    cbn [EventBus.publish fst snd Routes.outcomeOf];
    eexists _, _, _; (split; [reflexivity|]);
    cbn [reservations inventory res_id status quantity];
    repeat split; exact Hfound.
Qed.

Lemma reserve_publish_failure_keeps_writes_witness :
  exists w1 msg r,
    Routes.reserveRoute
      (mkEnv 1000 Scenario.resA (Some false))
      (Routes.mkReserveBody Scenario.orderA Scenario.product 10 (Some 1800))
      Scenario.ledger100
    = (w1, Some (Throw msg))
    /\ reservations w1 = reservations Scenario.ledger100 ++ [r]
    /\ res_id r = Scenario.resA
    /\ status r = pending
    /\ quantity r = 10
    /\ InventoryRepository.findByProductId Scenario.product (inventory w1)
       = Some (mkInventory Scenario.entryId Scenario.product "SKU-1" (100 - 10) (0 + 10) 100 10).
Proof.
  apply (@reserve_publish_failure_keeps_writes
           (mkEnv 1000 Scenario.resA (Some false))
           (Routes.mkReserveBody Scenario.orderA Scenario.product 10 (Some 1800))
           (Routes.mkReserveData Scenario.orderA Scenario.product 10 1800)
           Scenario.ledger100
           (mkInventory Scenario.entryId Scenario.product "SKU-1" 100 0 100 10)).
  - split; simpl; repeat constructor. intros [].
  - reflexivity.
  - reflexivity.
  - simpl. lia.
  - reflexivity.
  - simpl. discriminate.
Defined.

(** C7, as stated, fails: with [channel.publish] returning [false] the
    request ends with the exception, yet the ledger went from
    [(100, 0, 100)] to [(90, 10, 100)] and a pending reservation is
    stored. *)
Lemma reserve_publish_failure_changes_state :
  snd Scenario.reserveUnpublished
  = Some (Throw "Failed to publish message to RabbitMQ")
  /\ counters Scenario.ledger100 = [(100, 0, 100)]
  /\ reservations Scenario.ledger100 = []
  /\ counters (fst Scenario.reserveUnpublished) = [(90, 10, 100)]
  /\ map (fun r => (res_id r, status r))
         (reservations (fst Scenario.reserveUnpublished))
     = [(Scenario.resA, pending)]
  /\ inventory (fst Scenario.reserveUnpublished) <> inventory Scenario.ledger100
  /\ reservations (fst Scenario.reserveUnpublished)
     <> reservations Scenario.ledger100.
Proof. vm_compute. repeat split; try reflexivity; discriminate. Qed.

(** ** Acknowledgements *)

Lemma existsb_filter_out (A : Type) (f : A -> bool) (l : list A) :
  existsb f (filter (fun n => negb (f n)) l) = false.
Proof.
  induction l as [|x l IH]; simpl; [reflexivity|].
  destruct (f x) eqn:E; simpl; [exact IH|]. now rewrite E.
Qed.

(** C8.  For a message delivered to the handler (its content parses to an
    event): when the handler resolves the callback acknowledges the
    message, when the handler rejects the callback negative-acknowledges
    it alone and without requeue; either way the queue no longer holds the
    message, neither to deliver nor as delivered. *)
Theorem consume_acks_or_drops
        (Event : Type) (parse : string -> option Event)
        (handler : Event -> Subscribe.HandlerResult)
        (m : Subscribe.ConsumeMessage) (event : Event) (q : Subscribe.Queue) :
  parse (Subscribe.content m) = Some event ->
  existsb (Subscribe.sameTag m) (Subscribe.ready q) = false ->
  (handler event = Subscribe.Resolved ->
   Subscribe.consumeCallback parse handler (Some m) = [Subscribe.Ack m])
  /\ (forall error, handler event = Subscribe.Rejected error ->
      Subscribe.consumeCallback parse handler (Some m)
      = [Subscribe.Nack m false false])
  /\ Subscribe.holds
       (Subscribe.settleAll q (Subscribe.consumeCallback parse handler (Some m)))
       m = false.
Proof.
  intros Hparse Hready. unfold Subscribe.consumeCallback. rewrite Hparse.
  split; [|split].
  - intros ->. reflexivity.
  - intros error ->. reflexivity.
  - destruct (handler event); unfold Subscribe.holds; simpl;
      rewrite Hready; simpl; apply existsb_filter_out.
Qed.

Lemma consume_acks_or_drops_witness :
  let m := Subscribe.mkMessage 7 "{}" in
  let q := Subscribe.mkQueue [Subscribe.mkMessage 8 "{}"] [m] in
  let parse := fun s : string => Some s in
  let handler := fun s : string =>
                   if String.eqb s "{}" then Subscribe.Rejected "boom"
                   else Subscribe.Resolved in
  (handler "{}" = Subscribe.Resolved ->
   Subscribe.consumeCallback parse handler (Some m) = [Subscribe.Ack m])
  /\ (forall error, handler "{}" = Subscribe.Rejected error ->
      Subscribe.consumeCallback parse handler (Some m)
      = [Subscribe.Nack m false false])
  /\ Subscribe.holds
       (Subscribe.settleAll q (Subscribe.consumeCallback parse handler (Some m)))
       m = false.
Proof.
  intros m q parse handler.
  apply (@consume_acks_or_drops string parse handler m "{}" q).
  - reflexivity.
  - reflexivity.
Defined.

(** ** Fan-out *)

(** On a topic exchange the binding key [*] stands for one word: it routes
    no [<domain>.<action>] topic, while [#] routes them all. *)
Lemma star_binding_is_one_word :
  Topic.routedTo "*" "order.created" = false
  /\ Topic.routedTo "*" "inventory.reserved" = false
  /\ Topic.routedTo "#" "order.created" = true
  /\ Topic.routedTo "order.*" "order.created" = true.
Proof. vm_compute. repeat split; reflexivity. Qed.

(** C9.  [broadcastToSubscribers] asks [Set.has] for the topic itself or
    for ["*"]; a pattern with a [*] segment is never matched.  The client
    of GET /sse/orders/u-1 opened by an administrator holds the
    subscription [order.*], which matches [order.created]; when that event
    arrives for user [u-1] nothing is written to the client. *)
Theorem sse_pattern_subscription_not_served :
  exists m c,
    Scenario.watching = Some m
    /\ SSE.mapGet "orders-u-1-5000" (SSE.clients m) = Some c
    /\ SSE.subscriptions c = ["order.*"]
    /\ Topic.specInterested c "order.created" = true
    /\ SSE.clients (SSE.onEvent Scenario.allOpen Scenario.orderCreated m)
       = SSE.clients m
    /\ SSE.written (SSE.onEvent Scenario.allOpen Scenario.orderCreated m)
       = SSE.written m.
Proof.
  eexists _, _. split; [reflexivity|].
  vm_compute. repeat split; reflexivity.
Qed.

(** ** Liveness of SSE clients *)

Lemma pingKept_refl (k : string) (m : SSE.Manager) : SSE.pingKept k m m.
Proof. intros c' H. exists c'. auto. Qed.

Lemma pingKept_trans (k : string) (m1 m2 m3 : SSE.Manager) :
  SSE.pingKept k m1 m2 -> SSE.pingKept k m2 m3 -> SSE.pingKept k m1 m3.
Proof.
  intros H12 H23 c3 H3. destruct (H23 c3 H3) as (c2 & H2 & E2).
  destruct (H12 c2 H2) as (c1 & H1 & E1). exists c1. split; congruence.
Qed.

Lemma mapGet_delete (k k' : string) (l : list (string * SSE.SSEClient)) :
  SSE.mapGet k (SSE.mapDelete k' l)
  = if String.eqb k k' then None else SSE.mapGet k l.
Proof.
  unfold SSE.mapDelete.
  induction l as [|e l IH]; simpl.
  - now destruct (String.eqb k k').
  - unfold SSE.keyIs at 1. destruct (String.eqb (fst e) k') eqn:E; simpl.
    + rewrite IH. unfold SSE.keyIs. apply String.eqb_eq in E.
      destruct (String.eqb k k') eqn:Ek; [reflexivity|].
      rewrite E. rewrite String.eqb_sym. now rewrite Ek.
    + unfold SSE.keyIs. destruct (String.eqb (fst e) k) eqn:Ee.
      * apply String.eqb_eq in Ee. subst k. now rewrite E.
      * exact IH.
Qed.

Lemma mapGet_removeClient (k k' : string) (m : SSE.Manager) :
  SSE.mapGet k (SSE.clients (SSE.removeClient k' m))
  = if String.eqb k k' then None else SSE.mapGet k (SSE.clients m).
Proof.
  unfold SSE.removeClient.
  destruct (SSE.mapGet k' (SSE.clients m)) eqn:E; simpl.
  - apply mapGet_delete.
  - destruct (String.eqb k k') eqn:Ek; [|reflexivity].
    apply String.eqb_eq in Ek. now subst k.
Qed.

Lemma mapGet_set (k k' : string) (c : SSE.SSEClient)
      (l : list (string * SSE.SSEClient)) :
  SSE.mapGet k (SSE.mapSet k' c l)
  = if String.eqb k' k then Some c else SSE.mapGet k l.
Proof.
  induction l as [|e l IH]; simpl.
  - unfold SSE.keyIs. simpl. reflexivity.
  - unfold SSE.keyIs at 1. destruct (String.eqb (fst e) k') eqn:E; simpl.
    + unfold SSE.keyIs. simpl. apply String.eqb_eq in E. rewrite E.
      now destruct (String.eqb k' k).
    + unfold SSE.keyIs. destruct (String.eqb (fst e) k) eqn:Ee.
      * apply String.eqb_eq in Ee. subst k.
        rewrite String.eqb_sym. now rewrite E.
      * exact IH.
Qed.

Lemma mapGet_In (k : string) (c : SSE.SSEClient)
      (l : list (string * SSE.SSEClient)) :
  SSE.mapGet k l = Some c -> In (k, c) l.
Proof.
  induction l as [|[k0 c0] l IH]; simpl; [discriminate|].
  unfold SSE.keyIs. simpl. destruct (String.eqb k0 k) eqn:E.
  - apply String.eqb_eq in E. intros [= ->]. left. now subst.
  - intros H. right. now apply IH.
Qed.

Lemma pingKept_removeClient (k k' : string) (m : SSE.Manager) :
  SSE.pingKept k m (SSE.removeClient k' m).
Proof.
  intros c'. rewrite mapGet_removeClient.
  destruct (String.eqb k k'); [discriminate|]. intros H. exists c'. auto.
Qed.

Lemma pingKept_sendToClient (io : SSE.Sockets) (k k' : string)
      (msg : SSE.SSEMessage) (m : SSE.Manager) :
  SSE.pingKept k m (SSE.sendToClient io k' msg m).
Proof.
  unfold SSE.sendToClient.
  destruct (SSE.mapGet k' (SSE.clients m)); [|apply pingKept_refl].
  destruct (io k'); [|apply pingKept_removeClient].
  intros c' H. exists c'. auto.
Qed.

Lemma pingKept_sendToUserLoop (io : SSE.Sockets) (k u : string)
      (msg : SSE.SSEMessage) (es : list (string * SSE.SSEClient))
      (m : SSE.Manager) :
  SSE.pingKept k m (SSE.sendToUserLoop io u msg es m).
Proof.
  revert m. induction es as [|[k0 c0] es IH]; intros m; simpl.
  - apply pingKept_refl.
  - destruct (String.eqb (SSE.userId c0) u); [|apply IH].
    eapply pingKept_trans; [apply pingKept_sendToClient|apply IH].
Qed.

Lemma pingKept_broadcastLoop (io : SSE.Sockets) (k t : string)
      (msg : SSE.SSEMessage) (es : list (string * SSE.SSEClient))
      (m : SSE.Manager) :
  SSE.pingKept k m (SSE.broadcastLoop io t msg es m).
Proof.
  revert m. induction es as [|[k0 c0] es IH]; intros m; simpl.
  - apply pingKept_refl.
  - destruct (_ || _); [|apply IH].
    eapply pingKept_trans; [apply pingKept_sendToClient|apply IH].
Qed.

Lemma pingKept_pingLoop (io : SSE.Sockets) (k : string) (now : Z) (ts : string)
      (es : list (string * SSE.SSEClient)) (m : SSE.Manager) :
  SSE.pingKept k m (SSE.pingLoop io now ts es m).
Proof.
  revert m. induction es as [|[k0 c0] es IH]; intros m; simpl.
  - apply pingKept_refl.
  - destruct (_ <? _).
    + eapply pingKept_trans; [apply pingKept_removeClient|apply IH].
    + eapply pingKept_trans; [apply pingKept_sendToClient|apply IH].
Qed.

Lemma pingKept_updateSubscriptions (k k' : string)
      (f : list string -> list string) (l : list (string * SSE.SSEClient))
      (log log' : list (string * string)) :
  SSE.pingKept k (SSE.mkManager l log)
               (SSE.mkManager (SSE.updateSubscriptions k' f l) log').
Proof.
  intros c'. simpl. induction l as [|e l IH]; simpl; [discriminate|].
  destruct (SSE.keyIs k' e) eqn:E; simpl.
  - unfold SSE.keyIs at 1. simpl. destruct (SSE.keyIs k e) eqn:Ek.
    + unfold SSE.keyIs in Ek. rewrite Ek. intros [= <-].
      eexists. split; reflexivity.
    + unfold SSE.keyIs in Ek. rewrite Ek. intros H. exists c'. auto.
  - destruct (SSE.keyIs k e).
    + intros [= <-]. eexists. split; reflexivity.
    + exact IH.
Qed.

(** No operation on the manager, short of creating the client anew, gives
    a client another [lastPing]. *)
Lemma pingKept_apply (io : SSE.Sockets) (k : string) (op : SSE.Op)
      (m : SSE.Manager) :
  SSE.creates k op = false -> SSE.pingKept k m (SSE.apply io op m).
Proof.
  destruct op; simpl; intros Hc.
  - eapply pingKept_trans; [|apply pingKept_sendToClient].
    intros c'. simpl. rewrite mapGet_set, Hc. intros H. exists c'. auto.
  - apply pingKept_removeClient.
  - apply pingKept_sendToClient.
  - apply pingKept_sendToUserLoop.
  - apply pingKept_broadcastLoop.
  - destruct m. apply pingKept_updateSubscriptions.
  - destruct m. apply pingKept_updateSubscriptions.
  - apply pingKept_pingLoop.
  - unfold SSE.onEvent.
    assert (H1 : SSE.pingKept k m
                   (SSE.broadcastToSubscribers io (SSE.ge_type event)
                      (SSE.mkMessage (Some (SSE.ge_id event))
                                     (Some (SSE.ge_type event))
                                     (SSE.ge_data event)) m))
      by apply pingKept_broadcastLoop.
    destruct (SSE.ge_userId event) as [u|]; [|exact H1].
    destruct (String.prefix "user." (SSE.ge_type event));
      destruct (String.prefix "order." (SSE.ge_type event));
      repeat (eapply pingKept_trans; [|apply pingKept_sendToUserLoop]);
      exact H1.
Qed.

Lemma pingKept_run (k : string) (ops : list (SSE.Sockets * SSE.Op))
      (m : SSE.Manager) :
  forallb (fun o => negb (SSE.creates k (snd o))) ops = true ->
  SSE.pingKept k m (SSE.run ops m).
Proof.
  revert m. induction ops as [|[io op] ops IH]; intros m; simpl.
  - intros _. apply pingKept_refl.
  - intros H. apply andb_true_iff in H. destruct H as [H1 H2].
    apply negb_true_iff in H1.
    eapply pingKept_trans; [apply pingKept_apply; exact H1|apply IH; exact H2].
Qed.

(** A stale entry met by [pingClients] is gone when the loop ends. *)
Lemma pingLoop_removes (io : SSE.Sockets) (k : string) (c : SSE.SSEClient)
      (now : Z) (ts : string) (es : list (string * SSE.SSEClient))
      (m : SSE.Manager) :
  In (k, c) es ->
  SSE.staleThreshold < now - SSE.lastPing c ->
  SSE.mapGet k (SSE.clients (SSE.pingLoop io now ts es m)) = None.
Proof.
  intros Hin Hstale. revert m.
  induction es as [|[k0 c0] es IH]; intros m; simpl; [destruct Hin|].
  destruct Hin as [[= -> ->]|Hin].
  - replace (SSE.staleThreshold <? now - SSE.lastPing c) with true
      by (symmetry; apply Z.ltb_lt; exact Hstale).
    destruct (SSE.mapGet k (SSE.clients
                              (SSE.pingLoop io now ts es (SSE.removeClient k m))))
      as [c'|] eqn:E; [|reflexivity].
    destruct (pingKept_pingLoop io k now ts es (SSE.removeClient k m) E)
      as (c1 & H1 & _).
    rewrite mapGet_removeClient, String.eqb_refl in H1. discriminate.
  - destruct (_ <? _); apply IH; exact Hin.
Qed.

(** Both SSE routes create the client with [lastPing] at the time of the
    connection. *)
Lemma connect_sets_lastPing (io : SSE.Sockets) (user : SSE.JWTPayload)
      (param : string) (now : Z) (nowText ts : string) (m m' : SSE.Manager)
      (c : SSE.SSEClient) :
  (SSE.mapGet (SSE.jwt_userId user ++ "-" ++ nowText)%string
              (SSE.clients (SSE.connectNotifications io user now nowText ts m))
   = Some c -> SSE.lastPing c = now)
  /\ (SSE.connectOrders io user param now nowText ts m = Some m' ->
      SSE.mapGet ("orders-" ++ param ++ "-" ++ nowText)%string (SSE.clients m')
      = Some c -> SSE.lastPing c = now).
Proof.
  split.
  - unfold SSE.connectNotifications, SSE.addClient. intros H.
    apply pingKept_sendToClient in H. destruct H as (c0 & H0 & ->).
    simpl in H0. rewrite mapGet_set, String.eqb_refl in H0.
    now inversion H0.
  - unfold SSE.connectOrders, SSE.addClient.
    destruct (_ && _); [discriminate|]. intros [= <-] H.
    apply pingKept_sendToClient in H. destruct H as (c0 & H0 & ->).
    simpl in H0. rewrite mapGet_set, String.eqb_refl in H0.
    now inversion H0.
Qed.

(** C10.  A client connected at [t0] keeps [lastPing = t0] through every
    later operation of the manager (events, messages, subscriptions, pings)
    for as long as it is a client; and the run of [pingClients] that falls
    between 60 and 90 seconds after [t0] ends without it, whatever happened
    in between. *)
Theorem sse_client_evicted_within_90s
        (built t0 : Z) (m : SSE.Manager) (clientId : string)
        (c : SSE.SSEClient) (ops : list (SSE.Sockets * SSE.Op))
        (io : SSE.Sockets) (ts : string) :
  built <= t0 ->
  SSE.mapGet clientId (SSE.clients m) = Some c ->
  SSE.lastPing c = t0 ->
  forallb (fun o => negb (SSE.creates clientId (snd o))) ops = true ->
  (forall c', SSE.mapGet clientId (SSE.clients (SSE.run ops m)) = Some c' ->
              SSE.lastPing c' = t0)
  /\ exists k,
      1 <= k
      /\ t0 + 60000 < SSE.tick built k <= t0 + 90000
      /\ SSE.mapGet clientId
           (SSE.clients (SSE.pingClients io (SSE.tick built k) ts
                                         (SSE.run ops m)))
         = None.
Proof.
  intros Hbuilt Hc Ht0 Hops.
  assert (Hkept : forall c', SSE.mapGet clientId (SSE.clients (SSE.run ops m))
                             = Some c' -> SSE.lastPing c' = t0).
  { intros c' H'. destruct (pingKept_run clientId ops m Hops H')
      as (c0 & H0 & E0). congruence. }
  split; [exact Hkept|].
  exists ((t0 + 60000 - built) / 30000 + 1).
  assert (Hdiv : 30000 * ((t0 + 60000 - built) / 30000) <= t0 + 60000 - built
                 /\ t0 + 60000 - built
                    < 30000 * ((t0 + 60000 - built) / 30000) + 30000).
  { pose proof (Z.div_mod (t0 + 60000 - built) 30000 ltac:(lia)) as Hdm.
    pose proof (Z.mod_pos_bound (t0 + 60000 - built) 30000 ltac:(lia)) as Hmb.
    lia. }
  assert (Hk : 0 <= (t0 + 60000 - built) / 30000)
    by (apply Z.div_pos; lia).
  unfold SSE.tick, SSE.pingPeriod.
  split; [lia|]. split; [lia|].
  unfold SSE.pingClients.
  destruct (SSE.mapGet clientId (SSE.clients (SSE.run ops m))) as [c'|] eqn:E.
  - apply pingLoop_removes with (c := c').
    + now apply mapGet_In.
    + rewrite (Hkept c' eq_refl). unfold SSE.staleThreshold. lia.
  - match goal with
    | |- ?g = None => destruct g as [c'|] eqn:E'; [|reflexivity]
    end.
    destruct (pingKept_pingLoop io clientId _ ts _ (SSE.run ops m) E')
      as (c0 & H0 & _).
    congruence.
Qed.

Lemma sse_client_evicted_within_90s_witness :
  (forall c', SSE.mapGet "orders-u-1-5000"
                         (SSE.clients (SSE.run Scenario.firstMinute
                                               Scenario.watched))
              = Some c' -> SSE.lastPing c' = 5000)
  /\ exists k,
      1 <= k
      /\ 5000 + 60000 < SSE.tick 0 k <= 5000 + 90000
      /\ SSE.mapGet "orders-u-1-5000"
           (SSE.clients (SSE.pingClients Scenario.allOpen (SSE.tick 0 k) "tick"
                                         (SSE.run Scenario.firstMinute
                                                  Scenario.watched)))
         = None.
Proof.
  apply (@sse_client_evicted_within_90s
           0 5000 Scenario.watched "orders-u-1-5000" Scenario.watcher
           Scenario.firstMinute Scenario.allOpen "tick").
  - lia.
  - reflexivity.
  - reflexivity.
  - reflexivity.
Defined.

(** ** What the operations keep of the ledger invariant *)

Lemma update_keeps (T : Type) (P : T -> Prop) (f : T -> bool) (u : T -> T)
      (l : list T) :
  Forall P l -> (forall d, In d l -> P d -> P (u d)) ->
  Forall P (fst (Db.findOneAndUpdate f u l)).
Proof.
  induction l as [|x l IH]; simpl; intros Hl Hu; [constructor|].
  inversion Hl as [|? ? Hx Hl']; subst.
  destruct (f x); simpl.
  - constructor; [apply Hu; auto|exact Hl'].
  - destruct (Db.findOneAndUpdate f u l) as [l' r] eqn:E. simpl in *.
    constructor; [exact Hx|]. apply IH; [exact Hl'|].
    intros d Hd. apply Hu. now right.
Qed.

Lemma update_found_keeps (T : Type) (P : T -> Prop) (f : T -> bool)
      (u : T -> T) (l : list T) (d : T) :
  Db.findOne f l = Some d -> Forall P l -> P (u d) ->
  Forall P (fst (Db.findOneAndUpdate f u l)).
Proof.
  induction l as [|x l IH]; simpl; [discriminate|].
  intros Hf Hl Hu. inversion Hl as [|? ? Hx Hl']; subst.
  destruct (f x); simpl.
  - injection Hf as ->. constructor; assumption.
  - destruct (Db.findOneAndUpdate f u l) as [l' r] eqn:E. simpl in *.
    constructor; [exact Hx|]. now apply IH.
Qed.

(** The four [$inc] updates of the repository keep
    [available + reserved = total]. *)
Lemma balance_kept_by_repository (p : string) (q : Z)
      (l : list InventoryDocument) :
  Forall balanced l ->
  Forall balanced (fst (InventoryRepository.adjustStock p q l))
  /\ Forall balanced (fst (InventoryRepository.reserve p q l))
  /\ Forall balanced (fst (InventoryRepository.release p q l))
  /\ Forall balanced (fst (InventoryRepository.confirm p q l)).
Proof.
  intros Hl.
  repeat split; apply update_keeps; try exact Hl;
    intros d _; unfold balanced; simpl; lia.
Qed.

(** A write of counters computed from a document read earlier, as the
    routes do it, keeps the sum when the store has unique ids and the
    counters written add up. *)
Lemma snapshot_update_keeps_balance (l : list InventoryDocument)
      (item : InventoryDocument) (u : InventoryUpdate) :
  NoDup (map inv_id l) -> In item l -> Forall balanced l ->
  balanced (applyInventoryUpdate u item) ->
  Forall balanced (fst (InventoryRepository.updateById (inv_id item) u l)).
Proof.
  intros Hnd Hin Hl Hu.
  apply update_found_keeps with (d := item); auto.
  apply (findOne_by_key inv_id l item Hnd Hin).
Qed.

Lemma balance_kept_by_create (env : Env) (b : Routes.CreateInventoryBody)
      (w : World) :
  Forall balanced (inventory w) ->
  Forall balanced (inventory (fst (Routes.createInventoryRoute env b w))).
Proof.
  intros Hl. unfold Routes.createInventoryRoute, Routes.createInventoryHandler.
  destruct (Routes.createInventorySchema b); [|exact Hl].
  destruct (InventoryRepository.findByProductId _ _); [exact Hl|].
  destruct (InventoryRepository.create _ _) as [e|docs] eqn:E; [exact Hl|].
  simpl. unfold InventoryRepository.create in E.
  repeat match type of E with
         | (if ?c then _ else _) = _ => destruct c; [discriminate|]
         end.
  injection E as <-. apply Forall_app. split; [exact Hl|].
  constructor; [|constructor]. unfold balanced. simpl. lia.
Qed.

Lemma balance_kept_by_reserve (env : Env) (b : Routes.ReserveBody) (w : World) :
  NoDup (map inv_id (inventory w)) ->
  Forall balanced (inventory w) ->
  Forall balanced (inventory (fst (Routes.reserveRoute env b w))).
Proof.
  intros Hnd Hl. unfold Routes.reserveRoute.
  destruct (Routes.reserveInventorySchema b) as [d|]; [|exact Hl].
  unfold Routes.reserveHandler, Nat.iter. cbn [nat_rect].
  unfold Routes.reserveSteps at 4. cbn [fst snd Routes.reserveStep].
  destruct (InventoryRepository.findByProductId _ _) as [item|] eqn:E;
    [|exact Hl].
  destruct (available item <? Routes.rd_quantity d); [exact Hl|].
  unfold Routes.reserveSteps at 3. cbn [fst snd Routes.reserveStep].
  destruct (ReservationRepository.create _ _) as [e|docs]; [exact Hl|].
  unfold Routes.reserveSteps at 2. cbn [fst snd Routes.reserveStep].
  unfold Routes.reserveSteps. cbn [fst snd Routes.reserveStep].
  cbn [set_inventory set_reservations inventory reservations sent].
  apply findOne_In in E. destruct E as [Hin _].
  assert (Hupd : Forall balanced
                   (fst (InventoryRepository.updateById
                           (inv_id item)
                           (mkInvUpdate
                              (Some (available item - Routes.rd_quantity d))
                              (Some (reserved item + Routes.rd_quantity d))
                              None None) (inventory w)))).
  { apply snapshot_update_keeps_balance; auto.
    rewrite Forall_forall in Hl. specialize (Hl item Hin).
    unfold balanced in *. simpl. lia. }
  destruct (EventBus.publish _ _ _) as [log [msg|]]; exact Hupd.
Qed.

Lemma balance_kept_by_releaseOne (r : ReservationDocument) (w : World) :
  Forall balanced (inventory w) ->
  Forall balanced (inventory (Consumers.releaseOne r w)).
Proof.
  intros Hl. unfold Consumers.releaseOne. simpl.
  apply (balance_kept_by_repository (res_productId r) (quantity r) Hl).
Qed.

(** The event handlers and the sweeper keep the sum as well. *)
Lemma balance_kept_by_consumers (env : Env) (e : Consumers.ProductCreatedEvent)
      (order currentStatus : string) (now : Z) (w : World) :
  Forall balanced (inventory w) ->
  Forall balanced (inventory (Consumers.onProductCreated env e w))
  /\ inventory (Consumers.onOrderCreated order w) = inventory w
  /\ Forall balanced (inventory (Consumers.onOrderUpdated order currentStatus w))
  /\ Forall balanced (inventory (Consumers.sweeperTick now w)).
Proof.
  intros Hl. split; [|split; [|split]].
  - unfold Consumers.onProductCreated.
    destruct (InventoryRepository.create _ _) as [err|docs] eqn:E; [exact Hl|].
    simpl. unfold InventoryRepository.create in E.
    repeat match type of E with
           | (if ?c then _ else _) = _ => destruct c; [discriminate|]
           end.
    injection E as <-. apply Forall_app. split; [exact Hl|].
    constructor; [|constructor]. unfold balanced. simpl. lia.
  - unfold Consumers.onOrderCreated.
    generalize (ReservationRepository.findByOrderId order (reservations w)).
    intros found. clear Hl. revert w.
    induction found as [|r found IH]; intros w; simpl; [reflexivity|].
    destruct (status_eqb (status r) pending); rewrite IH; reflexivity.
  - unfold Consumers.onOrderUpdated.
    destruct (String.eqb currentStatus "cancelled"); [|exact Hl].
    generalize (ReservationRepository.findByOrderId order (reservations w)).
    intros found. revert w Hl.
    induction found as [|r found IH]; intros w Hl; simpl; [exact Hl|].
    destruct (_ || _); apply IH; [apply balance_kept_by_releaseOne|];
      exact Hl.
  - unfold Consumers.sweeperTick.
    generalize (ReservationRepository.findExpired now (reservations w)).
    intros found. revert w Hl.
    induction found as [|r found IH]; intros w Hl; simpl; [exact Hl|].
    apply IH. apply balance_kept_by_releaseOne. exact Hl.
Qed.

(** ** Unique ids are kept *)

Lemma unique_after_create (T : Type) (key : T -> string) (l : list T) (d : T) :
  NoDup (map key l) -> existsb (Db.keyed key (key d)) l = false ->
  NoDup (map key (l ++ [d])).
Proof.
  intros Hnd Hex. rewrite map_app. simpl.
  induction l as [|x l IH]; simpl in *.
  - constructor; [intros []|constructor].
  - inversion Hnd as [|? ? Hx Hl]; subst.
    apply orb_false_iff in Hex. destruct Hex as [Hxd Hex].
    constructor; [|now apply IH].
    rewrite in_app_iff. intros [Hin|[Heq|[]]]; [now apply Hx|].
    unfold Db.keyed in Hxd. rewrite <- Heq, String.eqb_refl in Hxd.
    discriminate.
Qed.

(** ** A replayed cancellation *)

(** What the cancellation loop leaves in the reservation collection: the
    documents whose id was met with a pending or confirmed status are
    released, the others are as before. *)
Lemma cancelLoop_reservations (found : list ReservationDocument) (w : World) :
  NoDup (map res_id (reservations w)) ->
  reservations (Consumers.cancelLoop found w)
  = map (fun x =>
           if existsb (fun r => (status_eqb (status r) pending
                                 || status_eqb (status r) confirmed)
                                && String.eqb (res_id x) (res_id r)) found
           then setStatus released x else x)
        (reservations w).
Proof.
  revert w. induction found as [|r found IH]; intros w Hnd; simpl.
  - symmetry. erewrite map_ext; [apply map_id|]. reflexivity.
  - destruct (status_eqb (status r) pending || status_eqb (status r) confirmed)
      eqn:Eactive.
    + assert (Hstep : reservations (Consumers.releaseOne r w)
                      = map (fun x => if Db.keyed res_id (res_id r) x
                                      then setStatus released x else x)
                            (reservations w)).
      { unfold Consumers.releaseOne. simpl.
        apply (update_by_key res_id (res_id r) (setStatus released)). exact Hnd. }
      rewrite IH.
      * rewrite Hstep, map_map. apply map_ext. intros x.
        unfold Db.keyed. simpl.
        destruct (String.eqb (res_id x) (res_id r)); simpl; [|reflexivity].
        destruct (existsb _ found); reflexivity.
      * rewrite Hstep, map_map. erewrite map_ext; [exact Hnd|].
        intros x. simpl. destruct (Db.keyed res_id (res_id r) x); reflexivity.
    + simpl. now apply IH.
Qed.

Lemma cancelLoop_nothing_to_do (found : list ReservationDocument) (w : World) :
  Forall (fun r => status_eqb (status r) pending
                   || status_eqb (status r) confirmed = false) found ->
  Consumers.cancelLoop found w = w.
Proof.
  induction 1 as [|r found Hr _ IH]; simpl; [reflexivity|].
  rewrite Hr. exact IH.
Qed.

(** The [order.updated] handler run a second time for the same cancelled
    order finds every reservation released and does nothing: no write, no
    error. *)
Lemma cancel_replay_is_silent (order : string) (w : World) :
  NoDup (map res_id (reservations w)) ->
  Consumers.onOrderUpdated order "cancelled"
                           (Consumers.onOrderUpdated order "cancelled" w)
  = Consumers.onOrderUpdated order "cancelled" w.
Proof.
  intros Hnd. unfold Consumers.onOrderUpdated. simpl.
  apply cancelLoop_nothing_to_do.
  rewrite cancelLoop_reservations by exact Hnd.
  unfold ReservationRepository.findByOrderId, Db.findAll.
  apply Forall_forall. intros x' Hx'.
  apply filter_In in Hx'. destruct Hx' as [Hin Horder].
  apply in_map_iff in Hin. destruct Hin as (x & Hx & Hin).
  destruct (existsb _ _) eqn:Eex in Hx.
  - subst x'. reflexivity.
  - subst x'.
    assert (Hfound : In x (filter (fun r => String.eqb (orderId r) order)
                                  (reservations w)))
      by (apply filter_In; auto).
    destruct (status_eqb (status x) pending || status_eqb (status x) confirmed)
      eqn:Eactive; [|reflexivity].
    enough (Htrue : existsb
                      (fun r => (status_eqb (status r) pending
                                 || status_eqb (status r) confirmed)
                                && String.eqb (res_id x) (res_id r))
                      (filter (fun r => String.eqb (orderId r) order)
                              (reservations w)) = true)
      by (unfold ReservationRepository.findByOrderId, Db.findAll in Eex;
          congruence).
    apply existsb_exists. exists x. split; [exact Hfound|].
    now rewrite Eactive, String.eqb_refl.
Qed.

(* ================================================================== *)
(** * Further properties of the code *)
(* ================================================================== *)

(** ** POST /reserve, case by case *)

(** The handler of POST /reserve run without interruption, written out. *)
Lemma reserveRoute_unfold (env : Env) (b : Routes.ReserveBody) (w : World) :
  Routes.reserveRoute env b w
  = match Routes.reserveInventorySchema b with
    | None => (w, Some (Reply 400 (ErrorBody "Validation failed")))
    | Some d =>
        match InventoryRepository.findByProductId (Routes.rd_productId d)
                                                  (inventory w) with
        | None => (w, Some (Reply 404 (ErrorBody "Inventory item not found")))
        | Some item =>
            if available item <? Routes.rd_quantity d then
              (w, Some (Reply 400 (InsufficientBody
                                     "Insufficient stock available"
                                     (available item) (Routes.rd_quantity d))))
            else
              let r := mkReservation (newId env) (Routes.rd_orderId d)
                                     (Routes.rd_productId d)
                                     (Routes.rd_quantity d) pending
                                     (now env + Routes.rd_expiresIn d * 1000) in
              match ReservationRepository.create r (reservations w) with
              | inl e => (w, Some (Throw (dbErrorMessage e)))
              | inr docs =>
                  let u := mkInvUpdate
                             (Some (available item - Routes.rd_quantity d))
                             (Some (reserved item + Routes.rd_quantity d))
                             None None in
                  let e := mkEvent "inventory.reserved" (newId env)
                                   (Routes.rd_orderId d) (Routes.rd_productId d)
                                   (Routes.rd_quantity d) in
                  (mkWorld (fst (InventoryRepository.updateById
                                   (inv_id item) u (inventory w)))
                           docs
                           (fst (EventBus.publish (channel env) e (sent w))),
                   Some match snd (EventBus.publish (channel env) e (sent w)) with
                        | Some msg => Throw msg
                        | None => Reply 201 (ReservationBody r)
                        end)
              end
        end
    end.
Proof.
  unfold Routes.reserveRoute.
  destruct (Routes.reserveInventorySchema b) as [d|]; [|reflexivity].
  unfold Routes.reserveHandler, Nat.iter. cbn [nat_rect].
  unfold Routes.reserveSteps at 4. cbn [fst snd Routes.reserveStep].
  destruct (InventoryRepository.findByProductId _ _) as [item|]; [|reflexivity].
  destruct (available item <? Routes.rd_quantity d); [reflexivity|].
  unfold Routes.reserveSteps at 3. cbn [fst snd Routes.reserveStep].
  destruct (ReservationRepository.create _ _) as [e|docs]; [reflexivity|].
  unfold Routes.reserveSteps at 2. cbn [fst snd Routes.reserveStep].
  unfold Routes.reserveSteps. cbn [fst snd Routes.reserveStep].
  cbn [set_inventory set_reservations inventory reservations sent res_id].
  destruct (channel env) as [[|]|]; reflexivity.
Qed.

(** X1.  Every POST /reserve ends in a reply or in an exception.  A reply
    other than 201 is 400 or 404, and the request has changed nothing and
    published nothing; when the stock is short it is 400 with the
    available and the requested quantity.  A request that ends in an
    exception either changed nothing, the reservation could not be
    stored, or failed at the publish: then the pending reservation is
    stored and the ledger entry is written (for an entry that satisfies
    the invariant with a [total] within [Number.MAX_SAFE_INTEGER], with
    the quantity moved from [available] to [reserved]), and neither is
    undone. *)
Theorem reserve_not_accepted_cases
        (env : Env) (b : Routes.ReserveBody) (w : World) :
  exists o,
    snd (Routes.reserveRoute env b w) = Some o
    /\ match o with
       | Reply code body =>
           code = 201
           \/ (fst (Routes.reserveRoute env b w) = w
               /\ (code = 400 \/ code = 404)
               /\ (forall item,
                      Routes.reserveInventorySchema b <> None ->
                      InventoryRepository.findByProductId
                        (Routes.rb_productId b) (inventory w) = Some item ->
                      code = 400
                      /\ body = InsufficientBody "Insufficient stock available"
                                                 (available item)
                                                 (Routes.rb_quantity b)
                      /\ available item < Routes.rb_quantity b))
       | Throw msg =>
           (fst (Routes.reserveRoute env b w) = w
            /\ exists e, msg = dbErrorMessage e)
           \/ (channel env <> Some true
               /\ (msg = "RabbitMQ channel not initialized"
                   \/ msg = "Failed to publish message to RabbitMQ")
               /\ exists item r,
                   InventoryRepository.findByProductId
                     (Routes.rb_productId b) (inventory w) = Some item
                   /\ Routes.rb_quantity b <= available item
                   /\ res_id r = newId env
                   /\ status r = pending
                   /\ quantity r = Routes.rb_quantity b
                   /\ reservations (fst (Routes.reserveRoute env b w))
                      = reservations w ++ [r]
                   /\ (safeEntry item ->
                       inventory (fst (Routes.reserveRoute env b w))
                       = fst (InventoryRepository.updateById
                                (inv_id item)
                                (mkInvUpdate
                                   (Some (available item
                                          - Routes.rb_quantity b))
                                   (Some (reserved item
                                          + Routes.rb_quantity b))
                                   None None)
                                (inventory w))))
       end.
Proof.
  rewrite reserveRoute_unfold.
  destruct (Routes.reserveInventorySchema b) as [d|] eqn:Hs.
  - destruct (reserveInventorySchema_ok b Hs) as (_ & Hp & Hq & _).
    rewrite Hp, Hq.
    destruct (InventoryRepository.findByProductId _ _) as [item|] eqn:Hi.
    + destruct (available item <? Routes.rb_quantity b) eqn:Hlt.
      * eexists. split; [reflexivity|]. right.
        split; [reflexivity|]. split; [now left|].
        intros item' _ [= <-].
        split; [reflexivity|]. split; [reflexivity|now apply Z.ltb_lt].
      * cbv zeta. apply Z.ltb_ge in Hlt.
        destruct (ReservationRepository.create _ _) as [e|docs] eqn:Hc.
        -- eexists. split; [reflexivity|]. left.
           split; [reflexivity|now exists e].
        -- unfold ReservationRepository.create in Hc.
           cbn [quantity res_id] in Hc.
           destruct (Routes.rb_quantity b <? 1); [discriminate|].
           destruct (existsb _ (reservations w)); [discriminate|].
           injection Hc as <-.
           destruct (channel env) as [[|]|] eqn:Hch;
             cbn [EventBus.publish fst snd];
             (eexists; split; [reflexivity|]);
             [now left|right|right];
             (split; [discriminate|]);
             (split; [auto|]);
             eexists item, _; cbn [fst inventory reservations];
             repeat split; auto.
    + eexists. split; [reflexivity|]. right.
      split; [reflexivity|]. split; [now right|].
      intros item _ [=].
  - eexists. split; [reflexivity|]. right.
    split; [reflexivity|]. split; [now left|].
    intros item Hn. congruence.
Qed.

(** X2.  A reserve answered 201 has stored one pending reservation under the
    generated id, for the order, product and quantity of the request,
    expiring between one and sixty minutes after the request (thirty when
    the request names no duration), and has handed exactly one
    [inventory.reserved] event, about that reservation, to the channel. *)
Theorem reserve_accepted_details
        (env : Env) (b : Routes.ReserveBody) (w w' : World)
        (r : ReservationDocument) :
  Routes.reserveRoute env b w = (w', Some (Reply 201 (ReservationBody r))) ->
  res_id r = newId env
  /\ orderId r = Routes.rb_orderId b
  /\ res_productId r = Routes.rb_productId b
  /\ quantity r = Routes.rb_quantity b
  /\ 1 <= quantity r
  /\ status r = pending
  /\ now env + 60000 <= expiresAt r <= now env + 3600000
  /\ (Routes.rb_expiresIn b = None -> expiresAt r = now env + 1800000)
  /\ reservations w' = reservations w ++ [r]
  /\ ReservationRepository.findById (res_id r) (reservations w') = Some r
  /\ sent w'
     = sent w ++ [mkEvent "inventory.reserved" (res_id r) (orderId r)
                          (res_productId r) (quantity r)].
Proof.
  rewrite reserveRoute_unfold.
  destruct (Routes.reserveInventorySchema b) as [d|] eqn:Hs; [|discriminate].
  destruct (reserveInventorySchema_ok b Hs) as (Ho & Hp & Hq & H1 & He).
  destruct (InventoryRepository.findByProductId _ _) as [item|];
    [|discriminate].
  destruct (available item <? Routes.rd_quantity d); [discriminate|].
  cbv zeta.
  destruct (ReservationRepository.create _ _) as [e|docs] eqn:Hc;
    [discriminate|].
  unfold ReservationRepository.create in Hc. cbn [quantity res_id] in Hc.
  destruct (Routes.rd_quantity d <? 1); [discriminate|].
  destruct (existsb _ (reservations w)) eqn:Hfresh; [discriminate|].
  injection Hc as <-.
  destruct (channel env) as [[|]|]; cbn [EventBus.publish fst snd];
    try discriminate.
  intros H. inversion H; subst r w'; clear H.
  cbn [res_id orderId res_productId quantity status expiresAt
       reservations sent].
  repeat split; auto; try lia.
  - intros Hnone. unfold Routes.reserveInventorySchema in Hs.
    rewrite Hnone in Hs. cbn [orElse] in Hs.
    destruct (_ && _) in Hs; [|discriminate].
    injection Hs as <-. reflexivity.
  - apply findOne_appended.
    + apply findOne_absent. exact Hfresh.
    + unfold ReservationRepository.hasId, Db.keyed. apply String.eqb_refl.
Qed.

Lemma reserve_accepted_details_witness :
  let r := mkReservation Scenario.resA Scenario.orderA Scenario.product 10
                         pending 1801000 in
  res_id r = Scenario.resA
  /\ orderId r = Scenario.orderA
  /\ res_productId r = Scenario.product
  /\ quantity r = 10
  /\ 1 <= quantity r
  /\ status r = pending
  /\ 1000 + 60000 <= expiresAt r <= 1000 + 3600000
  /\ (Some 1800 = None -> expiresAt r = 1000 + 1800000)
  /\ reservations (fst Scenario.reserveA)
     = reservations Scenario.ledger100 ++ [r]
  /\ ReservationRepository.findById (res_id r)
                                    (reservations (fst Scenario.reserveA))
     = Some r
  /\ sent (fst Scenario.reserveA)
     = sent Scenario.ledger100
       ++ [mkEvent "inventory.reserved" (res_id r) (orderId r)
                   (res_productId r) (quantity r)].
Proof.
  intros r.
  apply (@reserve_accepted_details
           (mkEnv 1000 Scenario.resA Scenario.bus)
           (Routes.mkReserveBody Scenario.orderA Scenario.product 10
                                 (Some 1800))
           Scenario.ledger100 (fst Scenario.reserveA) r).
  reflexivity.
Defined.

(** ** POST / and PATCH /:id *)

Lemma update_spares_others (T : Type) (f : T -> bool) (u : T -> T)
      (l : list T) (d : T) :
  In d l -> f d = false -> In d (fst (Db.findOneAndUpdate f u l)).
Proof.
  induction l as [|x l IH]; simpl; [tauto|].
  intros [->|Hd] Hf.
  - rewrite Hf. destruct (Db.findOneAndUpdate f u l). now left.
  - destruct (f x); [now right|].
    destruct (Db.findOneAndUpdate f u l) as [l' r] eqn:E. simpl in *.
    right. now apply IH.
Qed.

(** X5.  An entry created by POST / starts with the whole total available
    and nothing reserved, satisfies the ledger invariant, and is what the
    lookups by product, by id and by sku return from then on; a second
    POST / for the same product is answered 409 and changes nothing. *)
Theorem create_inventory_then_lookup
        (env : Env) (b : Routes.CreateInventoryBody) (w w' : World)
        (body : ReplyBody) :
  Routes.createInventoryRoute env b w = (w', Reply 201 body) ->
  exists d,
    body = InventoryBody d
    /\ inventory w' = inventory w ++ [d]
    /\ available d = Routes.cb_total b
    /\ reserved d = 0
    /\ total d = Routes.cb_total b
    /\ ledgerInvariant d
    /\ InventoryRepository.findByProductId (Routes.cb_productId b) (inventory w')
       = Some d
    /\ InventoryRepository.findById (newId env) (inventory w') = Some d
    /\ InventoryRepository.findBySku (Routes.cb_sku b) (inventory w') = Some d
    /\ (forall env2 b2,
           Routes.createInventorySchema b2 = true ->
           Routes.cb_productId b2 = Routes.cb_productId b ->
           Routes.createInventoryRoute env2 b2 w'
           = (w', Reply 409 (ErrorBody
                               "Inventory item already exists for this product"))).
Proof.
  unfold Routes.createInventoryRoute, Routes.createInventoryHandler.
  destruct (Routes.createInventorySchema b); [|discriminate].
  destruct (InventoryRepository.findByProductId _ (inventory w)) eqn:Hp;
    [discriminate|].
  destruct (InventoryRepository.create _ _) as [e|docs] eqn:Hc;
    [discriminate|].
  intros H. inversion H; subst w' body; clear H.
  unfold InventoryRepository.create in Hc.
  cbn [available reserved total reorderLevel inv_id productId sku] in Hc.
  destruct (String.eqb (Routes.cb_productId b) ""); [discriminate|].
  destruct (String.eqb (Routes.cb_sku b) ""); [discriminate|].
  destruct (Routes.cb_total b <? 0) eqn:Ht; [discriminate|].
  cbn [Z.ltb Z.compare] in Hc.
  destruct (Routes.cb_reorderLevel b <? 0); [discriminate|].
  destruct (existsb (InventoryRepository.hasId _) _) eqn:Hid; [discriminate|].
  destruct (existsb (InventoryRepository.hasProductId _) _) eqn:Hpid;
    [discriminate|].
  destruct (existsb (InventoryRepository.hasSku _) _) eqn:Hsku; [discriminate|].
  injection Hc as <-.
  apply Z.ltb_ge in Ht.
  assert (Hfound :
            InventoryRepository.findByProductId
              (Routes.cb_productId b)
              (inventory w ++ [mkInventory (newId env) (Routes.cb_productId b)
                                           (Routes.cb_sku b) (Routes.cb_total b)
                                           0 (Routes.cb_total b)
                                           (Routes.cb_reorderLevel b)])
            = Some (mkInventory (newId env) (Routes.cb_productId b)
                                (Routes.cb_sku b) (Routes.cb_total b)
                                0 (Routes.cb_total b)
                                (Routes.cb_reorderLevel b))).
  { apply findOne_appended; [exact Hp|].
    unfold InventoryRepository.hasProductId, Db.keyed. apply String.eqb_refl. }
  eexists. split; [reflexivity|].
  cbn [set_inventory inventory available reserved total].
  split; [reflexivity|]. split; [reflexivity|]. split; [reflexivity|].
  split; [reflexivity|]. split; [unfold ledgerInvariant; simpl; lia|].
  split; [exact Hfound|]. split; [|split].
  - apply findOne_appended; [now apply findOne_absent|].
    unfold InventoryRepository.hasId, Db.keyed. apply String.eqb_refl.
  - apply findOne_appended; [now apply findOne_absent|].
    unfold InventoryRepository.hasSku, Db.keyed. apply String.eqb_refl.
  - intros env2 b2 Hs2 Hp2. rewrite Hs2, Hp2, Hfound. reflexivity.
Qed.

Lemma create_inventory_then_lookup_witness :
  exists d,
    InventoryBody (mkInventory Scenario.entryId Scenario.product "SKU-1"
                               15 0 15 2)
    = InventoryBody d
    /\ inventory Scenario.stocked15 = inventory Scenario.emptyWorld ++ [d]
    /\ available d = 15
    /\ reserved d = 0
    /\ total d = 15
    /\ ledgerInvariant d
    /\ InventoryRepository.findByProductId Scenario.product
                                           (inventory Scenario.stocked15)
       = Some d
    /\ InventoryRepository.findById Scenario.entryId
                                    (inventory Scenario.stocked15) = Some d
    /\ InventoryRepository.findBySku "SKU-1" (inventory Scenario.stocked15)
       = Some d
    /\ (forall env2 b2,
           Routes.createInventorySchema b2 = true ->
           Routes.cb_productId b2 = Scenario.product ->
           Routes.createInventoryRoute env2 b2 Scenario.stocked15
           = (Scenario.stocked15,
              Reply 409 (ErrorBody
                           "Inventory item already exists for this product"))).
Proof.
  apply (@create_inventory_then_lookup
           (mkEnv 0 Scenario.entryId Scenario.bus)
           (Routes.mkCreateBody Scenario.product "SKU-1" 15 2)
           Scenario.emptyWorld Scenario.stocked15
           (InventoryBody (mkInventory Scenario.entryId Scenario.product
                                       "SKU-1" 15 0 15 2))).
  reflexivity.
Defined.

(** X6.  PATCH /:id never writes.  Its parameter has to pass the uuid check
    of [idSchema], and what passes it is no [ObjectId]: the request is
    answered 400 by the validation of the parameter or of the body, or
    its handler ends in the [CastError] of [findById]; the store is as it
    was in every case.  An [ObjectId], which the [_id] of every stored
    entry is, is refused as a parameter. *)
Theorem patch_route_never_writes
        (id : string) (b : Routes.UpdateInventoryBody) (w : World) :
  fst (Routes.updateInventoryRoute id b w) = w
  /\ isError (snd (Routes.updateInventoryRoute id b w)) = true
  /\ (Validation.isUuid id = false ->
      snd (Routes.updateInventoryRoute id b w)
      = Reply 400 (ErrorBody "Parameter validation failed"))
  /\ (Validation.isUuid id = true ->
      Routes.updateInventorySchema b = false ->
      snd (Routes.updateInventoryRoute id b w)
      = Reply 400 (ErrorBody "Validation failed"))
  /\ (Validation.isUuid id = true ->
      Routes.updateInventorySchema b = true ->
      snd (Routes.updateInventoryRoute id b w) = Throw Db.castErrorMessage)
  /\ (Db.isObjectId id = true ->
      snd (Routes.updateInventoryRoute id b w)
      = Reply 400 (ErrorBody "Parameter validation failed"))
  /\ Db.isObjectId Scenario.entryId = true
  /\ Validation.isUuid Scenario.product = true.
Proof.
  rewrite updateInventoryRoute_cases. cbn [fst snd].
  split; [reflexivity|]. split.
  - destruct (Validation.isUuid id); [|reflexivity].
    destruct (Routes.updateInventorySchema b); reflexivity.
  - split; [intros ->; reflexivity|].
    split; [intros -> ->; reflexivity|].
    split; [intros -> ->; reflexivity|].
    split; [|split; vm_compute; reflexivity].
    intros Hid. destruct (Validation.isUuid id) eqn:Hu; [|reflexivity].
    apply uuid_is_no_objectId in Hu. congruence.
Qed.

(** ** The event handlers of the inventory service *)

Lemma onProductCreated_cases
      (env : Env) (e : Consumers.ProductCreatedEvent) (w : World) :
  Consumers.onProductCreated env e w = w
  \/ (0 <= Consumers.pc_stock e
      /\ Consumers.onProductCreated env e w
         = set_inventory
             w (inventory w
                ++ [mkInventory (newId env) (Consumers.pc_productId e)
                                (Consumers.pc_sku e) (Consumers.pc_stock e) 0
                                (Consumers.pc_stock e)
                                (Z.max 10 (Consumers.pc_stock e / 10))])).
Proof.
  unfold Consumers.onProductCreated.
  destruct (InventoryRepository.create _ _) as [err|docs] eqn:Hc;
    [now left|right].
  unfold InventoryRepository.create in Hc.
  cbn [available reserved total reorderLevel inv_id productId sku] in Hc.
  destruct (String.eqb (Consumers.pc_productId e) ""); [discriminate|].
  destruct (String.eqb (Consumers.pc_sku e) ""); [discriminate|].
  destruct (Consumers.pc_stock e <? 0) eqn:Hneg; [discriminate|].
  repeat match type of Hc with
         | (if ?c then _ else _) = _ => destruct c; [discriminate|]
         end.
  injection Hc as <-. apply Z.ltb_ge in Hneg. auto.
Qed.

Lemma onProductCreated_refused
      (env : Env) (e : Consumers.ProductCreatedEvent) (w : World) :
  Consumers.pc_stock e < 0
  \/ existsb (InventoryRepository.hasProductId (Consumers.pc_productId e))
             (inventory w) = true ->
  Consumers.onProductCreated env e w = w.
Proof.
  intros H. unfold Consumers.onProductCreated, InventoryRepository.create.
  cbn [available reserved total reorderLevel inv_id productId sku].
  destruct (String.eqb (Consumers.pc_productId e) ""); [reflexivity|].
  destruct (String.eqb (Consumers.pc_sku e) ""); [reflexivity|].
  destruct H as [H|H].
  - apply Z.ltb_lt in H. rewrite H. reflexivity.
  - rewrite H.
    repeat match goal with
           | |- context [if ?c then _ else _] => destruct c; try reflexivity
           end.
Qed.

(** X7.  The [product.created] handler either changes nothing (an empty
    product id or sku, a negative stock, or an id, product or sku already
    stored: the failure is caught)
    or appends one entry with the whole stock available, nothing reserved,
    a reorder level of at least ten, satisfying the ledger invariant; the
    entry is low on stock from the start exactly when the stock is at most
    ten.  Once the product has an entry, the event delivered again changes
    nothing. *)
Theorem product_created_entry
        (env : Env) (e : Consumers.ProductCreatedEvent) (w : World) :
  reservations (Consumers.onProductCreated env e w) = reservations w
  /\ sent (Consumers.onProductCreated env e w) = sent w
  /\ (Consumers.onProductCreated env e w = w
      \/ exists d,
          inventory (Consumers.onProductCreated env e w) = inventory w ++ [d]
          /\ inv_id d = newId env
          /\ productId d = Consumers.pc_productId e
          /\ sku d = Consumers.pc_sku e
          /\ available d = Consumers.pc_stock e
          /\ reserved d = 0
          /\ total d = Consumers.pc_stock e
          /\ 10 <= reorderLevel d
          /\ ledgerInvariant d
          /\ (InventoryRepository.isLowStock d = true
              <-> Consumers.pc_stock e <= 10))
  /\ (Consumers.pc_stock e < 0 -> Consumers.onProductCreated env e w = w)
  /\ (existsb (InventoryRepository.hasProductId (Consumers.pc_productId e))
              (inventory w) = true ->
      Consumers.onProductCreated env e w = w)
  /\ (forall env2,
         Consumers.onProductCreated env e w <> w ->
         Consumers.onProductCreated env2 e (Consumers.onProductCreated env e w)
         = Consumers.onProductCreated env e w).
Proof.
  destruct (onProductCreated_cases env e w) as [Hsame|[Hpos Hnew]].
  - rewrite Hsame. split; [reflexivity|]. split; [reflexivity|].
    split; [now left|].
    split; [reflexivity|]. split; [reflexivity|].
    intros env2 Hne. congruence.
  - split; [now rewrite Hnew|]. split; [now rewrite Hnew|].
    split; [|split; [|split]].
    + right. eexists. rewrite Hnew. split; [reflexivity|].
      cbn [inv_id productId sku available reserved total reorderLevel].
      repeat split; auto; try lia; try (simpl; lia).
      * unfold InventoryRepository.isLowStock. simpl. intros H.
        apply Z.leb_le in H.
        pose proof (Z.mul_div_le (Consumers.pc_stock e) 10 ltac:(lia)). lia.
      * unfold InventoryRepository.isLowStock. simpl. intros H.
        apply Z.leb_le. lia.
    + intros H; apply onProductCreated_refused; now left.
    + intros H; apply onProductCreated_refused; now right.
    + intros env2 _. apply onProductCreated_refused. right.
      rewrite Hnew. cbn [set_inventory inventory].
      rewrite existsb_app. simpl.
      unfold InventoryRepository.hasProductId, Db.keyed. simpl.
      rewrite String.eqb_refl. now rewrite !orb_true_r.
Qed.

(** Among documents with unique ids, the ones a loop meets are the ones
    its selection query kept. *)
Lemma selected_by_id (pred test : ReservationDocument -> bool)
      (l : list ReservationDocument) (x : ReservationDocument) :
  NoDup (map res_id l) -> In x l ->
  existsb (fun r => test r && String.eqb (res_id x) (res_id r)) (filter pred l)
  = pred x && test x.
Proof.
  intros Hnd Hx. apply Bool.eq_iff_eq_true. split.
  - intros H. apply existsb_exists in H. destruct H as (r & Hr & Ht).
    apply filter_In in Hr. destruct Hr as [Hr Hp].
    apply andb_true_iff in Ht. destruct Ht as [Ht Hid].
    apply String.eqb_eq in Hid.
    assert (x = r) by (now apply (@unique_key _ res_id l)). subst r.
    now rewrite Hp, Ht.
  - intros H. apply andb_true_iff in H. destruct H as [Hp Ht].
    apply existsb_exists. exists x. split; [now apply filter_In|].
    now rewrite Ht, String.eqb_refl.
Qed.

Lemma confirmLoop_reservations (found : list ReservationDocument) (w : World) :
  NoDup (map res_id (reservations w)) ->
  reservations (Consumers.confirmLoop found w)
  = map (fun x =>
           if existsb (fun r => status_eqb (status r) pending
                                && String.eqb (res_id x) (res_id r)) found
           then setStatus confirmed x else x)
        (reservations w).
Proof.
  revert w. induction found as [|r found IH]; intros w Hnd; simpl.
  - symmetry. erewrite map_ext; [apply map_id|]. reflexivity.
  - destruct (status_eqb (status r) pending) eqn:Ep.
    + assert (Hstep : fst (ReservationRepository.confirmReservation
                             (res_id r) (reservations w))
                      = map (fun x => if Db.keyed res_id (res_id r) x
                                      then setStatus confirmed x else x)
                            (reservations w))
        by (apply (update_by_key res_id (res_id r) (setStatus confirmed));
            exact Hnd).
      rewrite IH; cbn [set_reservations reservations].
      * rewrite Hstep, map_map. apply map_ext. intros x.
        unfold Db.keyed. simpl.
        destruct (String.eqb (res_id x) (res_id r)); simpl; [|reflexivity].
        destruct (existsb _ found); reflexivity.
      * rewrite Hstep, map_map. erewrite map_ext; [exact Hnd|].
        intros x. simpl. destruct (Db.keyed res_id (res_id r) x); reflexivity.
    + simpl. now apply IH.
Qed.

Lemma confirmLoop_keeps_rest (found : list ReservationDocument) (w : World) :
  inventory (Consumers.confirmLoop found w) = inventory w
  /\ sent (Consumers.confirmLoop found w) = sent w.
Proof.
  revert w. induction found as [|r found IH]; intros w; simpl; [auto|].
  destruct (status_eqb (status r) pending); [|apply IH].
  destruct (IH (set_reservations
                  w (fst (ReservationRepository.confirmReservation
                            (res_id r) (reservations w))))) as [Hi Hs].
  now rewrite Hi, Hs.
Qed.

Lemma confirmLoop_nothing_to_do (found : list ReservationDocument) (w : World) :
  Forall (fun r => status_eqb (status r) pending = false) found ->
  Consumers.confirmLoop found w = w.
Proof.
  induction 1 as [|r found Hr _ IH]; simpl; [reflexivity|].
  rewrite Hr. exact IH.
Qed.

(** X8.  The [order.created] handler turns exactly the pending reservations
    of the order into confirmed ones; every other reservation, the whole
    inventory collection and the published events stay as they are, and
    the same event delivered again changes nothing. *)
Theorem order_created_confirms_pending (order : string) (w : World) :
  NoDup (map res_id (reservations w)) ->
  reservations (Consumers.onOrderCreated order w)
  = map (fun x => if String.eqb (orderId x) order
                     && status_eqb (status x) pending
                  then setStatus confirmed x else x)
        (reservations w)
  /\ inventory (Consumers.onOrderCreated order w) = inventory w
  /\ sent (Consumers.onOrderCreated order w) = sent w
  /\ Consumers.onOrderCreated order (Consumers.onOrderCreated order w)
     = Consumers.onOrderCreated order w.
Proof.
  intros Hnd.
  assert (Hmap : reservations (Consumers.onOrderCreated order w)
                 = map (fun x => if String.eqb (orderId x) order
                                    && status_eqb (status x) pending
                                 then setStatus confirmed x else x)
                       (reservations w)).
  { unfold Consumers.onOrderCreated.
    rewrite confirmLoop_reservations by exact Hnd.
    apply map_ext_in. intros x Hx.
    unfold ReservationRepository.findByOrderId, Db.findAll.
    now rewrite (selected_by_id (fun r => String.eqb (orderId r) order)
                                (fun r => status_eqb (status r) pending)
                                (reservations w) x Hnd Hx). }
  split; [exact Hmap|].
  split; [apply confirmLoop_keeps_rest|].
  split; [apply confirmLoop_keeps_rest|].
  unfold Consumers.onOrderCreated at 1. apply confirmLoop_nothing_to_do.
  rewrite Hmap. unfold ReservationRepository.findByOrderId, Db.findAll.
  apply Forall_forall. intros x' Hx'.
  apply filter_In in Hx'. destruct Hx' as [Hin Horder].
  apply in_map_iff in Hin. destruct Hin as (x & Heq & _). subst x'.
  destruct (String.eqb (orderId x) order && status_eqb (status x) pending)
    eqn:E; [reflexivity|].
  rewrite Horder in E. exact E.
Qed.

Lemma order_created_confirms_pending_witness :
  reservations (Consumers.onOrderCreated Scenario.orderA (fst Scenario.reserveA))
  = map (fun x => if String.eqb (orderId x) Scenario.orderA
                     && status_eqb (status x) pending
                  then setStatus confirmed x else x)
        (reservations (fst Scenario.reserveA))
  /\ inventory (Consumers.onOrderCreated Scenario.orderA (fst Scenario.reserveA))
     = inventory (fst Scenario.reserveA)
  /\ sent (Consumers.onOrderCreated Scenario.orderA (fst Scenario.reserveA))
     = sent (fst Scenario.reserveA)
  /\ Consumers.onOrderCreated
       Scenario.orderA
       (Consumers.onOrderCreated Scenario.orderA (fst Scenario.reserveA))
     = Consumers.onOrderCreated Scenario.orderA (fst Scenario.reserveA).
Proof.
  apply (@order_created_confirms_pending
           Scenario.orderA (fst Scenario.reserveA)).
  simpl. repeat constructor. intros [].
Defined.

(** ** Cancellation and expiry *)

Lemma inc_nothing (e : InventoryDocument) :
  InventoryRepository.inc 0 (- 0) 0 e = e.
Proof.
  destruct e. unfold InventoryRepository.inc. simpl. f_equal; lia.
Qed.

Lemma inc_twice (a b : Z) (e : InventoryDocument) :
  InventoryRepository.inc a (- a) 0 (InventoryRepository.inc b (- b) 0 e)
  = InventoryRepository.inc (b + a) (- (b + a)) 0 e.
Proof.
  destruct e. unfold InventoryRepository.inc. simpl. f_equal; lia.
Qed.

(** What one turn of a release loop does to the ledger, on unique
    products. *)
Lemma releaseOne_inventory (r : ReservationDocument) (w : World) :
  NoDup (map productId (inventory w)) ->
  inventory (Consumers.releaseOne r w)
  = map (fun e => if String.eqb (productId e) (res_productId r)
                  then InventoryRepository.inc (quantity r) (- quantity r) 0 e
                  else e)
        (inventory w)
  /\ sent (Consumers.releaseOne r w) = sent w.
Proof.
  intros Hnd. unfold Consumers.releaseOne. simpl. split; [|reflexivity].
  exact (update_by_key productId (res_productId r)
                       (InventoryRepository.inc (quantity r) (- quantity r) 0)
                       (inventory w) Hnd).
Qed.

Lemma releaseOne_keeps_products (r : ReservationDocument) (w : World) :
  map productId (inventory (Consumers.releaseOne r w))
  = map productId (inventory w).
Proof.
  unfold Consumers.releaseOne. simpl.
  apply update_keeps_keys. reflexivity.
Qed.

Lemma cancelLoop_inventory (found : list ReservationDocument) (w : World) :
  NoDup (map productId (inventory w)) ->
  inventory (Consumers.cancelLoop found w)
  = map (fun e => InventoryRepository.inc
                    (Service.heldFor (productId e) found)
                    (- Service.heldFor (productId e) found) 0 e)
        (inventory w)
  /\ sent (Consumers.cancelLoop found w) = sent w.
Proof.
  revert w. induction found as [|r found IH]; intros w Hnd; simpl.
  - split; [|reflexivity]. symmetry. erewrite map_ext; [apply map_id|].
    intros e. apply inc_nothing.
  - unfold Service.active.
    destruct (status_eqb (status r) pending || status_eqb (status r) confirmed).
    + destruct (releaseOne_inventory r w Hnd) as [Hi Hs].
      destruct (IH (Consumers.releaseOne r w)) as [Hi' Hs'];
        [now rewrite releaseOne_keeps_products|].
      rewrite Hi', Hs', Hs, Hi, map_map. split; [|reflexivity].
      apply map_ext. intros e. rewrite andb_true_r.
      rewrite (String.eqb_sym (res_productId r) (productId e)).
      destruct (String.eqb (productId e) (res_productId r)).
      * cbn [productId InventoryRepository.inc]. rewrite <- inc_twice.
        reflexivity.
      * rewrite Z.add_0_l. reflexivity.
    + destruct (IH w Hnd) as [Hi' Hs']. rewrite Hi', Hs'. split; [|reflexivity].
      apply map_ext. intros e. rewrite andb_false_r, Z.add_0_l. reflexivity.
Qed.

(** X9.  The [order.updated] handler does nothing unless the new status is
    [cancelled].  For a cancelled order it releases exactly the pending and
    the confirmed reservations of the order, gives their quantities back
    from [reserved] to [available] on the entries of their products,
    publishes nothing, and changes nothing when the event is delivered
    again. *)
Theorem order_cancelled_releases (order currentStatus : string) (w : World) :
  NoDup (map res_id (reservations w)) ->
  NoDup (map productId (inventory w)) ->
  sent (Consumers.onOrderUpdated order currentStatus w) = sent w
  /\ (currentStatus <> "cancelled" ->
      Consumers.onOrderUpdated order currentStatus w = w)
  /\ (currentStatus = "cancelled" ->
      reservations (Consumers.onOrderUpdated order currentStatus w)
      = map (fun x => if String.eqb (orderId x) order && Service.active x
                      then setStatus released x else x)
            (reservations w)
      /\ inventory (Consumers.onOrderUpdated order currentStatus w)
         = map (fun e =>
                  InventoryRepository.inc
                    (Service.heldFor
                       (productId e)
                       (ReservationRepository.findByOrderId
                          order (reservations w)))
                    (- Service.heldFor
                         (productId e)
                         (ReservationRepository.findByOrderId
                            order (reservations w)))
                    0 e)
               (inventory w)
      /\ Consumers.onOrderUpdated
           order currentStatus (Consumers.onOrderUpdated order currentStatus w)
         = Consumers.onOrderUpdated order currentStatus w).
Proof.
  intros Hr Hp. unfold Consumers.onOrderUpdated at 1 2 3 4.
  destruct (String.eqb currentStatus "cancelled") eqn:E.
  - apply String.eqb_eq in E. subst currentStatus.
    split; [apply cancelLoop_inventory; exact Hp|].
    split; [congruence|]. intros _.
    split; [|split].
    + rewrite cancelLoop_reservations by exact Hr.
      apply map_ext_in. intros x Hx.
      unfold ReservationRepository.findByOrderId, Db.findAll.
      now rewrite (selected_by_id
                     (fun r => String.eqb (orderId r) order)
                     (fun r => status_eqb (status r) pending
                               || status_eqb (status r) confirmed)
                     (reservations w) x Hr Hx).
    + apply cancelLoop_inventory. exact Hp.
    + exact (cancel_replay_is_silent order w Hr).
  - apply String.eqb_neq in E.
    split; [reflexivity|]. split; [reflexivity|]. congruence.
Qed.

Lemma order_cancelled_releases_witness :
  let w := Scenario.confirmedA in
  sent (Consumers.onOrderUpdated Scenario.orderA "cancelled" w) = sent w
  /\ ("cancelled" <> "cancelled" ->
      Consumers.onOrderUpdated Scenario.orderA "cancelled" w = w)
  /\ ("cancelled" = "cancelled" ->
      reservations (Consumers.onOrderUpdated Scenario.orderA "cancelled" w)
      = map (fun x => if String.eqb (orderId x) Scenario.orderA
                         && Service.active x
                      then setStatus released x else x)
            (reservations w)
      /\ inventory (Consumers.onOrderUpdated Scenario.orderA "cancelled" w)
         = map (fun e =>
                  InventoryRepository.inc
                    (Service.heldFor
                       (productId e)
                       (ReservationRepository.findByOrderId
                          Scenario.orderA (reservations w)))
                    (- Service.heldFor
                         (productId e)
                         (ReservationRepository.findByOrderId
                            Scenario.orderA (reservations w)))
                    0 e)
               (inventory w)
      /\ Consumers.onOrderUpdated
           Scenario.orderA "cancelled"
           (Consumers.onOrderUpdated Scenario.orderA "cancelled" w)
         = Consumers.onOrderUpdated Scenario.orderA "cancelled" w).
Proof.
  intros w.
  apply (@order_cancelled_releases Scenario.orderA "cancelled" w).
  - unfold w. simpl. repeat constructor. intros [].
  - unfold w. simpl. repeat constructor. intros [].
Defined.

Lemma sweepLoop_reservations (found : list ReservationDocument) (w : World) :
  NoDup (map res_id (reservations w)) ->
  reservations (Consumers.sweepLoop found w)
  = map (fun x =>
           if existsb (fun r => true && String.eqb (res_id x) (res_id r)) found
           then setStatus released x else x)
        (reservations w).
Proof.
  revert w. induction found as [|r found IH]; intros w Hnd; simpl.
  - symmetry. erewrite map_ext; [apply map_id|]. reflexivity.
  - assert (Hstep : reservations (Consumers.releaseOne r w)
                    = map (fun x => if Db.keyed res_id (res_id r) x
                                    then setStatus released x else x)
                          (reservations w)).
    { unfold Consumers.releaseOne. simpl.
      apply (update_by_key res_id (res_id r) (setStatus released)). exact Hnd. }
    rewrite IH.
    + rewrite Hstep, map_map. apply map_ext. intros x.
      unfold Db.keyed. simpl.
      destruct (String.eqb (res_id x) (res_id r)); simpl; [|reflexivity].
      destruct (existsb _ found); reflexivity.
    + rewrite Hstep, map_map. erewrite map_ext; [exact Hnd|].
      intros x. simpl. destruct (Db.keyed res_id (res_id r) x); reflexivity.
Qed.

Lemma sweepLoop_inventory (found : list ReservationDocument) (w : World) :
  Forall (fun r => Service.active r = true) found ->
  NoDup (map productId (inventory w)) ->
  inventory (Consumers.sweepLoop found w)
  = map (fun e => InventoryRepository.inc
                    (Service.heldFor (productId e) found)
                    (- Service.heldFor (productId e) found) 0 e)
        (inventory w)
  /\ sent (Consumers.sweepLoop found w) = sent w.
Proof.
  intros Hall. revert w.
  induction Hall as [|r found Hr _ IH]; intros w Hnd; simpl.
  - split; [|reflexivity]. symmetry. erewrite map_ext; [apply map_id|].
    intros e. apply inc_nothing.
  - destruct (releaseOne_inventory r w Hnd) as [Hi Hs].
    destruct (IH (Consumers.releaseOne r w)) as [Hi' Hs'];
      [now rewrite releaseOne_keeps_products|].
    rewrite Hi', Hs', Hs, Hi, map_map. split; [|reflexivity].
    apply map_ext. intros e. rewrite Hr, andb_true_r.
    rewrite (String.eqb_sym (res_productId r) (productId e)).
    destruct (String.eqb (productId e) (res_productId r)).
    + cbn [productId InventoryRepository.inc]. rewrite <- inc_twice.
      reflexivity.
    + rewrite Z.add_0_l. reflexivity.
Qed.

Lemma filter_none (T : Type) (f : T -> bool) (l : list T) :
  (forall x, In x l -> f x = false) -> filter f l = [].
Proof.
  induction l as [|x l IH]; simpl; intros H; [reflexivity|].
  rewrite (H x (or_introl eq_refl)). apply IH. intros y Hy. apply H. now right.
Qed.

(** X10.  A turn of the sweeper at time [now] releases exactly the
    reservations that are pending and expired before [now], gives their
    quantities back from [reserved] to [available], and publishes nothing;
    afterwards no pending reservation expired before [now] is left, so
    that a second turn at the same time changes nothing. *)
Theorem sweeper_releases_expired (now : Z) (w : World) :
  NoDup (map res_id (reservations w)) ->
  NoDup (map productId (inventory w)) ->
  reservations (Consumers.sweeperTick now w)
  = map (fun x => if status_eqb (status x) pending && (expiresAt x <? now)
                  then setStatus released x else x)
        (reservations w)
  /\ inventory (Consumers.sweeperTick now w)
     = map (fun e =>
              InventoryRepository.inc
                (Service.heldFor
                   (productId e)
                   (ReservationRepository.findExpired now (reservations w)))
                (- Service.heldFor
                     (productId e)
                     (ReservationRepository.findExpired now (reservations w)))
                0 e)
           (inventory w)
  /\ sent (Consumers.sweeperTick now w) = sent w
  /\ ReservationRepository.findExpired
       now (reservations (Consumers.sweeperTick now w)) = []
  /\ Consumers.sweeperTick now (Consumers.sweeperTick now w)
     = Consumers.sweeperTick now w.
Proof.
  intros Hr Hp.
  assert (Hmap : reservations (Consumers.sweeperTick now w)
                 = map (fun x => if status_eqb (status x) pending
                                    && (expiresAt x <? now)
                                 then setStatus released x else x)
                       (reservations w)).
  { unfold Consumers.sweeperTick.
    rewrite sweepLoop_reservations by exact Hr.
    apply map_ext_in. intros x Hx.
    unfold ReservationRepository.findExpired, Db.findAll.
    rewrite (selected_by_id
               (fun r => status_eqb (status r) pending && (expiresAt r <? now))
               (fun _ => true) (reservations w) x Hr Hx).
    now rewrite andb_true_r. }
  assert (Hactive : Forall (fun r => Service.active r = true)
                           (ReservationRepository.findExpired
                              now (reservations w))).
  { apply Forall_forall. intros r Hin.
    unfold ReservationRepository.findExpired, Db.findAll in Hin.
    apply filter_In in Hin. destruct Hin as [_ Hf].
    apply andb_true_iff in Hf. destruct Hf as [Hf _].
    unfold Service.active. now rewrite Hf. }
  assert (Hnone : ReservationRepository.findExpired
                    now (reservations (Consumers.sweeperTick now w)) = []).
  { rewrite Hmap. unfold ReservationRepository.findExpired, Db.findAll.
    apply filter_none. intros x' Hx'.
    apply in_map_iff in Hx'. destruct Hx' as (x & <- & _).
    destruct (status_eqb (status x) pending && (expiresAt x <? now)) eqn:E;
      [reflexivity|exact E]. }
  split; [exact Hmap|].
  split; [apply (sweepLoop_inventory w Hactive Hp)|].
  split; [apply (sweepLoop_inventory w Hactive Hp)|].
  split; [exact Hnone|].
  unfold Consumers.sweeperTick at 1. rewrite Hnone. reflexivity.
Qed.

Lemma sweeper_releases_expired_witness :
  let w := Scenario.reserveShort in
  reservations (Consumers.sweeperTick 62000 w)
  = map (fun x => if status_eqb (status x) pending && (expiresAt x <? 62000)
                  then setStatus released x else x)
        (reservations w)
  /\ inventory (Consumers.sweeperTick 62000 w)
     = map (fun e =>
              InventoryRepository.inc
                (Service.heldFor
                   (productId e)
                   (ReservationRepository.findExpired 62000 (reservations w)))
                (- Service.heldFor
                     (productId e)
                     (ReservationRepository.findExpired 62000 (reservations w)))
                0 e)
           (inventory w)
  /\ sent (Consumers.sweeperTick 62000 w) = sent w
  /\ ReservationRepository.findExpired
       62000 (reservations (Consumers.sweeperTick 62000 w)) = []
  /\ Consumers.sweeperTick 62000 (Consumers.sweeperTick 62000 w)
     = Consumers.sweeperTick 62000 w.
Proof.
  intros w.
  apply (@sweeper_releases_expired 62000 w).
  - unfold w. simpl. repeat constructor. intros [].
  - unfold w. simpl. repeat constructor. intros [].
Defined.

(** ** A release asked again *)






(** X28.  A reserve answered 201 moves its quantity from [available] to
    [reserved] on the entry of the product, and the release that the
    cancellation of the order or the sweeper then makes of the reservation
    puts the inventory collection back as it was before the reserve, for
    an entry that satisfied the invariant with a [total] within
    [Number.MAX_SAFE_INTEGER]. *)
Theorem reserve_then_event_release_restores
        (env : Env) (b : Routes.ReserveBody) (w w1 : World)
        (item : InventoryDocument) (r : ReservationDocument) :
  uniqueIds w ->
  InventoryRepository.findByProductId (Routes.rb_productId b) (inventory w)
  = Some item ->
  safeEntry item ->
  Routes.reserveRoute env b w = (w1, Some (Reply 201 (ReservationBody r))) ->
  Routes.rb_quantity b <= available item
  /\ InventoryRepository.findByProductId (Routes.rb_productId b) (inventory w1)
     = Some (mkInventory (inv_id item) (productId item) (sku item)
                         (available item - Routes.rb_quantity b)
                         (reserved item + Routes.rb_quantity b)
                         (total item) (reorderLevel item))
  /\ safeEntry (mkInventory (inv_id item) (productId item) (sku item)
                            (available item - Routes.rb_quantity b)
                            (reserved item + Routes.rb_quantity b)
                            (total item) (reorderLevel item))
  /\ inventory (Consumers.releaseOne r w1) = inventory w
  /\ (ReservationRepository.findByOrderId (Routes.rb_orderId b)
                                          (reservations w) = [] ->
      inventory (Consumers.onOrderUpdated (Routes.rb_orderId b) "cancelled" w1)
      = inventory w)
  /\ (forall later,
         ReservationRepository.findExpired later (reservations w) = [] ->
         expiresAt r < later ->
         inventory (Consumers.sweeperTick later w1) = inventory w).
Proof.
  intros [Hnd _] Hitem [(Hbal & Ha & Hr) Ht].
  rewrite reserveRoute_unfold.
  destruct (Routes.reserveInventorySchema b) as [d|] eqn:Hs; [|discriminate].
  destruct (reserveInventorySchema_ok b Hs) as (Ho & Hp & Hq & H1 & He).
  rewrite <- Hp in Hitem. rewrite <- Hp, <- Ho, <- Hq, Hitem.
  destruct (available item <? Routes.rd_quantity d) eqn:Hlt; [discriminate|].
  apply Z.ltb_ge in Hlt. cbv zeta.
  destruct (ReservationRepository.create _ _) as [e|docs] eqn:Hc;
    [discriminate|].
  unfold ReservationRepository.create in Hc. cbn [quantity res_id] in Hc.
  destruct (Routes.rd_quantity d <? 1); [discriminate|].
  destruct (existsb _ (reservations w)); [discriminate|].
  injection Hc as <-.
  destruct (channel env) as [[|]|]; cbn [EventBus.publish fst snd];
    try discriminate.
  intros H. inversion H; subst r w1; clear H.
  assert (Hback : inventory
                    (Consumers.releaseOne
                       (mkReservation (newId env) (Routes.rd_orderId d)
                                      (Routes.rd_productId d)
                                      (Routes.rd_quantity d) pending
                                      (now env + Routes.rd_expiresIn d * 1000))
                       (mkWorld
                          (fst (InventoryRepository.updateById
                                  (inv_id item)
                                  (mkInvUpdate
                                     (Some (available item
                                            - Routes.rd_quantity d))
                                     (Some (reserved item
                                            + Routes.rd_quantity d))
                                     None None)
                                  (inventory w)))
                          (reservations w
                           ++ [mkReservation
                                 (newId env) (Routes.rd_orderId d)
                                 (Routes.rd_productId d)
                                 (Routes.rd_quantity d) pending
                                 (now env + Routes.rd_expiresIn d * 1000)])
                          (sent w
                           ++ [mkEvent "inventory.reserved" (newId env)
                                       (Routes.rd_orderId d)
                                       (Routes.rd_productId d)
                                       (Routes.rd_quantity d)])))
                  = inventory w).
  { unfold Consumers.releaseOne.
    cbn [inventory set_inventory set_reservations res_productId quantity].
    exact (@ledger_round_trip_inc (inventory w) item (Routes.rd_productId d)
                                  (Routes.rd_quantity d) Hnd Hitem). }
  split; [exact Hlt|]. split; [|split; [|split; [|split]]].
  - cbn [inventory]. now apply ledger_reserved.
  - unfold safeEntry, ledgerInvariant. cbn [available reserved total]. lia.
  - exact Hback.
  - intros Hnone. unfold Consumers.onOrderUpdated.
    replace (String.eqb "cancelled" "cancelled") with true by reflexivity.
    unfold ReservationRepository.findByOrderId, Db.findAll in *.
    cbn [reservations]. rewrite filter_app, Hnone.
    cbn [filter orderId app]. rewrite String.eqb_refl.
    cbn [Consumers.cancelLoop status status_eqb orb]. exact Hback.
  - intros later Hnone Hexp. unfold Consumers.sweeperTick.
    unfold ReservationRepository.findExpired, Db.findAll in *.
    cbn [reservations]. rewrite filter_app, Hnone.
    cbn [filter status status_eqb expiresAt andb app] in *.
    replace (now env + Routes.rd_expiresIn d * 1000 <? later) with true
      by (symmetry; now apply Z.ltb_lt).
    cbn [Consumers.sweepLoop]. exact Hback.
Qed.

Lemma reserve_then_event_release_restores_witness :
  let r := mkReservation Scenario.resA Scenario.orderA Scenario.product 10
                         pending 61000 in
  let w1 := Scenario.reserveShort in
  10 <= 100
  /\ InventoryRepository.findByProductId Scenario.product (inventory w1)
     = Some (mkInventory Scenario.entryId Scenario.product "SKU-1"
                         (100 - 10) (0 + 10) 100 10)
  /\ safeEntry (mkInventory Scenario.entryId Scenario.product "SKU-1"
                            (100 - 10) (0 + 10) 100 10)
  /\ inventory (Consumers.releaseOne r w1) = inventory Scenario.ledger100
  /\ (ReservationRepository.findByOrderId
        Scenario.orderA (reservations Scenario.ledger100) = [] ->
      inventory (Consumers.onOrderUpdated Scenario.orderA "cancelled" w1)
      = inventory Scenario.ledger100)
  /\ (forall later,
         ReservationRepository.findExpired
           later (reservations Scenario.ledger100) = [] ->
         expiresAt r < later ->
         inventory (Consumers.sweeperTick later w1)
         = inventory Scenario.ledger100).
Proof.
  intros r w1.
  apply (@reserve_then_event_release_restores
           (mkEnv 1000 Scenario.resA Scenario.bus)
           (Routes.mkReserveBody Scenario.orderA Scenario.product 10 (Some 60))
           Scenario.ledger100 w1
           (mkInventory Scenario.entryId Scenario.product "SKU-1" 100 0 100 10)
           r).
  - split; simpl; repeat constructor. intros [].
  - reflexivity.
  - unfold safeEntry, ledgerInvariant, maxSafeInteger. simpl. lia.
  - reflexivity.
Defined.

(** ** The service as a whole, one request after the other *)

Lemma heldFor_app (p : string) (l1 l2 : list ReservationDocument) :
  Service.heldFor p (l1 ++ l2) = Service.heldFor p l1 + Service.heldFor p l2.
Proof.
  induction l1 as [|x l1 IH]; cbn [app Service.heldFor]; [reflexivity|].
  rewrite IH. lia.
Qed.

Lemma heldFor_nonneg (p : string) (rs : list ReservationDocument) :
  (forall r, In r rs -> 1 <= quantity r) -> 0 <= Service.heldFor p rs.
Proof.
  induction rs as [|x rs IH]; cbn [Service.heldFor]; intros H; [lia|].
  pose proof (H x (or_introl eq_refl)).
  assert (0 <= Service.heldFor p rs)
    by (apply IH; intros r Hr; apply H; now right).
  destruct (_ && _); lia.
Qed.

Lemma heldFor_absent (p : string) (rs : list ReservationDocument) :
  ~ In p (map res_productId rs) -> Service.heldFor p rs = 0.
Proof.
  induction rs as [|x rs IH]; cbn [Service.heldFor map]; intros H;
    [reflexivity|].
  rewrite IH by (intros Hin; apply H; now right).
  destruct (String.eqb (res_productId x) p) eqn:E; [|reflexivity].
  apply String.eqb_eq in E. exfalso. apply H. now left.
Qed.

(** Releasing the selected reservations that hold stock takes what they
    held off the quantity held on each product. *)
Lemma heldFor_released (sel : ReservationDocument -> bool) (p : string)
      (rs : list ReservationDocument) :
  Service.heldFor
    p (map (fun x => if sel x && Service.active x
                     then setStatus released x else x) rs)
  = Service.heldFor p rs - Service.heldFor p (filter sel rs).
Proof.
  induction rs as [|x rs IH]; cbn [map filter Service.heldFor];
    [reflexivity|].
  rewrite IH. destruct (sel x); cbn [andb Service.heldFor].
  - destruct (Service.active x) eqn:Ea.
    + unfold Service.active.
      cbn [setStatus status status_eqb orb res_productId quantity].
      rewrite andb_false_r, andb_true_r.
      destruct (String.eqb (res_productId x) p); lia.
    + rewrite Ea. destruct (String.eqb (res_productId x) p); cbn [andb]; lia.
  - destruct (_ && _); lia.
Qed.

(** A rewriting that keeps product, quantity and whether stock is held
    keeps the quantity held on each product. *)
Lemma heldFor_map (h : ReservationDocument -> ReservationDocument)
      (p : string) (rs : list ReservationDocument) :
  (forall x, In x rs ->
             res_productId (h x) = res_productId x
             /\ quantity (h x) = quantity x
             /\ Service.active (h x) = Service.active x) ->
  Service.heldFor p (map h rs) = Service.heldFor p rs.
Proof.
  induction rs as [|x rs IH]; cbn [map Service.heldFor]; intros H;
    [reflexivity|].
  destruct (H x (or_introl eq_refl)) as (-> & -> & ->).
  rewrite IH; [reflexivity|]. intros y Hy. apply H. now right.
Qed.

Lemma filter_by_key (T : Type) (key : T -> string) (k : string) (l : list T) :
  NoDup (map key l) ->
  filter (Db.keyed key k) l
  = match Db.findOne (Db.keyed key k) l with Some d => [d] | None => [] end.
Proof.
  induction l as [|x l IH]; cbn [map filter Db.findOne]; intros Hnd;
    [reflexivity|].
  inversion Hnd as [|? ? Hx Hl]; subst.
  destruct (Db.keyed key k x) eqn:E; [|exact (IH Hl)].
  f_equal. apply filter_none. intros d Hd.
  destruct (Db.keyed key k d) eqn:Ed; [|reflexivity].
  exfalso. apply Hx. unfold Db.keyed in *.
  apply String.eqb_eq in E, Ed. rewrite E, <- Ed. now apply in_map.
Qed.

Lemma inventory_create_inr (d : InventoryDocument)
      (l docs : list InventoryDocument) :
  InventoryRepository.create d l = inr docs ->
  docs = l ++ [d]
  /\ 0 <= available d /\ 0 <= reserved d /\ 0 <= total d
  /\ existsb (InventoryRepository.hasId (inv_id d)) l = false
  /\ existsb (InventoryRepository.hasProductId (productId d)) l = false.
Proof.
  unfold InventoryRepository.create.
  destruct (String.eqb (productId d) ""); [discriminate|].
  destruct (String.eqb (sku d) ""); [discriminate|].
  destruct (available d <? 0) eqn:Ha; [discriminate|].
  destruct (reserved d <? 0) eqn:Hr; [discriminate|].
  destruct (total d <? 0) eqn:Ht; [discriminate|].
  destruct (reorderLevel d <? 0); [discriminate|].
  destruct (existsb (InventoryRepository.hasId (inv_id d)) l);
    [discriminate|].
  destruct (existsb (InventoryRepository.hasProductId (productId d)) l);
    [discriminate|].
  destruct (existsb _ l); [discriminate|].
  intros [= <-]. apply Z.ltb_ge in Ha, Hr, Ht. auto 10.
Qed.

Lemma in_products (p : string) (l : list InventoryDocument) :
  In p (map productId l)
  <-> existsb (InventoryRepository.hasProductId p) l = true.
Proof.
  rewrite in_map_iff, existsb_exists.
  unfold InventoryRepository.hasProductId, Db.keyed.
  split; intros (e & H1 & H2).
  - exists e. split; [exact H2|]. now apply String.eqb_eq.
  - exists e. split; [|exact H1]. now apply String.eqb_eq.
Qed.

(** A new entry with nothing reserved, under a fresh id and for a product
    that had none, keeps the store consistent. *)
Lemma consistent_append (w w' : World) (d : InventoryDocument) :
  Service.consistent w -> reserved d = 0 ->
  existsb (InventoryRepository.hasId (inv_id d)) (inventory w) = false ->
  existsb (InventoryRepository.hasProductId (productId d)) (inventory w) = false ->
  inventory w' = inventory w ++ [d] ->
  reservations w' = reservations w ->
  Service.consistent w'.
Proof.
  intros (Hi & Hp & Hr & Hrs & Hes) Hd Hid Hpid Hinv Hres.
  unfold Service.consistent. rewrite Hinv, Hres.
  split; [now apply unique_after_create|].
  split; [now apply unique_after_create|].
  split; [exact Hr|]. split.
  - eapply Forall_impl; [|exact Hrs]. cbn beta. intros r [Hq Hin].
    split; [exact Hq|]. rewrite map_app. apply in_or_app. now left.
  - apply Forall_app. split; [exact Hes|].
    constructor; [|constructor]. rewrite Hd. symmetry.
    apply heldFor_absent. intros Hin.
    apply in_map_iff in Hin. destruct Hin as (r & Hrp & Hin).
    rewrite Forall_forall in Hrs. destruct (Hrs r Hin) as [_ Hprod].
    rewrite Hrp in Hprod. apply in_products in Hprod. congruence.
Qed.

(** An update that leaves ids, products and [reserved] alone keeps the
    store consistent. *)
Lemma consistent_update (w w' : World) (f : InventoryDocument -> bool)
      (u : InventoryDocument -> InventoryDocument) :
  Service.consistent w ->
  (forall d, inv_id (u d) = inv_id d /\ productId (u d) = productId d
             /\ reserved (u d) = reserved d) ->
  inventory w' = fst (Db.findOneAndUpdate f u (inventory w)) ->
  reservations w' = reservations w ->
  Service.consistent w'.
Proof.
  intros (Hi & Hp & Hr & Hrs & Hes) Hu Hinv Hres.
  unfold Service.consistent. rewrite Hinv, Hres.
  rewrite !update_keeps_keys by (intros d; apply Hu).
  split; [exact Hi|]. split; [exact Hp|]. split; [exact Hr|].
  split; [exact Hrs|].
  apply update_keeps; [exact Hes|].
  intros d _ Hd. destruct (Hu d) as (_ & -> & ->). exact Hd.
Qed.

(** A write of the counters of one entry together with a change of the
    reservations that moves the quantity held on that entry's product by
    the same amount keeps the store consistent. *)
Lemma consistent_counters (w w' : World) (item : InventoryDocument)
      (u : InventoryUpdate) (delta : Z) :
  Service.consistent w -> In item (inventory w) ->
  u_reserved u = Some (reserved item + delta) ->
  inventory w'
  = fst (InventoryRepository.updateById (inv_id item) u (inventory w)) ->
  NoDup (map res_id (reservations w')) ->
  Forall (fun r => 1 <= quantity r
                   /\ In (res_productId r) (map productId (inventory w)))
         (reservations w') ->
  (forall p, Service.heldFor p (reservations w')
             = Service.heldFor p (reservations w)
               + (if String.eqb (productId item) p then delta else 0)) ->
  Service.consistent w'.
Proof.
  intros (Hi & Hp & Hr & Hrs & Hes) Hin Hu Hinv Hr' Hrs' Hheld.
  unfold Service.consistent. rewrite Hinv.
  unfold InventoryRepository.updateById.
  rewrite !update_keeps_keys by reflexivity.
  split; [exact Hi|]. split; [exact Hp|]. split; [exact Hr'|].
  split; [exact Hrs'|].
  unfold InventoryRepository.hasId. rewrite update_by_key by exact Hi.
  apply Forall_map. apply Forall_forall. intros e He.
  rewrite Forall_forall in Hes. specialize (Hes e He).
  rewrite Hheld.
  destruct (Db.keyed inv_id (inv_id item) e) eqn:Ek.
  - apply String.eqb_eq in Ek.
    assert (e = item) by (now apply (@unique_key _ inv_id (inventory w))).
    subst e. cbn [applyInventoryUpdate productId reserved].
    rewrite Hu, String.eqb_refl. cbn [orElse]. lia.
  - destruct (String.eqb (productId item) (productId e)) eqn:Ep;
      [|lia].
    apply String.eqb_eq in Ep.
    assert (item = e) by (now apply (@unique_key _ productId (inventory w))).
    subst e. unfold Db.keyed in Ek. rewrite String.eqb_refl in Ek.
    discriminate.
Qed.

(** A rewriting of the reservations that keeps ids, products, quantities
    and whether stock is held keeps the store consistent. *)
Lemma consistent_rewrite (w w' : World)
      (h : ReservationDocument -> ReservationDocument) :
  Service.consistent w ->
  (forall x, In x (reservations w) ->
             res_id (h x) = res_id x
             /\ res_productId (h x) = res_productId x
             /\ quantity (h x) = quantity x
             /\ Service.active (h x) = Service.active x) ->
  inventory w' = inventory w ->
  reservations w' = map h (reservations w) ->
  Service.consistent w'.
Proof.
  intros (Hi & Hp & Hr & Hrs & Hes) Hh Hinv Hres.
  unfold Service.consistent. rewrite Hinv, Hres.
  split; [exact Hi|]. split; [exact Hp|]. split; [|split].
  - rewrite map_map. erewrite map_ext_in; [exact Hr|].
    intros x Hx. apply (Hh x Hx).
  - apply Forall_map. apply Forall_forall. intros x Hx.
    rewrite Forall_forall in Hrs. destruct (Hh x Hx) as (_ & -> & -> & _).
    exact (Hrs x Hx).
  - eapply Forall_impl; [|exact Hes]. cbn beta. intros e He.
    rewrite heldFor_map; [exact He|].
    intros x Hx. destruct (Hh x Hx) as (_ & H1 & H2 & H3). auto.
Qed.

(** Releasing the selected reservations that hold stock, and giving back
    on every entry what they held on its product, keeps the store
    consistent. *)
Lemma consistent_released (w w' : World) (sel : ReservationDocument -> bool) :
  Service.consistent w ->
  reservations w'
  = map (fun x => if sel x && Service.active x
                  then setStatus released x else x) (reservations w) ->
  inventory w'
  = map (fun e =>
           InventoryRepository.inc
             (Service.heldFor (productId e) (filter sel (reservations w)))
             (- Service.heldFor (productId e) (filter sel (reservations w)))
             0 e)
        (inventory w) ->
  Service.consistent w'.
Proof.
  intros (Hi & Hp & Hr & Hrs & Hes) Hres Hinv.
  unfold Service.consistent. rewrite Hinv, Hres. rewrite !map_map.
  cbn [InventoryRepository.inc inv_id productId].
  split; [exact Hi|]. split; [exact Hp|]. split; [|split].
  - erewrite map_ext; [exact Hr|].
    intros x. destruct (_ && _); reflexivity.
  - apply Forall_map. eapply Forall_impl; [|exact Hrs]. cbn beta.
    intros x Hx. destruct (_ && _); exact Hx.
  - apply Forall_map. eapply Forall_impl; [|exact Hes]. cbn beta.
    intros e He. cbn [InventoryRepository.inc productId reserved].
    rewrite heldFor_released, He. lia.
Qed.

Lemma product_has_entry (p : string) (l : list InventoryDocument) :
  In p (map productId l) ->
  exists item, InventoryRepository.findByProductId p l = Some item.
Proof.
  intros Hin. unfold InventoryRepository.findByProductId.
  destruct (Db.findOne (InventoryRepository.hasProductId p) l) as [item|] eqn:E;
    [now exists item|].
  apply in_map_iff in Hin. destruct Hin as (e & He & Hin).
  pose proof (findOne_None _ _ E e Hin) as Hk.
  unfold InventoryRepository.hasProductId, Db.keyed in Hk.
  rewrite He, String.eqb_refl in Hk. discriminate.
Qed.

Lemma consistent_reserve (env : Env) (b : Routes.ReserveBody) (w : World) :
  Service.consistent w ->
  Service.consistent (fst (Routes.reserveRoute env b w)).
Proof.
  intros Hc. rewrite reserveRoute_unfold.
  destruct (Routes.reserveInventorySchema b) as [d|]; [|exact Hc].
  destruct (InventoryRepository.findByProductId _ _) as [item|] eqn:Hitem;
    [|exact Hc].
  destruct (available item <? Routes.rd_quantity d); [exact Hc|].
  cbv zeta.
  destruct (ReservationRepository.create _ _) as [err|docs] eqn:Hcr;
    [exact Hc|].
  cbn [fst].
  unfold ReservationRepository.create in Hcr. cbn [quantity res_id] in Hcr.
  destruct (Routes.rd_quantity d <? 1) eqn:Hq; [discriminate|].
  destruct (existsb _ (reservations w)) eqn:Hfresh; [discriminate|].
  injection Hcr as <-. apply Z.ltb_ge in Hq.
  apply findOne_In in Hitem. destruct Hitem as [Hin Hkey].
  unfold InventoryRepository.hasProductId, Db.keyed in Hkey.
  apply String.eqb_eq in Hkey.
  pose proof Hc as (_ & _ & Hr & Hrs & _).
  apply consistent_counters
    with (w := w) (item := item)
         (u := mkInvUpdate (Some (available item - Routes.rd_quantity d))
                           (Some (reserved item + Routes.rd_quantity d))
                           None None)
         (delta := Routes.rd_quantity d);
    cbn [inventory reservations u_reserved]; auto.
  - now apply unique_after_create.
  - apply Forall_app. split; [exact Hrs|].
    constructor; [|constructor]. cbn [quantity res_productId].
    split; [exact Hq|]. rewrite <- Hkey. now apply in_map.
  - intros p. rewrite heldFor_app. cbn [Service.heldFor res_productId quantity].
    unfold Service.active. cbn [status status_eqb orb].
    rewrite andb_true_r, Hkey. destruct (String.eqb _ p); lia.
Qed.

(** Every request served on its own keeps the store consistent. *)
Lemma serve_keeps_consistent (rq : Service.Request) (w : World) :
  Service.consistent w -> Service.consistent (Service.serve rq w).
Proof.
  intros Hc.
  destruct rq as [env b|id b|env b|env id|env e|order|order st|now];
    cbn [Service.serve].
  - unfold Routes.createInventoryRoute, Routes.createInventoryHandler.
    destruct (Routes.createInventorySchema b); [|exact Hc].
    destruct (InventoryRepository.findByProductId _ _); [exact Hc|].
    destruct (InventoryRepository.create _ _) as [err|docs] eqn:E; [exact Hc|].
    cbn [fst]. apply inventory_create_inr in E.
    destruct E as (-> & _ & _ & _ & Hid & Hpid).
    eapply consistent_append;
      [exact Hc| |exact Hid|exact Hpid|reflexivity|reflexivity].
    reflexivity.
  - rewrite updateInventoryRoute_cases. exact Hc.
  - now apply consistent_reserve.
  - rewrite releaseRoute_throws. exact Hc.
  - unfold Consumers.onProductCreated.
    destruct (InventoryRepository.create _ _) as [err|docs] eqn:E; [exact Hc|].
    apply inventory_create_inr in E.
    destruct E as (-> & _ & _ & _ & Hid & Hpid).
    eapply consistent_append;
      [exact Hc| |exact Hid|exact Hpid|reflexivity|reflexivity].
    reflexivity.
  - pose proof Hc as (_ & _ & Hnd & _). unfold Consumers.onOrderCreated.
    eapply consistent_rewrite;
      [exact Hc| |apply confirmLoop_keeps_rest
      |apply confirmLoop_reservations; exact Hnd].
    intros x Hx. cbn beta.
    unfold ReservationRepository.findByOrderId, Db.findAll.
    rewrite (selected_by_id (fun r => String.eqb (orderId r) order)
                            (fun r => status_eqb (status r) pending)
                            (reservations w) x Hnd Hx).
    destruct (String.eqb (orderId x) order); cbn [andb]; auto.
    destruct (status_eqb (status x) pending) eqn:Hp; auto.
    unfold Service.active. rewrite Hp. auto.
  - pose proof Hc as (_ & Hp & Hnd & _). unfold Consumers.onOrderUpdated.
    destruct (String.eqb st "cancelled"); [|exact Hc].
    apply consistent_released
      with (w := w) (sel := fun r => String.eqb (orderId r) order);
      [exact Hc| |exact (proj1 (cancelLoop_inventory _ w Hp))].
    rewrite cancelLoop_reservations by exact Hnd.
    apply map_ext_in. intros x Hx.
    unfold ReservationRepository.findByOrderId, Db.findAll.
    now rewrite (selected_by_id
                   (fun r => String.eqb (orderId r) order)
                   (fun r => status_eqb (status r) pending
                             || status_eqb (status r) confirmed)
                   (reservations w) x Hnd Hx).
  - pose proof Hc as (_ & Hp & Hnd & _). unfold Consumers.sweeperTick.
    assert (Hactive : Forall (fun r => Service.active r = true)
                             (ReservationRepository.findExpired
                                now (reservations w))).
    { apply Forall_forall. intros r Hin.
      unfold ReservationRepository.findExpired, Db.findAll in Hin.
      apply filter_In in Hin. destruct Hin as [_ Hf].
      apply andb_true_iff in Hf. destruct Hf as [Hf _].
      unfold Service.active. now rewrite Hf. }
    apply consistent_released
      with (w := w)
           (sel := fun r => status_eqb (status r) pending
                            && (expiresAt r <? now));
      [exact Hc| |exact (proj1 (sweepLoop_inventory w Hactive Hp))].
    rewrite sweepLoop_reservations by exact Hnd.
    apply map_ext_in. intros x Hx.
    unfold ReservationRepository.findExpired, Db.findAll.
    rewrite (selected_by_id
               (fun r => status_eqb (status r) pending && (expiresAt r <? now))
               (fun _ => true) (reservations w) x Hnd Hx).
    unfold Service.active.
    destruct (status_eqb (status x) pending); reflexivity.
Qed.

Lemma serve_keeps_balance (rq : Service.Request) (w : World) :
  NoDup (map inv_id (inventory w)) ->
  Forall balanced (inventory w) ->
  Forall balanced (inventory (Service.serve rq w)).
Proof.
  intros Hnd Hl.
  destruct rq as [env b|id b|env b|env id|env e|order|order st|now];
    cbn [Service.serve].
  - now apply balance_kept_by_create.
  - rewrite updateInventoryRoute_cases. exact Hl.
  - now apply balance_kept_by_reserve.
  - rewrite releaseRoute_throws. exact Hl.
  - apply (@balance_kept_by_consumers env e "" "" 0 w Hl).
  - unfold Consumers.onOrderCreated.
    now rewrite (proj1 (confirmLoop_keeps_rest _ w)).
  - apply (@balance_kept_by_consumers (mkEnv 0 "" None)
             (Consumers.mkProductCreated "" "" 0) order st 0 w Hl).
  - apply (@balance_kept_by_consumers (mkEnv 0 "" None)
             (Consumers.mkProductCreated "" "" 0) "" "" now w Hl).
Qed.

(** What a release loop gives back keeps a property of the entries that the
    [$inc] of [release] keeps for every quantity of at least zero. *)
Lemma released_keeps (P : InventoryDocument -> Prop)
      (found : list ReservationDocument) (l : list InventoryDocument) :
  (forall e q, 0 <= q -> P e -> P (InventoryRepository.inc q (- q) 0 e)) ->
  (forall r, In r found -> 1 <= quantity r) ->
  Forall P l ->
  Forall P (map (fun e => InventoryRepository.inc
                            (Service.heldFor (productId e) found)
                            (- Service.heldFor (productId e) found) 0 e) l).
Proof.
  intros HP Hq Hl. apply Forall_map. eapply Forall_impl; [|exact Hl]. cbn beta.
  intros e He. apply HP; [|exact He]. now apply heldFor_nonneg.
Qed.

(** A property of the entries that holds of every created entry the
    request allows, and that the writes of the reserve and of the releases
    keep, is kept by every request served on its own. *)
Lemma serve_keeps_entries (P : InventoryDocument -> Prop)
      (rq : Service.Request) (w : World) :
  (forall i p s t r, 0 <= t -> t <= maxSafeInteger ->
                     P (mkInventory i p s t 0 t r)) ->
  (forall e q, 0 <= q <= available e -> P e ->
               P (applyInventoryUpdate
                    (mkInvUpdate (Some (available e - q))
                                 (Some (reserved e + q)) None None) e)) ->
  (forall e q, 0 <= q -> P e -> P (InventoryRepository.inc q (- q) 0 e)) ->
  Service.consistent w -> Service.inRange rq = true ->
  Forall P (inventory w) ->
  Forall P (inventory (Service.serve rq w)).
Proof.
  intros Hnew Hres Hrel Hc Hk Hl. pose proof Hc as (Hi & Hp & Hnd & Hrs & _).
  rewrite Forall_forall in Hrs.
  destruct rq as [env b|id b|env b|env id|env e|order|order st|now];
    cbn [Service.serve Service.inRange] in *.
  - unfold Routes.createInventoryRoute, Routes.createInventoryHandler.
    destruct (Routes.createInventorySchema b); [|exact Hl].
    destruct (InventoryRepository.findByProductId _ _); [exact Hl|].
    destruct (InventoryRepository.create _ _) as [err|docs] eqn:E; [exact Hl|].
    cbn [fst set_inventory inventory]. apply inventory_create_inr in E.
    destruct E as (-> & Ha & _). apply Forall_app. split; [exact Hl|].
    cbn [available] in Ha. apply Z.leb_le in Hk.
    constructor; [now apply Hnew|constructor].
  - rewrite updateInventoryRoute_cases. exact Hl.
  - rewrite reserveRoute_unfold.
    destruct (Routes.reserveInventorySchema b) as [d|] eqn:Hs; [|exact Hl].
    destruct (reserveInventorySchema_ok b Hs) as (_ & _ & _ & H1 & _).
    destruct (InventoryRepository.findByProductId _ _) as [item|] eqn:Hitem;
      [|exact Hl].
    destruct (available item <? Routes.rd_quantity d) eqn:Hlt; [exact Hl|].
    cbv zeta.
    destruct (ReservationRepository.create _ _) as [err|docs]; [exact Hl|].
    cbn [fst inventory]. apply Z.ltb_ge in Hlt.
    apply findOne_In in Hitem. destruct Hitem as [Hin _].
    apply update_found_keeps with (d := item); [|exact Hl|].
    + exact (findOne_by_key inv_id (inventory w) item Hi Hin).
    + rewrite Forall_forall in Hl. apply Hres; [lia|now apply Hl].
  - rewrite releaseRoute_throws. exact Hl.
  - unfold Consumers.onProductCreated.
    destruct (InventoryRepository.create _ _) as [err|docs] eqn:E; [exact Hl|].
    cbn [set_inventory inventory]. apply inventory_create_inr in E.
    destruct E as (-> & Ha & _). apply Forall_app. split; [exact Hl|].
    cbn [available] in Ha. apply Z.leb_le in Hk.
    constructor; [now apply Hnew|constructor].
  - unfold Consumers.onOrderCreated.
    now rewrite (proj1 (confirmLoop_keeps_rest _ w)).
  - unfold Consumers.onOrderUpdated.
    destruct (String.eqb st "cancelled"); [|exact Hl].
    rewrite (proj1 (cancelLoop_inventory _ w Hp)).
    apply released_keeps; [exact Hrel| |exact Hl].
    intros r Hr. unfold ReservationRepository.findByOrderId, Db.findAll in Hr.
    apply filter_In in Hr. apply (Hrs r (proj1 Hr)).
  - unfold Consumers.sweeperTick.
    assert (Hactive : Forall (fun r => Service.active r = true)
                             (ReservationRepository.findExpired
                                now (reservations w))).
    { apply Forall_forall. intros r Hin.
      unfold ReservationRepository.findExpired, Db.findAll in Hin.
      apply filter_In in Hin. destruct Hin as [_ Hf].
      apply andb_true_iff in Hf. destruct Hf as [Hf _].
      unfold Service.active. now rewrite Hf. }
    rewrite (proj1 (sweepLoop_inventory w Hactive Hp)).
    apply released_keeps; [exact Hrel| |exact Hl].
    intros r Hr. unfold ReservationRepository.findExpired, Db.findAll in Hr.
    apply filter_In in Hr. apply (Hrs r (proj1 Hr)).
Qed.

(** Requests within range, served one after the other from a consistent
    store whose entries satisfy the invariant with totals within range,
    leave such a store. *)
Lemma serveAll_keeps (rqs : list Service.Request) (w : World) :
  Service.consistent w -> Forall safeEntry (inventory w) ->
  forallb Service.inRange rqs = true ->
  Service.consistent (Service.serveAll rqs w)
  /\ Forall safeEntry (inventory (Service.serveAll rqs w)).
Proof.
  revert w. induction rqs as [|rq rqs IH]; intros w Hc Hs Hk;
    cbn [Service.serveAll forallb] in *.
  - auto.
  - apply andb_true_iff in Hk. destruct Hk as [Hk Hks].
    pose proof (serve_keeps_consistent rq Hc) as Hc'.
    apply IH; [exact Hc'| |exact Hks].
    assert (Hb : Forall balanced (inventory (Service.serve rq w))).
    { apply serve_keeps_balance; [apply Hc|].
      eapply Forall_impl; [|exact Hs]. intros e He. apply He. }
    assert (Hat : Forall (fun e => 0 <= available e
                                   /\ total e <= maxSafeInteger)
                         (inventory (Service.serve rq w))).
    { apply serve_keeps_entries; try assumption.
      - intros i p s t r H0 Ht. cbn [available total]. auto.
      - intros e q Hq [Ha Ht].
        cbn [applyInventoryUpdate available total u_available u_total orElse].
        split; [lia|exact Ht].
      - intros e q Hq [Ha Ht]. cbn [InventoryRepository.inc available total].
        split; lia.
      - eapply Forall_impl; [|exact Hs]. intros e [(_ & Ha & _) Ht]. auto. }
    destruct Hc' as (_ & _ & _ & Hrs & Hes).
    rewrite Forall_forall in *. intros e He.
    destruct (Hat e He) as [Ha Ht]. pose proof (Hb e He) as Hbal.
    assert (0 <= reserved e).
    { rewrite (Hes e He). apply heldFor_nonneg.
      intros r Hr. apply (Hrs r Hr). }
    unfold safeEntry, ledgerInvariant. unfold balanced in Hbal. auto.
Qed.

(** X11.  Requests, events and sweeper turns served one after the other keep
    the books of the inventory service, for stocks within
    [Number.MAX_SAFE_INTEGER]: ids and products stay unique, every
    reservation is for at least one unit of a product that has an entry,
    and on every entry [reserved] is exactly the quantity of the pending
    and confirmed reservations of its product, is not negative, and adds
    up with [available] to a [total] that is still within range. *)
Theorem sequential_service_keeps_books
        (rqs : list Service.Request) (w : World) :
  Service.consistent w ->
  Forall safeEntry (inventory w) ->
  forallb Service.inRange rqs = true ->
  Service.consistent (Service.serveAll rqs w)
  /\ Forall (fun e =>
               reserved e
               = Service.heldFor (productId e)
                                 (reservations (Service.serveAll rqs w))
               /\ 0 <= reserved e
               /\ available e + reserved e = total e
               /\ total e <= maxSafeInteger)
            (inventory (Service.serveAll rqs w)).
Proof.
  intros Hc Hs Hk. destruct (serveAll_keeps rqs Hc Hs Hk) as (Hc' & Hs').
  split; [exact Hc'|].
  destruct Hc' as (_ & _ & _ & _ & Hes).
  rewrite Forall_forall in *. intros e He.
  destruct (Hs' e He) as [(Hbal & _ & Hr) Ht].
  split; [exact (Hes e He)|]. auto.
Qed.

Lemma sequential_service_keeps_books_witness :
  Service.consistent (Service.serveAll Scenario.day Scenario.emptyWorld)
  /\ Forall (fun e =>
               reserved e
               = Service.heldFor
                   (productId e)
                   (reservations
                      (Service.serveAll Scenario.day Scenario.emptyWorld))
               /\ 0 <= reserved e
               /\ available e + reserved e = total e
               /\ total e <= maxSafeInteger)
            (inventory (Service.serveAll Scenario.day Scenario.emptyWorld)).
Proof.
  apply (@sequential_service_keeps_books Scenario.day Scenario.emptyWorld).
  - unfold Service.consistent. simpl. repeat split; constructor.
  - constructor.
  - reflexivity.
Defined.

(** X12.  Requests, events and sweeper turns served one after the other
    never oversell, for stocks within [Number.MAX_SAFE_INTEGER]: every
    entry keeps [available + reserved = total] with neither counter
    negative, so that the pending and confirmed reservations of a product
    never hold more than its [total], and what they hold and what is
    available add up to it. *)
Theorem sequential_service_never_oversells
        (rqs : list Service.Request) (w : World) :
  Service.consistent w ->
  Forall safeEntry (inventory w) ->
  forallb Service.inRange rqs = true ->
  Forall (fun e =>
            ledgerInvariant e
            /\ Service.heldFor (productId e)
                               (reservations (Service.serveAll rqs w))
               <= total e
            /\ available e
               + Service.heldFor (productId e)
                                 (reservations (Service.serveAll rqs w))
               = total e)
         (inventory (Service.serveAll rqs w)).
Proof.
  intros Hc Hs Hk. destruct (serveAll_keeps rqs Hc Hs Hk) as (Hc' & Hs').
  destruct Hc' as (_ & _ & _ & _ & Hes).
  rewrite Forall_forall in *. intros e He.
  destruct (Hs' e He) as [Hinv _]. pose proof (Hes e He) as Hheld.
  split; [exact Hinv|]. destruct Hinv as (Hbal & Ha & Hr).
  rewrite <- Hheld. lia.
Qed.

Lemma sequential_service_never_oversells_witness :
  Forall (fun e =>
            ledgerInvariant e
            /\ Service.heldFor
                 (productId e)
                 (reservations
                    (Service.serveAll Scenario.day Scenario.emptyWorld))
               <= total e
            /\ available e
               + Service.heldFor
                   (productId e)
                   (reservations
                      (Service.serveAll Scenario.day Scenario.emptyWorld))
               = total e)
         (inventory (Service.serveAll Scenario.day Scenario.emptyWorld)).
Proof.
  apply (@sequential_service_never_oversells Scenario.day Scenario.emptyWorld).
  - unfold Service.consistent. simpl. repeat split; constructor.
  - constructor.
  - reflexivity.
Defined.

(** ** The queries of the inventory repository *)

Lemma insertByAvailable_perm (d : InventoryDocument)
      (l : list InventoryDocument) :
  Permutation (InventoryRepository.insertByAvailable d l) (d :: l).
Proof.
  induction l as [|x l IH]; cbn [InventoryRepository.insertByAvailable];
    [apply Permutation_refl|].
  destruct (available d <=? available x); [apply Permutation_refl|].
  apply Permutation_trans with (x :: d :: l);
    [now apply perm_skip|apply perm_swap].
Qed.

Lemma sortByAvailable_perm (l : list InventoryDocument) :
  Permutation (InventoryRepository.sortByAvailable l) l.
Proof.
  unfold InventoryRepository.sortByAvailable.
  induction l as [|x l IH]; cbn [fold_right]; [apply Permutation_refl|].
  apply Permutation_trans with (x :: fold_right
                                       InventoryRepository.insertByAvailable
                                       [] l);
    [apply insertByAvailable_perm|now apply perm_skip].
Qed.

Lemma insertByAvailable_sorted (d : InventoryDocument)
      (l : list InventoryDocument) :
  Sorted (fun a b => available a <= available b) l ->
  Sorted (fun a b => available a <= available b)
         (InventoryRepository.insertByAvailable d l).
Proof.
  induction l as [|x l IH]; cbn [InventoryRepository.insertByAvailable];
    intros Hs.
  - repeat constructor.
  - destruct (available d <=? available x) eqn:E.
    + apply Z.leb_le in E. constructor; [exact Hs|now constructor].
    + apply Z.leb_gt in E. inversion Hs as [|? ? Hl Hhd]; subst.
      constructor; [now apply IH|].
      destruct l as [|y l]; cbn [InventoryRepository.insertByAvailable].
      * constructor. lia.
      * inversion Hhd; subst.
        destruct (available d <=? available y); constructor; lia.
Qed.

Lemma sortByAvailable_sorted (l : list InventoryDocument) :
  StronglySorted (fun a b => available a <= available b)
                 (InventoryRepository.sortByAvailable l).
Proof.
  apply Sorted_StronglySorted; [intros a b c; lia|].
  unfold InventoryRepository.sortByAvailable.
  induction l as [|x l IH]; cbn [fold_right]; [constructor|].
  now apply insertByAvailable_sorted.
Qed.

(** X13.  The low-stock report lists exactly the entries whose [available]
    is at most their [reorderLevel], each as often as it is stored, in
    ascending order of [available]. *)
Theorem low_stock_report (docs : list InventoryDocument) :
  Permutation (InventoryRepository.findLowStock docs)
              (filter InventoryRepository.isLowStock docs)
  /\ StronglySorted (fun a b => available a <= available b)
                    (InventoryRepository.findLowStock docs)
  /\ forall d, In d (InventoryRepository.findLowStock docs)
               <-> In d docs /\ available d <= reorderLevel d.
Proof.
  unfold InventoryRepository.findLowStock, Db.findAll.
  split; [apply sortByAvailable_perm|].
  split; [apply sortByAvailable_sorted|].
  intros d. split.
  - intros Hin.
    apply (Permutation_in _ (sortByAvailable_perm _)) in Hin.
    apply filter_In in Hin. destruct Hin as [Hin Hlow].
    split; [exact Hin|]. now apply Z.leb_le.
  - intros [Hin Hlow].
    apply (Permutation_in _ (Permutation_sym (sortByAvailable_perm _))).
    apply filter_In. split; [exact Hin|]. now apply Z.leb_le.
Qed.

Lemma sumOf_indicator (f : InventoryDocument -> bool)
      (l : list InventoryDocument) :
  InventoryRepository.sumOf (fun d => if f d then 1 else 0) l
  = Z.of_nat (List.length (filter f l)).
Proof.
  unfold InventoryRepository.sumOf.
  induction l as [|x l IH]; cbn [fold_right filter]; [reflexivity|].
  rewrite IH. destruct (f x); cbn [List.length]; lia.
Qed.

Lemma sumOf_nonneg (f : InventoryDocument -> Z) (l : list InventoryDocument) :
  Forall (fun d => 0 <= f d) l -> 0 <= InventoryRepository.sumOf f l.
Proof.
  induction 1 as [|d l Hd _ IH]; cbn [InventoryRepository.sumOf fold_right];
    [lia|].
  unfold InventoryRepository.sumOf in IH. lia.
Qed.

Lemma sumOf_balanced (l : list InventoryDocument) :
  Forall balanced l ->
  InventoryRepository.sumOf available l + InventoryRepository.sumOf reserved l
  = InventoryRepository.sumOf total l.
Proof.
  unfold InventoryRepository.sumOf.
  induction 1 as [|x l Hx _ IH]; cbn [fold_right]; [reflexivity|].
  unfold balanced in Hx. lia.
Qed.

(** X14.  The statistics of the repository count every entry, count as low
    on stock exactly the entries the low-stock report lists, and, on a
    collection whose entries satisfy the ledger invariant and whose totals
    add up to at most [Number.MAX_SAFE_INTEGER], report a stock and a
    reserved quantity that are within that range and add up to the sum of
    the totals; for an empty collection all four numbers are zero. *)
Theorem inventory_stats_agree (docs : list InventoryDocument) :
  Forall ledgerInvariant docs ->
  InventoryRepository.sumOf total docs <= maxSafeInteger ->
  InventoryRepository.totalItems (InventoryRepository.getInventoryStats docs)
  = Z.of_nat (List.length docs)
  /\ InventoryRepository.lowStockCount
       (InventoryRepository.getInventoryStats docs)
     = Z.of_nat (List.length (InventoryRepository.findLowStock docs))
  /\ InventoryRepository.lowStockCount
       (InventoryRepository.getInventoryStats docs)
     <= InventoryRepository.totalItems
          (InventoryRepository.getInventoryStats docs)
  /\ InventoryRepository.totalStock
       (InventoryRepository.getInventoryStats docs)
     + InventoryRepository.totalReserved
         (InventoryRepository.getInventoryStats docs)
     = InventoryRepository.sumOf total docs
  /\ 0 <= InventoryRepository.totalStock
            (InventoryRepository.getInventoryStats docs)
       <= maxSafeInteger
  /\ 0 <= InventoryRepository.totalReserved
            (InventoryRepository.getInventoryStats docs)
       <= maxSafeInteger
  /\ (docs = [] ->
      InventoryRepository.getInventoryStats docs
      = InventoryRepository.mkStats 0 0 0 0).
Proof.
  intros Hl Hmax.
  assert (Hb : Forall balanced docs)
    by (eapply Forall_impl; [|exact Hl]; intros e He; apply He).
  assert (Ha : 0 <= InventoryRepository.sumOf available docs)
    by (apply sumOf_nonneg; eapply Forall_impl; [|exact Hl];
        intros e He; apply He).
  assert (Hr : 0 <= InventoryRepository.sumOf reserved docs)
    by (apply sumOf_nonneg; eapply Forall_impl; [|exact Hl];
        intros e He; apply He).
  pose proof (sumOf_balanced Hb) as Hsum.
  assert (Hlen : Z.of_nat (List.length (InventoryRepository.findLowStock docs))
                 = Z.of_nat (List.length
                               (filter InventoryRepository.isLowStock docs))).
  { unfold InventoryRepository.findLowStock, Db.findAll.
    now rewrite (Permutation_length (sortByAvailable_perm _)). }
  rewrite Hlen.
  pose proof (filter_length_le InventoryRepository.isLowStock docs) as Hle.
  destruct docs as [|x l].
  - cbn. unfold maxSafeInteger. repeat split; auto; lia.
  - cbn [InventoryRepository.getInventoryStats
           InventoryRepository.totalItems InventoryRepository.lowStockCount
           InventoryRepository.totalStock InventoryRepository.totalReserved].
    rewrite sumOf_indicator.
    split; [reflexivity|]. split; [reflexivity|]. split; [lia|].
    split; [exact Hsum|]. split; [lia|]. split; [lia|discriminate].
Qed.

Lemma inventory_stats_agree_witness :
  let docs := inventory (Service.serveAll (firstn 6 Scenario.day)
                                          Scenario.emptyWorld) in
  InventoryRepository.totalItems (InventoryRepository.getInventoryStats docs)
  = Z.of_nat (List.length docs)
  /\ InventoryRepository.lowStockCount
       (InventoryRepository.getInventoryStats docs)
     = Z.of_nat (List.length (InventoryRepository.findLowStock docs))
  /\ InventoryRepository.lowStockCount
       (InventoryRepository.getInventoryStats docs)
     <= InventoryRepository.totalItems
          (InventoryRepository.getInventoryStats docs)
  /\ InventoryRepository.totalStock
       (InventoryRepository.getInventoryStats docs)
     + InventoryRepository.totalReserved
         (InventoryRepository.getInventoryStats docs)
     = InventoryRepository.sumOf total docs
  /\ 0 <= InventoryRepository.totalStock
            (InventoryRepository.getInventoryStats docs)
       <= maxSafeInteger
  /\ 0 <= InventoryRepository.totalReserved
            (InventoryRepository.getInventoryStats docs)
       <= maxSafeInteger
  /\ (docs = [] ->
      InventoryRepository.getInventoryStats docs
      = InventoryRepository.mkStats 0 0 0 0).
Proof.
  intros docs. apply (@inventory_stats_agree docs).
  - unfold docs. simpl. repeat constructor; simpl; lia.
  - unfold docs. vm_compute. discriminate.
Defined.

(** ** The maintenance operations of the reservation repository *)

Lemma heldFor_filter (keep : ReservationDocument -> bool) (p : string)
      (rs : list ReservationDocument) :
  (forall r, In r rs -> keep r = false -> Service.active r = false) ->
  Service.heldFor p (filter keep rs) = Service.heldFor p rs.
Proof.
  induction rs as [|x rs IH]; cbn [filter Service.heldFor]; intros H;
    [reflexivity|].
  assert (IH' : Service.heldFor p (filter keep rs) = Service.heldFor p rs)
    by (apply IH; intros r Hr; apply H; now right).
  destruct (keep x) eqn:Ek; cbn [Service.heldFor].
  - now rewrite IH'.
  - rewrite (H x (or_introl eq_refl) Ek), andb_false_r, IH'. reflexivity.
Qed.

Lemma deleteMany_spec (T : Type) (f : T -> bool) (docs : list T) :
  (forall r, In r (fst (Db.deleteMany f docs)) <-> In r docs /\ f r = false)
  /\ snd (Db.deleteMany f docs)
     = Z.of_nat (List.length docs)
       - Z.of_nat (List.length (fst (Db.deleteMany f docs)))
  /\ Db.deleteMany f (fst (Db.deleteMany f docs))
     = (fst (Db.deleteMany f docs), 0).
Proof.
  unfold Db.deleteMany. cbn [fst snd]. split; [|split].
  - intros r. rewrite filter_In, negb_true_iff. reflexivity.
  - induction docs as [|x l IH]; cbn [filter List.length]; [reflexivity|].
    destruct (f x); cbn [negb List.length]; lia.
  - f_equal.
    + apply forallb_filter_id. apply forallb_forall. intros r Hr.
      apply filter_In in Hr. apply Hr.
    + rewrite filter_none; [reflexivity|]. intros r Hr.
      apply filter_In in Hr. now apply negb_true_iff.
Qed.

(** X15.  The clean-up of the reservation collection deletes exactly the
    released reservations that expired more than a day before [now] and
    returns their number.  No pending or confirmed reservation is ever
    deleted, so the quantity held on each product is what it was, and a
    second clean-up at the same time deletes nothing. *)
Theorem cleanup_deletes_only_old_released
        (now : Z) (docs : list ReservationDocument) :
  (forall r, In r (fst (ReservationRepository.cleanupExpiredReservations
                          now docs))
             <-> In r docs
                 /\ ~ (status r = released /\ expiresAt r < now - 86400000))
  /\ snd (ReservationRepository.cleanupExpiredReservations now docs)
     = Z.of_nat (List.length docs)
       - Z.of_nat (List.length
                     (fst (ReservationRepository.cleanupExpiredReservations
                             now docs)))
  /\ (forall p,
         Service.heldFor
           p (fst (ReservationRepository.cleanupExpiredReservations now docs))
         = Service.heldFor p docs)
  /\ ReservationRepository.cleanupExpiredReservations
       now (fst (ReservationRepository.cleanupExpiredReservations now docs))
     = (fst (ReservationRepository.cleanupExpiredReservations now docs), 0).
Proof.
  unfold ReservationRepository.cleanupExpiredReservations.
  match goal with
  | |- context [Db.deleteMany ?f docs] =>
      destruct (deleteMany_spec f docs) as (Hin & Hcount & Hagain);
      assert (Hold : forall r, f r = true
                               <-> status r = released
                                   /\ expiresAt r < now - 86400000)
  end.
  { intros r. unfold ReservationRepository.dayMs.
    rewrite andb_true_iff, Z.ltb_lt.
    destruct (status r); cbn [status_eqb];
      intuition (try discriminate; lia). }
  split; [|split; [|split]].
  - intros r. rewrite Hin, <- Hold.
    destruct (_ && _); intuition congruence.
  - exact Hcount.
  - intros p. unfold Db.deleteMany. cbn [fst].
    apply heldFor_filter. intros r _ Hr.
    apply negb_false_iff, Hold in Hr. destruct Hr as [Hr _].
    unfold Service.active. now rewrite Hr.
  - exact Hagain.
Qed.



(** ** The guarded reserve of the repository, request after request *)

Lemma reserveMany_total (p : string) (qs : list Z)
      (l : list InventoryDocument) (item : InventoryDocument) :
  NoDup (map productId l) ->
  InventoryRepository.findByProductId p l = Some item ->
  Forall (fun q => 1 <= q) qs ->
  exists item',
    InventoryRepository.findByProductId p (fst (Concurrent.reserveMany p qs l))
    = Some item'
    /\ total item' = total item
    /\ 0 <= snd (Concurrent.reserveMany p qs l)
    /\ map productId (fst (Concurrent.reserveMany p qs l)) = map productId l.
Proof.
  intros Hnd Hitem Hqs. revert l item Hnd Hitem.
  induction Hqs as [|q qs Hq _ IH]; intros l item Hnd Hitem;
    cbn [Concurrent.reserveMany].
  - exists item. cbn [fst snd]. repeat split; auto; lia.
  - pose proof (reserve_atomic_step p q l Hnd Hitem) as Hstep.
    destruct (q <=? available item).
    + destruct Hstep as (l' & Hl' & Hf & Hm). rewrite Hl'.
      destruct (IH l' (InventoryRepository.inc (- q) q 0 item))
        as (item' & H1 & H2 & H3 & H4); [now rewrite Hm|exact Hf|].
      destruct (Concurrent.reserveMany p qs l') as [l'' g].
      cbn [fst snd] in *. exists item'.
      split; [exact H1|]. split; [rewrite H2; cbn; lia|].
      split; [lia|]. now rewrite H4.
    + rewrite Hstep. now apply IH.
Qed.

(** X17.  Reserve requests for one product that go through the repository's
    guarded [reserve], in whatever order the store serves them, are never
    granted more than was available: with quantities of at least one, the
    entry that starts with [available + reserved = total], neither counter
    negative and a [total] within [Number.MAX_SAFE_INTEGER] ends so, with
    its [total] unchanged and with the quantity granted in total moved
    from [available] to [reserved]. *)
Theorem repository_reserve_never_oversells
        (p : string) (qs : list Z) (l : list InventoryDocument)
        (item : InventoryDocument) :
  NoDup (map productId l) ->
  InventoryRepository.findByProductId p l = Some item ->
  safeEntry item ->
  Forall (fun q => 1 <= q) qs ->
  exists item',
    InventoryRepository.findByProductId p (fst (Concurrent.reserveMany p qs l))
    = Some item'
    /\ safeEntry item'
    /\ total item' = total item
    /\ 0 <= snd (Concurrent.reserveMany p qs l) <= available item
    /\ available item' = available item - snd (Concurrent.reserveMany p qs l)
    /\ reserved item' = reserved item + snd (Concurrent.reserveMany p qs l).
Proof.
  intros Hnd Hitem [(Hb & Ha & Hr) Ht] Hqs.
  destruct (atomic_reserve_never_oversells p qs l Hnd Hitem Ha)
    as (item' & H1 & H2 & H3 & H4 & H5).
  destruct (@reserveMany_total p qs l item Hnd Hitem Hqs)
    as (item'' & G1 & G2 & G3 & _).
  rewrite H1 in G1. injection G1 as <-.
  exists item'. unfold safeEntry, ledgerInvariant.
  repeat split; auto; lia.
Qed.

Lemma repository_reserve_never_oversells_witness :
  exists item',
    InventoryRepository.findByProductId
      Scenario.product
      (fst (Concurrent.reserveMany Scenario.product [10; 10; 3]
                                   (inventory Scenario.raceWorld)))
    = Some item'
    /\ safeEntry item'
    /\ total item'
       = total (mkInventory Scenario.entryId Scenario.product "SKU-1"
                            10 0 10 2)
    /\ 0 <= snd (Concurrent.reserveMany Scenario.product [10; 10; 3]
                                        (inventory Scenario.raceWorld))
       <= available (mkInventory Scenario.entryId Scenario.product "SKU-1"
                                 10 0 10 2)
    /\ available item'
       = available (mkInventory Scenario.entryId Scenario.product "SKU-1"
                                10 0 10 2)
         - snd (Concurrent.reserveMany Scenario.product [10; 10; 3]
                                       (inventory Scenario.raceWorld))
    /\ reserved item'
       = reserved (mkInventory Scenario.entryId Scenario.product "SKU-1"
                               10 0 10 2)
         + snd (Concurrent.reserveMany Scenario.product [10; 10; 3]
                                       (inventory Scenario.raceWorld)).
Proof.
  apply (@repository_reserve_never_oversells
           Scenario.product [10; 10; 3] (inventory Scenario.raceWorld)
           (mkInventory Scenario.entryId Scenario.product "SKU-1" 10 0 10 2)).
  - simpl. repeat constructor. intros [].
  - reflexivity.
  - unfold safeEntry, ledgerInvariant, maxSafeInteger. simpl. lia.
  - repeat constructor; lia.
Defined.

(** ** The consume callback and the other deliveries *)

Lemma settle_single_keeps_others
      (q : Subscribe.Queue) (m n : Subscribe.ConsumeMessage)
      (c : Subscribe.ChannelCall) :
  c = Subscribe.Ack m \/ c = Subscribe.Nack m false false ->
  Subscribe.ready (Subscribe.settle q c) = Subscribe.ready q
  /\ (Subscribe.sameTag m n = false ->
      In n (Subscribe.unacked q) ->
      In n (Subscribe.unacked (Subscribe.settle q c))).
Proof.
  intros [-> | ->]; cbn [Subscribe.settle Subscribe.ready Subscribe.unacked];
    (split; [reflexivity|]); intros Hn Hin; apply filter_In;
    (split; [exact Hin|now rewrite Hn]).
Qed.

(** X18.  Whatever the message and whatever the handler does, the consume
    callback makes at most one call on the channel, and that call settles
    the delivered message alone: nothing is ever put back on the queue, so
    no message is delivered a second time after a failure, and every other
    unsettled delivery stays unsettled.  A message whose content does not
    parse is dropped without the handler being run; a null delivery makes
    no call at all. *)
Theorem consume_settles_its_message_only
        (Event : Type) (parse : string -> option Event)
        (handler : Event -> Subscribe.HandlerResult)
        (msg : option Subscribe.ConsumeMessage) (q : Subscribe.Queue) :
  (List.length (Subscribe.consumeCallback parse handler msg) <= 1)%nat
  /\ Subscribe.ready
       (Subscribe.settleAll q (Subscribe.consumeCallback parse handler msg))
     = Subscribe.ready q
  /\ (forall n,
         match msg with
         | Some m => Subscribe.sameTag m n = false
         | None => True
         end ->
         In n (Subscribe.unacked q) ->
         In n (Subscribe.unacked
                 (Subscribe.settleAll
                    q (Subscribe.consumeCallback parse handler msg))))
  /\ (forall m, msg = Some m -> parse (Subscribe.content m) = None ->
                Subscribe.consumeCallback parse handler msg
                = [Subscribe.Nack m false false])
  /\ (msg = None -> Subscribe.consumeCallback parse handler msg = []).
Proof.
  assert (Hcases : match msg with
                   | None => Subscribe.consumeCallback parse handler msg = []
                   | Some m =>
                       Subscribe.consumeCallback parse handler msg
                       = [Subscribe.Ack m]
                       \/ Subscribe.consumeCallback parse handler msg
                          = [Subscribe.Nack m false false]
                   end).
  { destruct msg as [m|]; [|reflexivity]. cbn [Subscribe.consumeCallback].
    destruct (parse (Subscribe.content m)) as [e|]; [|now right].
    destruct (handler e); [now left|now right]. }
  destruct msg as [m|].
  - assert (Hone : exists c,
               Subscribe.consumeCallback parse handler (Some m) = [c]
               /\ (c = Subscribe.Ack m \/ c = Subscribe.Nack m false false))
      by (destruct Hcases as [H|H]; eexists; split; eauto).
    destruct Hone as (c & Hc & Hshape). rewrite Hc.
    unfold Subscribe.settleAll. cbn [fold_left List.length].
    split; [lia|].
    split; [apply (@settle_single_keeps_others q m m c Hshape)|].
    split; [intros n; apply (@settle_single_keeps_others q m n c Hshape)|].
    split; [|discriminate].
    intros m' [= <-] Hparse. rewrite <- Hc.
    cbn [Subscribe.consumeCallback]. now rewrite Hparse.
  - rewrite Hcases. unfold Subscribe.settleAll. cbn [fold_left List.length].
    split; [lia|]. split; [reflexivity|]. split; [auto|].
    split; [discriminate|reflexivity].
Qed.

(** ** The loops of the SSE manager, in closed form *)

Lemma mapGet_app_fresh (k : string) (pre l : list (string * SSE.SSEClient)) :
  ~ In k (map fst pre) -> SSE.mapGet k (pre ++ l) = SSE.mapGet k l.
Proof.
  induction pre as [|e pre IH]; cbn [app map SSE.mapGet]; intros H;
    [reflexivity|].
  unfold SSE.keyIs at 1. destruct (String.eqb (fst e) k) eqn:E.
  - apply String.eqb_eq in E. exfalso. apply H. now left.
  - apply IH. intros Hin. apply H. now right.
Qed.

Lemma mapDelete_fresh (k : string) (l : list (string * SSE.SSEClient)) :
  ~ In k (map fst l) -> SSE.mapDelete k l = l.
Proof.
  intros H. unfold SSE.mapDelete. apply forallb_filter_id.
  apply forallb_forall. intros e He. unfold SSE.keyIs.
  destruct (String.eqb (fst e) k) eqn:E; [|reflexivity].
  apply String.eqb_eq in E. exfalso. apply H. rewrite <- E. now apply in_map.
Qed.

Lemma mapDelete_at (k : string) (c : SSE.SSEClient)
      (pre rest : list (string * SSE.SSEClient)) :
  ~ In k (map fst pre) -> ~ In k (map fst rest) ->
  SSE.mapDelete k (pre ++ (k, c) :: rest) = pre ++ rest.
Proof.
  intros Hpre Hrest.
  pose proof (mapDelete_fresh k pre Hpre) as H1.
  pose proof (mapDelete_fresh k rest Hrest) as H2.
  unfold SSE.mapDelete in *. rewrite filter_app. cbn [filter].
  unfold SSE.keyIs at 2. cbn [fst]. rewrite String.eqb_refl. cbn [negb].
  now rewrite H1, H2.
Qed.

Lemma removeClient_at (k : string) (c : SSE.SSEClient)
      (pre rest : list (string * SSE.SSEClient)) (m : SSE.Manager) :
  ~ In k (map fst pre) -> ~ In k (map fst rest) ->
  SSE.clients m = pre ++ (k, c) :: rest ->
  SSE.clients (SSE.removeClient k m) = pre ++ rest
  /\ SSE.written (SSE.removeClient k m) = SSE.written m.
Proof.
  intros Hpre Hrest Hm. unfold SSE.removeClient.
  rewrite Hm, (mapGet_app_fresh k pre _ Hpre). cbn [SSE.mapGet].
  unfold SSE.keyIs. cbn [fst]. rewrite String.eqb_refl.
  cbn [SSE.clients SSE.written]. split; [|reflexivity].
  now apply mapDelete_at.
Qed.

Lemma sendToClient_at (io : SSE.Sockets) (k : string) (c : SSE.SSEClient)
      (message : SSE.SSEMessage)
      (pre rest : list (string * SSE.SSEClient)) (m : SSE.Manager) :
  ~ In k (map fst pre) -> ~ In k (map fst rest) ->
  SSE.clients m = pre ++ (k, c) :: rest ->
  SSE.clients (SSE.sendToClient io k message m)
  = (if io k then pre ++ (k, c) :: rest else pre ++ rest)
  /\ SSE.written (SSE.sendToClient io k message m)
     = (if io k then SSE.written m ++ [(k, SSE.frame message)]
        else SSE.written m).
Proof.
  intros Hpre Hrest Hm.
  assert (Hget : SSE.mapGet k (SSE.clients m) = Some c).
  { rewrite Hm, (mapGet_app_fresh k pre _ Hpre). cbn [SSE.mapGet].
    unfold SSE.keyIs. cbn [fst]. now rewrite String.eqb_refl. }
  unfold SSE.sendToClient. rewrite Hget.
  destruct (io k).
  - cbn [SSE.clients SSE.written]. now rewrite Hm.
  - now apply removeClient_at with (c := c).
Qed.

Lemma keys_split (k : string) (c : SSE.SSEClient)
      (pre rest : list (string * SSE.SSEClient)) :
  NoDup (map fst (pre ++ (k, c) :: rest)) ->
  ~ In k (map fst pre) /\ ~ In k (map fst rest)
  /\ NoDup (map fst (pre ++ rest))
  /\ NoDup (map fst ((pre ++ [(k, c)]) ++ rest)).
Proof.
  intros H. rewrite <- app_assoc. cbn [app]. split; [|split; [|split]];
    try exact H.
  - rewrite map_app in H. cbn [map fst] in H.
    apply NoDup_remove_2 in H. intros Hin. apply H. apply in_or_app. now left.
  - rewrite map_app in H. cbn [map fst] in H.
    apply NoDup_remove_2 in H. intros Hin. apply H. apply in_or_app. now right.
  - rewrite map_app in *. cbn [map fst] in H.
    now apply NoDup_remove_1 in H.
Qed.

Lemma broadcastLoop_closed (io : SSE.Sockets) (eventType : string)
      (message : SSE.SSEMessage) (entries pre : list (string * SSE.SSEClient))
      (m : SSE.Manager) :
  NoDup (map fst (pre ++ entries)) ->
  SSE.clients m = pre ++ entries ->
  SSE.clients (SSE.broadcastLoop io eventType message entries m)
  = pre ++ filter (fun e => negb (SSE.setHas eventType (SSE.subscriptions (snd e))
                                  || SSE.setHas "*" (SSE.subscriptions (snd e)))
                            || io (fst e)) entries
  /\ SSE.written (SSE.broadcastLoop io eventType message entries m)
     = SSE.written m
       ++ map (fun e => (fst e, SSE.frame message))
              (filter (fun e => (SSE.setHas eventType (SSE.subscriptions (snd e))
                                 || SSE.setHas "*" (SSE.subscriptions (snd e)))
                                && io (fst e)) entries).
Proof.
  revert pre m. induction entries as [|[k c] rest IH]; intros pre m Hnd Hm;
    cbn [SSE.broadcastLoop filter map fst snd].
  - now rewrite !app_nil_r in *.
  - destruct (keys_split k c pre rest Hnd) as (Hpre & Hrest & Hnd1 & Hnd2).
    destruct (SSE.setHas eventType (SSE.subscriptions c)
              || SSE.setHas "*" (SSE.subscriptions c)); cbn [negb orb andb].
    + destruct (sendToClient_at io k c message pre rest m Hpre Hrest Hm)
        as [Hc Hw].
      destruct (io k).
      * destruct (IH (pre ++ [(k, c)]) (SSE.sendToClient io k message m))
          as [Hc' Hw']; [exact Hnd2|now rewrite Hc, <- app_assoc|].
        rewrite Hc', Hw', Hw, <- !app_assoc. now cbn [app map fst].
      * destruct (IH pre (SSE.sendToClient io k message m))
          as [Hc' Hw']; [exact Hnd1|exact Hc|].
        now rewrite Hc', Hw', Hw.
    + destruct (IH (pre ++ [(k, c)]) m) as [Hc' Hw'];
        [exact Hnd2|now rewrite Hm, <- app_assoc|].
      rewrite Hc', Hw', <- !app_assoc. now cbn [app].
Qed.

Lemma sendToUserLoop_closed (io : SSE.Sockets) (user : string)
      (message : SSE.SSEMessage) (entries pre : list (string * SSE.SSEClient))
      (m : SSE.Manager) :
  NoDup (map fst (pre ++ entries)) ->
  SSE.clients m = pre ++ entries ->
  SSE.clients (SSE.sendToUserLoop io user message entries m)
  = pre ++ filter (fun e => negb (String.eqb (SSE.userId (snd e)) user)
                            || io (fst e)) entries
  /\ SSE.written (SSE.sendToUserLoop io user message entries m)
     = SSE.written m
       ++ map (fun e => (fst e, SSE.frame message))
              (filter (fun e => String.eqb (SSE.userId (snd e)) user
                                && io (fst e)) entries).
Proof.
  revert pre m. induction entries as [|[k c] rest IH]; intros pre m Hnd Hm;
    cbn [SSE.sendToUserLoop filter map fst snd].
  - now rewrite !app_nil_r in *.
  - destruct (keys_split k c pre rest Hnd) as (Hpre & Hrest & Hnd1 & Hnd2).
    destruct (String.eqb (SSE.userId c) user); cbn [negb orb andb].
    + destruct (sendToClient_at io k c message pre rest m Hpre Hrest Hm)
        as [Hc Hw].
      destruct (io k).
      * destruct (IH (pre ++ [(k, c)]) (SSE.sendToClient io k message m))
          as [Hc' Hw']; [exact Hnd2|now rewrite Hc, <- app_assoc|].
        rewrite Hc', Hw', Hw, <- !app_assoc. now cbn [app map fst].
      * destruct (IH pre (SSE.sendToClient io k message m))
          as [Hc' Hw']; [exact Hnd1|exact Hc|].
        now rewrite Hc', Hw', Hw.
    + destruct (IH (pre ++ [(k, c)]) m) as [Hc' Hw'];
        [exact Hnd2|now rewrite Hm, <- app_assoc|].
      rewrite Hc', Hw', <- !app_assoc. now cbn [app].
Qed.

Lemma pingLoop_closed (io : SSE.Sockets) (now : Z) (timestamp : string)
      (entries pre : list (string * SSE.SSEClient)) (m : SSE.Manager) :
  NoDup (map fst (pre ++ entries)) ->
  SSE.clients m = pre ++ entries ->
  SSE.clients (SSE.pingLoop io now timestamp entries m)
  = pre ++ filter (fun e => negb (SSE.staleThreshold
                                  <? now - SSE.lastPing (snd e))
                            && io (fst e)) entries
  /\ SSE.written (SSE.pingLoop io now timestamp entries m)
     = SSE.written m
       ++ map (fun e => (fst e,
                         SSE.frame (SSE.mkMessage None (Some "ping") timestamp)))
              (filter (fun e => negb (SSE.staleThreshold
                                      <? now - SSE.lastPing (snd e))
                                && io (fst e)) entries).
Proof.
  revert pre m. induction entries as [|[k c] rest IH]; intros pre m Hnd Hm;
    cbn [SSE.pingLoop filter map fst snd].
  - now rewrite !app_nil_r in *.
  - destruct (keys_split k c pre rest Hnd) as (Hpre & Hrest & Hnd1 & Hnd2).
    destruct (SSE.staleThreshold <? now - SSE.lastPing c); cbn [negb andb].
    + destruct (removeClient_at k c pre rest m Hpre Hrest Hm) as [Hc Hw].
      destruct (IH pre (SSE.removeClient k m)) as [Hc' Hw'];
        [exact Hnd1|exact Hc|].
      now rewrite Hc', Hw', Hw.
    + destruct (sendToClient_at
                  io k c (SSE.mkMessage None (Some "ping") timestamp)
                  pre rest m Hpre Hrest Hm) as [Hc Hw].
      destruct (io k).
      * destruct (IH (pre ++ [(k, c)])
                     (SSE.sendToClient
                        io k (SSE.mkMessage None (Some "ping") timestamp) m))
          as [Hc' Hw']; [exact Hnd2|now rewrite Hc, <- app_assoc|].
        rewrite Hc', Hw', Hw, <- !app_assoc. now cbn [app map fst].
      * destruct (IH pre (SSE.sendToClient
                            io k (SSE.mkMessage None (Some "ping") timestamp)
                            m))
          as [Hc' Hw']; [exact Hnd1|exact Hc|].
        now rewrite Hc', Hw', Hw.
Qed.

Lemma filter_twice (T : Type) (f g : T -> bool) (l : list T) :
  filter f (filter g l) = filter (fun x => g x && f x) l.
Proof.
  induction l as [|x l IH]; cbn [filter]; [reflexivity|].
  destruct (g x); cbn [filter andb]; [|exact IH].
  destruct (f x); now rewrite IH.
Qed.

Lemma keys_of_filter (f : string * SSE.SSEClient -> bool)
      (l : list (string * SSE.SSEClient)) :
  NoDup (map fst l) -> NoDup (map fst (filter f l)).
Proof.
  induction l as [|e l IH]; cbn [filter map]; intros H; [constructor|].
  inversion H as [|? ? Hx Hl]; subst.
  destruct (f e); cbn [map]; [|now apply IH].
  constructor; [|now apply IH].
  intros Hin. apply Hx. apply in_map_iff in Hin.
  destruct Hin as (e' & He' & Hin). apply filter_In in Hin.
  rewrite <- He'. apply in_map. apply Hin.
Qed.

(** X19.  A broadcast writes the frame once, in the order of the client map,
    to every client whose subscription set holds the event type itself or
    the full wildcard and whose socket takes the write, and to nobody
    else.  A subscribed client whose socket fails is removed, which
    disturbs neither the delivery to the clients after it nor any other
    entry of the map. *)
Theorem broadcast_reaches_each_subscriber_once
        (io : SSE.Sockets) (eventType : string) (message : SSE.SSEMessage)
        (m : SSE.Manager) :
  NoDup (map fst (SSE.clients m)) ->
  SSE.written (SSE.broadcastToSubscribers io eventType message m)
  = SSE.written m
    ++ map (fun e => (fst e, SSE.frame message))
           (filter (fun e => (SSE.setHas eventType (SSE.subscriptions (snd e))
                              || SSE.setHas "*" (SSE.subscriptions (snd e)))
                             && io (fst e))
                   (SSE.clients m))
  /\ SSE.clients (SSE.broadcastToSubscribers io eventType message m)
     = filter (fun e => negb (SSE.setHas eventType (SSE.subscriptions (snd e))
                              || SSE.setHas "*" (SSE.subscriptions (snd e)))
                        || io (fst e))
              (SSE.clients m).
Proof.
  intros Hnd. unfold SSE.broadcastToSubscribers.
  destruct (@broadcastLoop_closed io eventType message (SSE.clients m) [] m
                                  Hnd eq_refl) as [Hc Hw].
  split; [exact Hw|exact Hc].
Qed.

Lemma broadcast_reaches_each_subscriber_once_witness :
  let io := fun k : string => negb (String.eqb k "c2") in
  let m :=
    SSE.mkManager
      [("c1", SSE.mkClient "c1" "u-1" ["order.created"] 0);
       ("c2", SSE.mkClient "c2" "u-2" ["*"] 0);
       ("c3", SSE.mkClient "c3" "u-3" ["order.*"] 0);
       ("c4", SSE.mkClient "c4" "u-4" ["user.created"; "*"] 0)] [] in
  let message := SSE.mkMessage (Some "evt-1") (Some "order.created") "{}" in
  SSE.written (SSE.broadcastToSubscribers io "order.created" message m)
  = SSE.written m
    ++ map (fun e => (fst e, SSE.frame message))
           (filter (fun e => (SSE.setHas "order.created"
                                         (SSE.subscriptions (snd e))
                              || SSE.setHas "*" (SSE.subscriptions (snd e)))
                             && io (fst e))
                   (SSE.clients m))
  /\ SSE.clients (SSE.broadcastToSubscribers io "order.created" message m)
     = filter (fun e => negb (SSE.setHas "order.created"
                                         (SSE.subscriptions (snd e))
                              || SSE.setHas "*" (SSE.subscriptions (snd e)))
                        || io (fst e))
              (SSE.clients m).
Proof.
  intros io m message.
  apply (@broadcast_reaches_each_subscriber_once io "order.created" message m).
  simpl. repeat constructor; simpl; intuition discriminate.
Defined.

(** X20.  A turn of [pingClients] keeps exactly the clients whose [lastPing]
    is at most sixty seconds old and whose socket takes the write, and
    writes one [ping] frame to each of them, in the order of the client
    map; a stale client is removed without being written to. *)
Theorem ping_keeps_fresh_writable_clients
        (io : SSE.Sockets) (now : Z) (timestamp : string) (m : SSE.Manager) :
  NoDup (map fst (SSE.clients m)) ->
  SSE.clients (SSE.pingClients io now timestamp m)
  = filter (fun e => (now - SSE.lastPing (snd e) <=? 60000) && io (fst e))
           (SSE.clients m)
  /\ SSE.written (SSE.pingClients io now timestamp m)
     = SSE.written m
       ++ map (fun e => (fst e,
                         SSE.frame (SSE.mkMessage None (Some "ping") timestamp)))
              (filter (fun e => (now - SSE.lastPing (snd e) <=? 60000)
                                && io (fst e))
                      (SSE.clients m)).
Proof.
  intros Hnd. unfold SSE.pingClients.
  destruct (@pingLoop_closed io now timestamp (SSE.clients m) [] m
                             Hnd eq_refl) as [Hc Hw].
  assert (Hfresh : forall e : string * SSE.SSEClient,
             negb (SSE.staleThreshold <? now - SSE.lastPing (snd e))
                  && io (fst e)
             = (now - SSE.lastPing (snd e) <=? 60000) && io (fst e)).
  { intros e. unfold SSE.staleThreshold. f_equal.
    destruct (60000 <? now - SSE.lastPing (snd e)) eqn:E; cbn [negb];
      symmetry; [apply Z.leb_gt; now apply Z.ltb_lt
                |apply Z.leb_le; now apply Z.ltb_ge]. }
  rewrite Hc, Hw. cbn [app].
  rewrite (filter_ext _ _ Hfresh). split; reflexivity.
Qed.

Lemma ping_keeps_fresh_writable_clients_witness :
  let io := fun k : string => negb (String.eqb k "c2") in
  let m :=
    SSE.mkManager
      [("c1", SSE.mkClient "c1" "u-1" ["order.*"] 40000);
       ("c2", SSE.mkClient "c2" "u-2" ["order.*"] 40000);
       ("c3", SSE.mkClient "c3" "u-3" ["order.*"] 29999)] [] in
  SSE.clients (SSE.pingClients io 90000 "90000" m)
  = filter (fun e => (90000 - SSE.lastPing (snd e) <=? 60000) && io (fst e))
           (SSE.clients m)
  /\ SSE.written (SSE.pingClients io 90000 "90000" m)
     = SSE.written m
       ++ map (fun e => (fst e,
                         SSE.frame (SSE.mkMessage None (Some "ping") "90000")))
              (filter (fun e => (90000 - SSE.lastPing (snd e) <=? 60000)
                                && io (fst e))
                      (SSE.clients m)).
Proof.
  intros io m.
  apply (@ping_keeps_fresh_writable_clients io 90000 "90000" m).
  simpl. repeat constructor; simpl; intuition discriminate.
Defined.

Lemma user_prefix_excludes_order (t : string) :
  String.prefix "user." t = true -> String.prefix "order." t = false.
Proof.
  destruct t as [|a t]; cbn [String.prefix]; [discriminate|].
  destruct (Ascii.ascii_dec "u" a) as [<-|]; [|discriminate].
  intros _. reflexivity.
Qed.

(** X21.  What the gateway writes for one domain event: the frame goes once
    to every client that subscribed to the event type itself or to the full
    wildcard, and then, for a [user.] or [order.] event whose data names a
    user, once more to every client of that user, so that a client of the
    user that also subscribed receives the event twice.  Clients of both
    kinds whose socket fails are removed; for any other event type, or
    without a user in the data, only the subscribers are served. *)
Theorem event_fanout (io : SSE.Sockets) (event : SSE.GatewayEvent)
        (m : SSE.Manager) :
  NoDup (map fst (SSE.clients m)) ->
  let message := SSE.mkMessage (Some (SSE.ge_id event))
                               (Some (SSE.ge_type event))
                               (SSE.ge_data event) in
  let subscribed := fun e : string * SSE.SSEClient =>
    SSE.setHas (SSE.ge_type event) (SSE.subscriptions (snd e))
    || SSE.setHas "*" (SSE.subscriptions (snd e)) in
  let owner := fun e : string * SSE.SSEClient =>
    match SSE.ge_userId event with
    | Some u => (String.prefix "user." (SSE.ge_type event)
                 || String.prefix "order." (SSE.ge_type event))
                && String.eqb (SSE.userId (snd e)) u
    | None => false
    end in
  SSE.written (SSE.onEvent io event m)
  = SSE.written m
    ++ map (fun e => (fst e, SSE.frame message))
           (filter (fun e => subscribed e && io (fst e)) (SSE.clients m))
    ++ map (fun e => (fst e, SSE.frame message))
           (filter (fun e => owner e && io (fst e)) (SSE.clients m))
  /\ SSE.clients (SSE.onEvent io event m)
     = filter (fun e => negb (subscribed e || owner e) || io (fst e))
              (SSE.clients m).
Proof.
  intros Hnd. cbv zeta.
  set (message := SSE.mkMessage (Some (SSE.ge_id event))
                                (Some (SSE.ge_type event))
                                (SSE.ge_data event)).
  destruct (@broadcastLoop_closed io (SSE.ge_type event) message
                                  (SSE.clients m) [] m Hnd eq_refl)
    as [Hc1 Hw1].
  cbn [app] in Hc1.
  assert (Hnd1 : NoDup (map fst
                            (SSE.clients
                               (SSE.broadcastToSubscribers
                                  io (SSE.ge_type event) message m))))
    by (unfold SSE.broadcastToSubscribers; rewrite Hc1;
        now apply keys_of_filter).
  assert (Hto : forall u,
             SSE.written
               (SSE.sendToUser
                  io u message
                  (SSE.broadcastToSubscribers
                     io (SSE.ge_type event) message m))
             = SSE.written m
               ++ map (fun e => (fst e, SSE.frame message))
                      (filter (fun e =>
                                 (SSE.setHas (SSE.ge_type event)
                                             (SSE.subscriptions (snd e))
                                  || SSE.setHas "*" (SSE.subscriptions (snd e)))
                                 && io (fst e))
                              (SSE.clients m))
               ++ map (fun e => (fst e, SSE.frame message))
                      (filter (fun e => String.eqb (SSE.userId (snd e)) u
                                        && io (fst e))
                              (SSE.clients m))
             /\ SSE.clients
                  (SSE.sendToUser
                     io u message
                     (SSE.broadcastToSubscribers
                        io (SSE.ge_type event) message m))
                = filter (fun e =>
                            negb ((SSE.setHas (SSE.ge_type event)
                                              (SSE.subscriptions (snd e))
                                   || SSE.setHas "*"
                                                 (SSE.subscriptions (snd e)))
                                  || String.eqb (SSE.userId (snd e)) u)
                            || io (fst e))
                         (SSE.clients m)).
  { intros u. unfold SSE.sendToUser.
    destruct (@sendToUserLoop_closed
                io u message
                (SSE.clients (SSE.broadcastToSubscribers
                                io (SSE.ge_type event) message m))
                [] _ Hnd1 eq_refl) as [Hc Hw].
    rewrite Hw, Hc. unfold SSE.broadcastToSubscribers.
    rewrite Hw1, Hc1, !filter_twice, <- app_assoc. cbn [app].
    split; [do 3 f_equal|]; apply filter_ext; intros e;
      destruct (SSE.setHas (SSE.ge_type event) (SSE.subscriptions (snd e))
                || SSE.setHas "*" (SSE.subscriptions (snd e))),
        (String.eqb (SSE.userId (snd e)) u), (io (fst e)); reflexivity. }
  assert (Hnone : SSE.written
                    (SSE.broadcastToSubscribers
                       io (SSE.ge_type event) message m)
                  = SSE.written m
                    ++ map (fun e => (fst e, SSE.frame message))
                           (filter (fun e =>
                                      (SSE.setHas (SSE.ge_type event)
                                                  (SSE.subscriptions (snd e))
                                       || SSE.setHas
                                            "*" (SSE.subscriptions (snd e)))
                                      && io (fst e))
                                   (SSE.clients m))
                    ++ map (fun e => (fst e, SSE.frame message))
                           (filter (fun e => false && io (fst e))
                                   (SSE.clients m))
                  /\ SSE.clients
                       (SSE.broadcastToSubscribers
                          io (SSE.ge_type event) message m)
                     = filter (fun e =>
                                 negb ((SSE.setHas (SSE.ge_type event)
                                                   (SSE.subscriptions (snd e))
                                        || SSE.setHas
                                             "*" (SSE.subscriptions (snd e)))
                                       || false)
                                 || io (fst e))
                              (SSE.clients m)).
  { unfold SSE.broadcastToSubscribers. rewrite Hw1, Hc1. split.
    - rewrite (filter_none (fun e : string * SSE.SSEClient =>
                              false && io (fst e))) by reflexivity.
      cbn [map]. now rewrite app_nil_r.
    - apply filter_ext. intros e. now rewrite orb_false_r. }
  unfold SSE.onEvent. cbv zeta. fold message.
  destruct (SSE.ge_userId event) as [u|]; [|exact Hnone].
  destruct (String.prefix "user." (SSE.ge_type event)) eqn:Euser.
  - rewrite (user_prefix_excludes_order _ Euser). exact (Hto u).
  - destruct (String.prefix "order." (SSE.ge_type event));
      [exact (Hto u)|exact Hnone].
Qed.

Lemma event_fanout_witness :
  let io := fun k : string => negb (String.eqb k "c2") in
  let m :=
    SSE.mkManager
      [("c1", SSE.mkClient "c1" "u-1" ["order.created"] 0);
       ("c2", SSE.mkClient "c2" "u-1" ["*"] 0);
       ("c3", SSE.mkClient "c3" "u-1" ["order.*"] 0);
       ("c4", SSE.mkClient "c4" "u-4" ["user.created"; "*"] 0)] [] in
  let event := SSE.mkGatewayEvent "evt-1" "order.created" "{}" (Some "u-1") in
  let message := SSE.mkMessage (Some (SSE.ge_id event))
                               (Some (SSE.ge_type event))
                               (SSE.ge_data event) in
  let subscribed := fun e : string * SSE.SSEClient =>
    SSE.setHas (SSE.ge_type event) (SSE.subscriptions (snd e))
    || SSE.setHas "*" (SSE.subscriptions (snd e)) in
  let owner := fun e : string * SSE.SSEClient =>
    match SSE.ge_userId event with
    | Some u => (String.prefix "user." (SSE.ge_type event)
                 || String.prefix "order." (SSE.ge_type event))
                && String.eqb (SSE.userId (snd e)) u
    | None => false
    end in
  SSE.written (SSE.onEvent io event m)
  = SSE.written m
    ++ map (fun e => (fst e, SSE.frame message))
           (filter (fun e => subscribed e && io (fst e)) (SSE.clients m))
    ++ map (fun e => (fst e, SSE.frame message))
           (filter (fun e => owner e && io (fst e)) (SSE.clients m))
  /\ SSE.clients (SSE.onEvent io event m)
     = filter (fun e => negb (subscribed e || owner e) || io (fst e))
              (SSE.clients m).
Proof.
  intros io m event.
  apply (@event_fanout io event m).
  simpl. repeat constructor; simpl; intuition discriminate.
Defined.

(** ** Registering clients and changing their subscriptions *)

(** X22.  [addClient] stores the client under its id, in place of any client
    already stored under that id, and writes it the [connected] frame; when
    that first write fails the id is left without a client at all.  No
    other entry of the map is touched. *)
Theorem add_client_registers
        (io : SSE.Sockets) (timestamp : string) (client : SSE.SSEClient)
        (m : SSE.Manager) :
  (forall k, k <> SSE.client_id client ->
             SSE.mapGet k (SSE.clients (SSE.addClient io timestamp client m))
             = SSE.mapGet k (SSE.clients m))
  /\ (io (SSE.client_id client) = true ->
      SSE.mapGet (SSE.client_id client)
                 (SSE.clients (SSE.addClient io timestamp client m))
      = Some client
      /\ SSE.written (SSE.addClient io timestamp client m)
         = SSE.written m
           ++ [(SSE.client_id client,
                SSE.frame (SSE.mkMessage None (Some "connected") timestamp))])
  /\ (io (SSE.client_id client) = false ->
      SSE.mapGet (SSE.client_id client)
                 (SSE.clients (SSE.addClient io timestamp client m))
      = None
      /\ SSE.written (SSE.addClient io timestamp client m) = SSE.written m).
Proof.
  unfold SSE.addClient, SSE.sendToClient. cbn [SSE.clients SSE.written].
  rewrite mapGet_set, String.eqb_refl.
  destruct (io (SSE.client_id client)).
  - cbn [SSE.clients SSE.written]. split; [|split].
    + intros k Hk. rewrite mapGet_set.
      destruct (String.eqb (SSE.client_id client) k) eqn:E; [|reflexivity].
      apply String.eqb_eq in E. congruence.
    + intros _. rewrite mapGet_set, String.eqb_refl. auto.
    + discriminate.
  - split; [|split].
    + intros k Hk. rewrite mapGet_removeClient. cbn [SSE.clients].
      rewrite mapGet_set.
      destruct (String.eqb k (SSE.client_id client)) eqn:E.
      * apply String.eqb_eq in E. congruence.
      * rewrite String.eqb_sym, E. reflexivity.
    + discriminate.
    + intros _. rewrite mapGet_removeClient, String.eqb_refl.
      split; [reflexivity|].
      unfold SSE.removeClient. cbn [SSE.clients SSE.written].
      rewrite mapGet_set, String.eqb_refl. reflexivity.
Qed.

Lemma setHas_add (t x : string) (s : list string) :
  SSE.setHas t (SSE.setAdd s x) = SSE.setHas t s || String.eqb t x.
Proof.
  unfold SSE.setAdd. destruct (SSE.setHas x s) eqn:E.
  - destruct (String.eqb t x) eqn:Et; [|now rewrite orb_false_r].
    apply String.eqb_eq in Et. subst x. rewrite E. reflexivity.
  - unfold SSE.setHas. rewrite existsb_app. cbn [existsb].
    now rewrite orb_false_r.
Qed.

Lemma setHas_delete (t x : string) (s : list string) :
  SSE.setHas t (SSE.setDelete s x) = SSE.setHas t s && negb (String.eqb t x).
Proof.
  unfold SSE.setDelete, SSE.setHas.
  induction s as [|y s IH]; cbn [filter existsb]; [reflexivity|].
  destruct (String.eqb x y) eqn:Exy; cbn [negb existsb]; rewrite IH.
  - apply String.eqb_eq in Exy. subst y.
    destruct (String.eqb t x); cbn [negb orb andb];
      [now rewrite andb_false_r|reflexivity].
  - destruct (String.eqb t y) eqn:Ety; cbn [orb]; [|reflexivity].
    apply String.eqb_eq in Ety. subst y.
    rewrite String.eqb_sym, Exy. reflexivity.
Qed.

Lemma setHas_added (t : string) (ts s : list string) :
  SSE.setHas t (fold_left SSE.setAdd ts s)
  = SSE.setHas t s || existsb (String.eqb t) ts.
Proof.
  revert s. induction ts as [|x ts IH]; intros s; cbn [fold_left existsb].
  - now rewrite orb_false_r.
  - now rewrite IH, setHas_add, orb_assoc.
Qed.

Lemma setHas_deleted (t : string) (ts s : list string) :
  SSE.setHas t (fold_left SSE.setDelete ts s)
  = SSE.setHas t s && negb (existsb (String.eqb t) ts).
Proof.
  revert s. induction ts as [|x ts IH]; intros s; cbn [fold_left existsb].
  - now rewrite andb_true_r.
  - rewrite IH, setHas_delete, negb_orb, andb_assoc. reflexivity.
Qed.

Lemma mapGet_split (k : string) (c : SSE.SSEClient)
      (l : list (string * SSE.SSEClient)) :
  NoDup (map fst l) -> SSE.mapGet k l = Some c ->
  exists l1 l2, l = l1 ++ (k, c) :: l2
                /\ ~ In k (map fst l1) /\ ~ In k (map fst l2).
Proof.
  intros Hnd Hget. apply mapGet_In in Hget.
  apply in_split in Hget. destruct Hget as (l1 & l2 & ->).
  exists l1, l2. split; [reflexivity|].
  destruct (keys_split k c l1 l2 Hnd) as (H1 & H2 & _). auto.
Qed.

Lemma updateSubscriptions_at (k : string) (c : SSE.SSEClient)
      (f : list string -> list string)
      (l1 l2 : list (string * SSE.SSEClient)) :
  ~ In k (map fst l1) ->
  SSE.updateSubscriptions k f (l1 ++ (k, c) :: l2)
  = l1 ++ (k, SSE.mkClient (SSE.client_id c) (SSE.userId c)
                           (f (SSE.subscriptions c)) (SSE.lastPing c)) :: l2.
Proof.
  induction l1 as [|e l1 IH]; cbn [app map SSE.updateSubscriptions]; intros H.
  - unfold SSE.keyIs. cbn [fst snd]. now rewrite String.eqb_refl.
  - unfold SSE.keyIs at 1. destruct (String.eqb (fst e) k) eqn:E.
    + apply String.eqb_eq in E. exfalso. apply H. now left.
    + rewrite IH; [reflexivity|]. intros Hin. apply H. now right.
Qed.

Lemma frames_keys (message : SSE.SSEMessage) (f : string * SSE.SSEClient -> bool)
      (k : string) (l : list (string * SSE.SSEClient)) :
  ~ In k (map fst l) ->
  ~ In k (map fst (map (fun e => (fst e, SSE.frame message)) (filter f l))).
Proof.
  intros H Hin. apply H. rewrite map_map in Hin. cbn [fst] in Hin.
  apply in_map_iff in Hin. destruct Hin as (e & He & Hin).
  apply filter_In in Hin. rewrite <- He. apply in_map. apply Hin.
Qed.

(** X23.  After [subscribeClient] with a list of event types, a broadcast of
    any of them writes exactly one frame to that client (its socket taking
    the write); after [unsubscribeClient] with the list, a broadcast of any
    of them writes the client nothing, unless the client still holds the
    full wildcard. *)
Theorem subscription_changes_decide_delivery
        (io : SSE.Sockets) (k : string) (eventTypes : list string)
        (t : string) (message : SSE.SSEMessage) (m : SSE.Manager)
        (c : SSE.SSEClient) :
  NoDup (map fst (SSE.clients m)) ->
  SSE.mapGet k (SSE.clients m) = Some c ->
  io k = true ->
  In t eventTypes ->
  (exists before after,
      SSE.written (SSE.broadcastToSubscribers
                     io t message (SSE.subscribeClient k eventTypes m))
      = SSE.written m ++ before ++ (k, SSE.frame message) :: after
      /\ ~ In k (map fst before) /\ ~ In k (map fst after))
  /\ (SSE.setHas "*" (SSE.subscriptions c) = false \/ In "*" eventTypes ->
      exists frames,
        SSE.written (SSE.broadcastToSubscribers
                       io t message (SSE.unsubscribeClient k eventTypes m))
        = SSE.written m ++ frames
        /\ ~ In k (map fst frames)).
Proof.
  intros Hnd Hget Hio Hin.
  destruct (mapGet_split k (SSE.clients m) Hnd Hget)
    as (l1 & l2 & Hm & Hk1 & Hk2).
  assert (Hmember : forall x, In x eventTypes ->
                              existsb (String.eqb x) eventTypes = true).
  { intros x Hx. apply existsb_exists. exists x. split; [exact Hx|].
    apply String.eqb_refl. }
  assert (Hkeys : forall f,
             NoDup (map fst (l1 ++ (k, SSE.mkClient
                                         (SSE.client_id c) (SSE.userId c)
                                         (f (SSE.subscriptions c))
                                         (SSE.lastPing c)) :: l2))).
  { intros f. rewrite Hm in Hnd. rewrite map_app in *. exact Hnd. }
  unfold SSE.broadcastToSubscribers, SSE.subscribeClient,
    SSE.unsubscribeClient.
  cbn [SSE.clients SSE.written]. rewrite Hm.
  rewrite !(updateSubscriptions_at k c _ l1 l2 Hk1).
  split.
  - match goal with
    | |- context [SSE.broadcastLoop io t message ?cl ?mm] =>
        destruct (@broadcastLoop_closed io t message cl [] mm
                                        (Hkeys _) eq_refl) as [_ Hw]
    end.
    rewrite Hw. cbn [SSE.written]. rewrite filter_app. cbn [filter fst snd].
    cbn [SSE.subscriptions]. rewrite setHas_added, (Hmember t Hin), Hio.
    rewrite orb_true_r. cbn [orb andb]. rewrite map_app. cbn [map fst].
    eexists _, _. split; [reflexivity|].
    split; now apply frames_keys.
  - intros Hstar.
    match goal with
    | |- context [SSE.broadcastLoop io t message ?cl ?mm] =>
        destruct (@broadcastLoop_closed io t message cl [] mm
                                        (Hkeys _) eq_refl) as [_ Hw]
    end.
    rewrite Hw. cbn [SSE.written]. rewrite filter_app. cbn [filter fst snd].
    cbn [SSE.subscriptions]. rewrite !setHas_deleted, (Hmember t Hin).
    replace (SSE.setHas "*" (SSE.subscriptions c)
             && negb (existsb (String.eqb "*") eventTypes)) with false
      by (destruct Hstar as [->| Hs];
          [reflexivity|now rewrite (Hmember _ Hs), andb_false_r]).
    rewrite andb_false_r. cbn [orb andb]. rewrite <- filter_app.
    eexists. split; [reflexivity|].
    apply frames_keys. rewrite map_app. intros Hin'.
    apply in_app_or in Hin'. tauto.
Qed.

Lemma subscription_changes_decide_delivery_witness :
  let io := fun _ : string => true in
  let c := SSE.mkClient "c1" "u-1" ["order.*"; "*"] 0 in
  let m := SSE.mkManager [("c0", SSE.mkClient "c0" "u-0" ["*"] 0); ("c1", c)]
                         [] in
  let message := SSE.mkMessage (Some "evt-1") (Some "order.created") "{}" in
  (exists before after,
      SSE.written (SSE.broadcastToSubscribers
                     io "order.created" message
                     (SSE.subscribeClient "c1" ["order.created"; "*"] m))
      = SSE.written m ++ before ++ ("c1", SSE.frame message) :: after
      /\ ~ In "c1" (map fst before) /\ ~ In "c1" (map fst after))
  /\ (SSE.setHas "*" (SSE.subscriptions c) = false
      \/ In "*" ["order.created"; "*"] ->
      exists frames,
        SSE.written (SSE.broadcastToSubscribers
                       io "order.created" message
                       (SSE.unsubscribeClient "c1" ["order.created"; "*"] m))
        = SSE.written m ++ frames
        /\ ~ In "c1" (map fst frames)).
Proof.
  intros io c m message.
  apply (@subscription_changes_decide_delivery
           io "c1" ["order.created"; "*"] "order.created" message m c).
  - simpl. repeat constructor; simpl; intuition discriminate.
  - reflexivity.
  - reflexivity.
  - simpl. auto.
Defined.

(** ** GET / : the pages of the inventory list *)

Lemma firstn_add (T : Type) (a b : nat) (l : list T) :
  firstn (a + b) l = firstn a l ++ firstn b (skipn a l).
Proof.
  revert l. induction a as [|a IH]; intros l; [reflexivity|].
  destruct l as [|x l]; cbn [Nat.add firstn skipn app].
  - now rewrite firstn_nil.
  - now rewrite IH.
Qed.

Lemma pages_concat (T : Type) (n k : nat) (l : list T) :
  concat (map (fun i => firstn n (skipn (i * n) l)) (seq 0 k))
  = firstn (k * n) l.
Proof.
  induction k as [|k IH]; [reflexivity|].
  rewrite seq_S, map_app, concat_app, IH. cbn [Nat.add map concat].
  rewrite app_nil_r, <- firstn_add. f_equal. lia.
Qed.

Lemma findMany_page (T : Type) (limit p : Z) (l : list T) :
  1 <= limit -> 1 <= p ->
  Db.findMany ((p - 1) * limit) limit l
  = firstn (Z.to_nat limit) (skipn ((Z.to_nat p - 1) * Z.to_nat limit) l).
Proof.
  intros Hl Hp. unfold Db.findMany.
  replace (limit =? 0) with false by (symmetry; apply Z.eqb_neq; lia).
  replace ((Z.to_nat p - 1) * Z.to_nat limit)%nat
    with (Z.to_nat ((p - 1) * limit)) by nia.
  destruct ((p - 1) * limit =? 0) eqn:E; [|reflexivity].
  apply Z.eqb_eq in E. now rewrite E.
Qed.

Lemma ceilDiv_bounds (a b : Z) :
  0 <= a -> 1 <= b ->
  a <= Routes.ceilDiv a b * b < a + b.
Proof.
  intros Ha Hb. unfold Routes.ceilDiv.
  pose proof (Z.div_mod (a + b - 1) b ltac:(lia)) as Hdm.
  pose proof (Z.mod_pos_bound (a + b - 1) b ltac:(lia)) as Hmod.
  nia.
Qed.

Lemma page_length (limit p : Z) (l : list InventoryDocument) :
  1 <= limit -> 1 <= p ->
  Z.of_nat (List.length
              (fst (Routes.listInventoryHandler
                      (Routes.mkPaginationQuery p limit) l)))
  = Z.max 0 (Z.min limit (Z.of_nat (List.length l) - (p - 1) * limit)).
Proof.
  intros Hl Hp. unfold Routes.listInventoryHandler.
  cbn [fst Routes.pq_page Routes.pq_limit].
  rewrite findMany_page by assumption.
  rewrite length_firstn, length_skipn. nia.
Qed.

(** X24.  The pages of GET / cut the list of entries, in the order asked
    for, into consecutive pieces: put one after the other, the pages from 1
    to [pagination.pages] give the whole list, every entry once.  A page
    holds at most [limit] entries; [hasNext] is set exactly when the next
    page holds an entry, [hasPrev] exactly when the page is not the first,
    and a page past [pagination.pages] is empty. *)
Theorem inventory_pages_partition
        (limit : Z) (sorted : list InventoryDocument) :
  1 <= limit ->
  let pageOf := fun p =>
    Routes.listInventoryHandler (Routes.mkPaginationQuery p limit) sorted in
  let pages := Routes.pg_pages (snd (pageOf 1)) in
  concat (map (fun i => fst (pageOf (Z.of_nat i))) (seq 1 (Z.to_nat pages)))
  = sorted
  /\ forall p,
      1 <= p ->
      Z.of_nat (List.length (fst (pageOf p))) <= limit
      /\ Routes.pg_total (snd (pageOf p)) = Z.of_nat (List.length sorted)
      /\ Routes.pg_pages (snd (pageOf p)) = pages
      /\ (Routes.pg_hasNext (snd (pageOf p)) = true
          <-> fst (pageOf (p + 1)) <> [])
      /\ (Routes.pg_hasPrev (snd (pageOf p)) = true <-> 1 < p)
      /\ (pages < p -> fst (pageOf p) = []).
Proof.
  intros Hl pageOf pages.
  assert (Hpages : pages
                   = Routes.ceilDiv (Z.of_nat (List.length sorted)) limit).
  { unfold pages, pageOf, Routes.listInventoryHandler, Db.count.
    cbn [snd Routes.pg_pages Routes.pq_limit].
    now rewrite forallb_filter_id by (apply forallb_forall; reflexivity). }
  pose proof (@ceilDiv_bounds (Z.of_nat (List.length sorted)) limit
                              ltac:(lia) Hl) as Hceil.
  rewrite <- Hpages in Hceil.
  assert (Hnonempty : forall p, 1 <= p ->
                                (fst (pageOf p) <> []
                                 <-> (p - 1) * limit
                                     < Z.of_nat (List.length sorted))).
  { intros p Hp. pose proof (@page_length limit p sorted Hl Hp) as Hlen.
    fold (pageOf p) in Hlen.
    destruct (fst (pageOf p)) as [|x rest]; cbn [List.length] in Hlen.
    - split; [congruence|]. lia.
    - split; [intros _|discriminate]. lia. }
  split.
  - rewrite <- seq_shift, map_map.
    erewrite map_ext_in
      with (g := fun i => firstn (Z.to_nat limit)
                                 (skipn (i * Z.to_nat limit) sorted)).
    + rewrite pages_concat. apply firstn_all2.
      assert (0 <= pages)
        by (rewrite Hpages; unfold Routes.ceilDiv; apply Z.div_pos; lia).
      apply Nat2Z.inj_le. rewrite Nat2Z.inj_mul, !Z2Nat.id by lia.
      apply Hceil.
    + intros i _. unfold pageOf, Routes.listInventoryHandler.
      cbn [fst Routes.pq_page Routes.pq_limit].
      rewrite findMany_page by lia.
      rewrite Nat2Z.id. now replace (S i - 1)%nat with i by lia.
  - intros p Hp.
    pose proof (@page_length limit p sorted Hl Hp) as Hlen.
    fold (pageOf p) in Hlen.
    split; [lia|]. split; [|split; [|split; [|split]]].
    + unfold pageOf, Routes.listInventoryHandler, Db.count.
      cbn [snd Routes.pg_total].
      now rewrite forallb_filter_id by (apply forallb_forall; reflexivity).
    + reflexivity.
    + rewrite (Hnonempty (p + 1)) by lia.
      change (Routes.pg_hasNext (snd (pageOf p))) with (p <? pages).
      rewrite Z.ltb_lt. split; intros H; nia.
    + change (Routes.pg_hasPrev (snd (pageOf p))) with (1 <? p).
      apply Z.ltb_lt.
    + intros Hpast.
      destruct (fst (pageOf p)) as [|x rest] eqn:E; [reflexivity|].
      assert (Hne : fst (pageOf p) <> []) by (rewrite E; discriminate).
      apply (Hnonempty p Hp) in Hne. nia.
Qed.

Lemma inventory_pages_partition_witness :
  let sorted :=
    [mkInventory "i1" "p1" "SKU-1" 5 0 5 1;
     mkInventory "i2" "p2" "SKU-2" 6 0 6 1;
     mkInventory "i3" "p3" "SKU-3" 7 0 7 1;
     mkInventory "i4" "p4" "SKU-4" 8 0 8 1;
     mkInventory "i5" "p5" "SKU-5" 9 0 9 1] in
  let pageOf := fun p =>
    Routes.listInventoryHandler (Routes.mkPaginationQuery p 2) sorted in
  let pages := Routes.pg_pages (snd (pageOf 1)) in
  concat (map (fun i => fst (pageOf (Z.of_nat i))) (seq 1 (Z.to_nat pages)))
  = sorted
  /\ forall p,
      1 <= p ->
      Z.of_nat (List.length (fst (pageOf p))) <= 2
      /\ Routes.pg_total (snd (pageOf p)) = Z.of_nat (List.length sorted)
      /\ Routes.pg_pages (snd (pageOf p)) = pages
      /\ (Routes.pg_hasNext (snd (pageOf p)) = true
          <-> fst (pageOf (p + 1)) <> [])
      /\ (Routes.pg_hasPrev (snd (pageOf p)) = true <-> 1 < p)
      /\ (pages < p -> fst (pageOf p) = []).
Proof.
  intros sorted.
  apply (@inventory_pages_partition 2 sorted). lia.
Defined.

(** ** Reserve requests interleaved: what the ledger keeps *)

Lemma update_keeps_map (T U : Type) (g : T -> U) (f : T -> bool) (u : T -> T)
      (l : list T) :
  (forall d, g (u d) = g d) ->
  map g (fst (Db.findOneAndUpdate f u l)) = map g l.
Proof.
  intros Hu. induction l as [|x l IH]; cbn [Db.findOneAndUpdate map fst];
    [reflexivity|].
  destruct (f x); cbn [fst map].
  - now rewrite Hu.
  - destruct (Db.findOneAndUpdate f u l). cbn [fst map] in *. now rewrite IH.
Qed.

Lemma update_keeps_matching (T : Type) (P : T -> Prop) (f : T -> bool)
      (u : T -> T) (l : list T) :
  Forall P l -> (forall d, In d l -> f d = true -> P (u d)) ->
  Forall P (fst (Db.findOneAndUpdate f u l)).
Proof.
  induction l as [|x l IH]; cbn [Db.findOneAndUpdate fst]; intros Hl Hu;
    [constructor|].
  inversion Hl as [|? ? Hx Hl']; subst.
  destruct (f x) eqn:E; cbn [fst].
  - constructor; [apply Hu; [now left|exact E]|exact Hl'].
  - destruct (Db.findOneAndUpdate f u l) as [l' r]. cbn [fst] in *.
    constructor; [exact Hx|]. apply IH; [exact Hl'|].
    intros d Hd. apply Hu. now right.
Qed.

Lemma snapshotFits_moves (w w' : World) (d : Routes.ReserveData)
      (s : Routes.ReserveState) :
  totals w' = totals w -> snapshotFits w d s -> snapshotFits w' d s.
Proof.
  intros Ht [Hq Hs]. split; [exact Hq|].
  destruct s; auto; now rewrite Ht.
Qed.

(** One [await]ed operation of a reserve request keeps ids unique, totals
    as they are and the invariant on every entry, whatever was written
    since the request read its entry. *)
Lemma reserveStep_keeps_ledger (env : Env) (d : Routes.ReserveData)
      (w : World) (s : Routes.ReserveState) :
  NoDup (map inv_id (inventory w)) ->
  Forall ledgerInvariant (inventory w) ->
  snapshotFits w d s ->
  NoDup (map inv_id (inventory (fst (Routes.reserveStep env d w s))))
  /\ Forall ledgerInvariant (inventory (fst (Routes.reserveStep env d w s)))
  /\ totals (fst (Routes.reserveStep env d w s)) = totals w
  /\ snapshotFits (fst (Routes.reserveStep env d w s)) d
                  (snd (Routes.reserveStep env d w s)).
Proof.
  intros Hnd Hl [Hq Hs].
  destruct s as [|item|item r|r|o]; cbn [Routes.reserveStep].
  - destruct (InventoryRepository.findByProductId _ _) as [item|] eqn:Hitem;
      cbn [fst snd]; [|repeat split; auto].
    destruct (available item <? Routes.rd_quantity d) eqn:Hlt; cbn [fst snd];
      [repeat split; auto|].
    apply Z.ltb_ge in Hlt. apply findOne_In in Hitem.
    destruct Hitem as [Hin _].
    split; [exact Hnd|]. split; [exact Hl|]. split; [reflexivity|].
    split; [exact Hq|]. split; [|split; [exact Hlt|]].
    + rewrite Forall_forall in Hl. exact (Hl item Hin).
    + intros t Ht. unfold totals in Ht. apply in_map_iff in Ht.
      destruct Ht as (e & He & Hein). injection He as Hid <-.
      f_equal. now apply (@unique_key _ inv_id (inventory w)).
  - destruct (ReservationRepository.create _ _) as [err|docs];
      cbn [fst snd set_reservations inventory];
      (split; [exact Hnd|]); (split; [exact Hl|]);
      (split; [reflexivity|]); split; auto.
  - destruct Hs as (Hinv & Hav & Htot). cbn [fst snd set_inventory inventory].
    unfold totals. cbn [inventory].
    unfold InventoryRepository.updateById.
    assert (Hsame : map (fun e => (inv_id e, total e))
                        (fst (Db.findOneAndUpdate
                                (InventoryRepository.hasId (inv_id item))
                                (applyInventoryUpdate
                                   (mkInvUpdate
                                      (Some (available item
                                             - Routes.rd_quantity d))
                                      (Some (reserved item
                                             + Routes.rd_quantity d))
                                      None None))
                                (inventory w)))
                    = map (fun e => (inv_id e, total e)) (inventory w))
      by (apply update_keeps_map; reflexivity).
    split; [rewrite update_keeps_keys; [exact Hnd|reflexivity]|].
    split; [|split; [exact Hsame|split; [exact Hq|exact I]]].
    apply update_keeps_matching; [exact Hl|].
    intros e He Hk.
    unfold InventoryRepository.hasId, Db.keyed in Hk.
    apply String.eqb_eq in Hk.
    assert (Htotal : total e = total item).
    { apply Htot. unfold totals. rewrite <- Hk.
      apply (in_map (fun e => (inv_id e, total e))). exact He. }
    destruct Hinv as (Hb & Ha & Hr).
    unfold ledgerInvariant. cbn. lia.
  - destruct (EventBus.publish _ _ _) as [log [msg|]];
      cbn [fst snd inventory];
      (split; [exact Hnd|]); (split; [exact Hl|]);
      (split; [reflexivity|]); split; auto.
  - cbn [fst snd]. repeat split; auto.
Qed.

Lemma stepTask_keeps_ledger (n : nat) (tasks : list Concurrent.Task)
      (w : World) :
  NoDup (map inv_id (inventory w)) ->
  Forall ledgerInvariant (inventory w) ->
  Forall (fun t => snapshotFits w (Concurrent.t_data t) (Concurrent.t_state t))
         tasks ->
  NoDup (map inv_id (inventory (fst (Concurrent.stepTask n tasks w))))
  /\ Forall ledgerInvariant (inventory (fst (Concurrent.stepTask n tasks w)))
  /\ totals (fst (Concurrent.stepTask n tasks w)) = totals w
  /\ Forall (fun t => snapshotFits (fst (Concurrent.stepTask n tasks w))
                                   (Concurrent.t_data t)
                                   (Concurrent.t_state t))
            (snd (Concurrent.stepTask n tasks w)).
Proof.
  intros Hnd Hl. revert n.
  induction tasks as [|t tasks IH]; intros n Hts;
    cbn [Concurrent.stepTask].
  - destruct n; cbn [fst snd]; auto.
  - inversion Hts as [|? ? Ht Hrest]; subst.
    destruct n as [|n]; cbn [Concurrent.stepTask].
    + destruct (@reserveStep_keeps_ledger
                  (Concurrent.t_env t) (Concurrent.t_data t) w
                  (Concurrent.t_state t) Hnd Hl Ht)
        as (H1 & H2 & H3 & H4).
      destruct (Routes.reserveStep _ _ w _) as [w' s']. cbn [fst snd] in *.
      cbv beta iota delta [fst snd].
      split; [exact H1|]. split; [exact H2|]. split; [exact H3|].
      constructor; [exact H4|].
      eapply Forall_impl; [|exact Hrest]. cbn beta. intros t'.
      now apply snapshotFits_moves.
    + destruct (IH n Hrest) as (H1 & H2 & H3 & H4).
      destruct (Concurrent.stepTask n tasks w) as [w' rest']. cbn [fst snd] in *.
      cbv beta iota delta [fst snd].
      split; [exact H1|]. split; [exact H2|]. split; [exact H3|].
      constructor; [|exact H4].
      now apply snapshotFits_moves with (w := w).
Qed.

Lemma runSchedule_keeps_ledger (schedule : list nat)
      (tasks : list Concurrent.Task) (w : World) :
  NoDup (map inv_id (inventory w)) ->
  Forall ledgerInvariant (inventory w) ->
  Forall (fun t => snapshotFits w (Concurrent.t_data t) (Concurrent.t_state t))
         tasks ->
  Forall ledgerInvariant
         (inventory (fst (Concurrent.runSchedule schedule tasks w)))
  /\ totals (fst (Concurrent.runSchedule schedule tasks w)) = totals w.
Proof.
  revert tasks w. induction schedule as [|n schedule IH];
    intros tasks w Hnd Hl Hts; cbn [Concurrent.runSchedule].
  - cbn [fst]. auto.
  - destruct (stepTask_keeps_ledger n Hnd Hl Hts) as (H1 & H2 & H3 & H4).
    destruct (Concurrent.stepTask n tasks w) as [w' tasks']. cbn [fst snd] in *.
    cbv beta iota.
    destruct (IH tasks' w' H1 H2 H4) as [G1 G2].
    split; [exact G1|]. now rewrite G2.
Qed.

(** X25.  Reserve requests interleaved at their awaits in any order, the
    oversold ones included, never show in the ledger: on entries that
    satisfy the invariant with totals within [Number.MAX_SAFE_INTEGER],
    every entry keeps [available + reserved = total] with neither counter
    negative, and its [total] stays what it was.  What a race loses is the
    link between [reserved] and the reservations stored, not the invariant
    of the ledger. *)
Theorem interleaved_reserves_keep_ledger_invariant
        (schedule : list nat) (tasks : list Concurrent.Task) (w : World) :
  NoDup (map inv_id (inventory w)) ->
  Forall safeEntry (inventory w) ->
  Forall (fun t => Concurrent.t_state t = Routes.RS_Start
                   /\ 1 <= Routes.rd_quantity (Concurrent.t_data t))
         tasks ->
  Forall safeEntry
         (inventory (fst (Concurrent.runSchedule schedule tasks w)))
  /\ map (fun d => (inv_id d, total d))
         (inventory (fst (Concurrent.runSchedule schedule tasks w)))
     = map (fun d => (inv_id d, total d)) (inventory w).
Proof.
  intros Hnd Hs Hts.
  assert (Hl : Forall ledgerInvariant (inventory w))
    by (eapply Forall_impl; [|exact Hs]; intros e He; apply He).
  destruct (@runSchedule_keeps_ledger schedule tasks w Hnd Hl) as [Hl' Ht'].
  { eapply Forall_impl; [|exact Hts]. cbn beta.
    intros t [Hst Hq]. split; [exact Hq|]. now rewrite Hst. }
  split; [|exact Ht']. unfold totals in Ht'.
  rewrite Forall_forall in *. intros e He.
  split; [exact (Hl' e He)|].
  assert (Hin : In (inv_id e, total e)
                   (map (fun d => (inv_id d, total d)) (inventory w)))
    by (rewrite <- Ht'; apply in_map_iff; now exists e).
  apply in_map_iff in Hin. destruct Hin as (e0 & [= _ Ht] & He0).
  rewrite <- Ht. apply (Hs e0 He0).
Qed.

Lemma interleaved_reserves_keep_ledger_invariant_witness :
  Forall safeEntry
         (inventory (fst (Concurrent.runSchedule
                            Scenario.raceSchedule Scenario.raceTasks
                            Scenario.raceWorld)))
  /\ map (fun d => (inv_id d, total d))
         (inventory (fst (Concurrent.runSchedule
                            Scenario.raceSchedule Scenario.raceTasks
                            Scenario.raceWorld)))
     = map (fun d => (inv_id d, total d)) (inventory Scenario.raceWorld).
Proof.
  apply (@interleaved_reserves_keep_ledger_invariant
           Scenario.raceSchedule Scenario.raceTasks Scenario.raceWorld).
  - simpl. repeat constructor. intros [].
  - repeat constructor; unfold maxSafeInteger; simpl; lia.
  - repeat constructor; simpl; lia.
Defined.

(** ** The clients of the SSE routes and the broadcast *)

Lemma mapSet_keys (k : string) (c : SSE.SSEClient)
      (l : list (string * SSE.SSEClient)) :
  NoDup (map fst l) -> NoDup (map fst (SSE.mapSet k c l)).
Proof.
  intros Hnd.
  assert (Hkeys : map fst (SSE.mapSet k c l) = map fst l
                  \/ (~ In k (map fst l)
                      /\ map fst (SSE.mapSet k c l) = map fst l ++ [k])).
  { induction l as [|e l IH]; cbn [SSE.mapSet map].
    - right. split; [intros []|reflexivity].
    - inversion Hnd as [|? ? Hx Hl]; subst. unfold SSE.keyIs.
      destruct (String.eqb (fst e) k) eqn:E; cbn [map fst].
      + apply String.eqb_eq in E. left. now rewrite E.
      + destruct (IH Hl) as [->|[Hnot ->]]; [now left|right].
        split; [|reflexivity]. intros [Heq|Hin]; [|now apply Hnot].
        rewrite Heq, String.eqb_refl in E. discriminate. }
  destruct Hkeys as [->|[Hnot ->]]; [exact Hnd|].
  apply NoDup_app; [exact Hnd|repeat constructor; intros []|].
  intros x Hx [<-|[]]. now apply Hnot.
Qed.

Lemma addClient_keys (io : SSE.Sockets) (timestamp : string)
      (client : SSE.SSEClient) (m : SSE.Manager) :
  NoDup (map fst (SSE.clients m)) ->
  NoDup (map fst (SSE.clients (SSE.addClient io timestamp client m))).
Proof.
  intros Hnd. unfold SSE.addClient, SSE.sendToClient, SSE.removeClient.
  cbn [SSE.clients SSE.written].
  rewrite mapGet_set, String.eqb_refl.
  destruct (io (SSE.client_id client)); cbn [SSE.clients].
  - now apply mapSet_keys.
  - unfold SSE.mapDelete. apply keys_of_filter. now apply mapSet_keys.
Qed.

Lemma addClient_get (io : SSE.Sockets) (timestamp : string)
      (client c : SSE.SSEClient) (m : SSE.Manager) :
  SSE.mapGet (SSE.client_id client)
             (SSE.clients (SSE.addClient io timestamp client m)) = Some c ->
  c = client.
Proof.
  unfold SSE.addClient, SSE.sendToClient. cbn [SSE.clients SSE.written].
  rewrite mapGet_set, String.eqb_refl.
  destruct (io (SSE.client_id client)); cbn [SSE.clients].
  - rewrite mapGet_set, String.eqb_refl. congruence.
  - rewrite mapGet_removeClient, String.eqb_refl. discriminate.
Qed.

Lemma mapGet_of_In (k : string) (c : SSE.SSEClient)
      (l : list (string * SSE.SSEClient)) :
  NoDup (map fst l) -> In (k, c) l -> SSE.mapGet k l = Some c.
Proof.
  induction l as [|e l IH]; cbn [map SSE.mapGet]; intros Hnd Hin; [easy|].
  inversion Hnd as [|? ? Hx Hl]; subst. unfold SSE.keyIs.
  destruct Hin as [->|Hin]; cbn [fst snd].
  - now rewrite String.eqb_refl.
  - destruct (String.eqb (fst e) k) eqn:E; [|now apply IH].
    apply String.eqb_eq in E. exfalso. apply Hx. rewrite E.
    apply (in_map fst) in Hin. exact Hin.
Qed.

Lemma star_in_suffix (s : string) :
  In "*"%char (list_ascii_of_string (s ++ ".*")).
Proof.
  induction s as [|a s IH]; cbn; auto.
Qed.

Lemma pattern_is_no_topic (t p : string) :
  (forall a, In a (list_ascii_of_string t) -> a <> "*"%char) ->
  In "*"%char (list_ascii_of_string p) ->
  String.eqb t p = false.
Proof.
  intros Ht Hp. destruct (String.eqb t p) eqn:E; [|reflexivity].
  apply String.eqb_eq in E. subst p. now destruct (Ht _ Hp).
Qed.

(** What a broadcast writes to a client none of whose subscriptions is the
    event type or the full wildcard: nothing. *)
Lemma broadcast_misses (io : SSE.Sockets) (k t : string)
      (message : SSE.SSEMessage) (m : SSE.Manager) :
  NoDup (map fst (SSE.clients m)) ->
  (forall c, SSE.mapGet k (SSE.clients m) = Some c ->
             SSE.setHas t (SSE.subscriptions c) = false
             /\ SSE.setHas "*" (SSE.subscriptions c) = false) ->
  exists frames,
    SSE.written (SSE.broadcastToSubscribers io t message m)
    = SSE.written m ++ frames
    /\ ~ In k (map fst frames).
Proof.
  intros Hnd Hsub. unfold SSE.broadcastToSubscribers.
  destruct (@broadcastLoop_closed io t message (SSE.clients m) [] m
                                  Hnd eq_refl) as [_ Hw].
  rewrite Hw. eexists. split; [reflexivity|].
  rewrite map_map. cbn [fst]. intros Hin.
  apply in_map_iff in Hin. destruct Hin as ([k' c] & Hk & Hin).
  cbn [fst] in Hk. subst k'. apply filter_In in Hin.
  destruct Hin as [Hin Hsent]. cbn [fst snd] in Hsent.
  destruct (Hsub c (mapGet_of_In k c _ Hnd Hin)) as [H1 H2].
  rewrite H1, H2 in Hsent. discriminate.
Qed.

(** X26.  The connections opened by GET /sse/notifications and by
    GET /sse/orders/:userId are never written to by
    [broadcastToSubscribers], whatever the event type, as long as it
    contains no [*]: their subscription sets hold patterns only, which the
    broadcast compares as plain strings.  Such a connection receives an
    event only through [sendToUser]. *)
Theorem sse_route_clients_missed_by_broadcast
        (io io' : SSE.Sockets) (user : SSE.JWTPayload) (param : string)
        (now : Z) (nowText timestamp t : string) (message : SSE.SSEMessage)
        (m : SSE.Manager) :
  NoDup (map fst (SSE.clients m)) ->
  (forall a, In a (list_ascii_of_string t) -> a <> "*"%char) ->
  (exists frames,
      SSE.written
        (SSE.broadcastToSubscribers
           io' t message
           (SSE.connectNotifications io user now nowText timestamp m))
      = SSE.written (SSE.connectNotifications io user now nowText timestamp m)
        ++ frames
      /\ ~ In (SSE.jwt_userId user ++ "-" ++ nowText)%string (map fst frames))
  /\ (forall m',
         SSE.connectOrders io user param now nowText timestamp m = Some m' ->
         exists frames,
           SSE.written (SSE.broadcastToSubscribers io' t message m')
           = SSE.written m' ++ frames
           /\ ~ In ("orders-" ++ param ++ "-" ++ nowText)%string
                   (map fst frames)).
Proof.
  intros Hnd Ht. split.
  - unfold SSE.connectNotifications.
    apply broadcast_misses; [now apply addClient_keys|].
    intros c Hc.
    apply (addClient_get
             io timestamp
             (SSE.mkClient (SSE.jwt_userId user ++ "-" ++ nowText)
                           (SSE.jwt_userId user)
                           ["notification.*";
                            ("user." ++ SSE.jwt_userId user ++ ".*")%string]
                           now)) in Hc.
    subst c. cbn [SSE.subscriptions SSE.setHas existsb].
    rewrite !(pattern_is_no_topic t) by
        (try exact Ht; try (cbn; tauto);
         apply (star_in_suffix ("user." ++ SSE.jwt_userId user))).
    split; reflexivity.
  - intros m'. unfold SSE.connectOrders.
    destruct (_ && _); [discriminate|]. intros [= <-].
    apply broadcast_misses; [now apply addClient_keys|].
    intros c Hc.
    apply (addClient_get
             io timestamp
             (SSE.mkClient ("orders-" ++ param ++ "-" ++ nowText)
                           (SSE.jwt_userId user) ["order.*"] now)) in Hc.
    subst c. cbn [SSE.subscriptions SSE.setHas existsb].
    rewrite !(pattern_is_no_topic t) by (try exact Ht; cbn; tauto).
    split; reflexivity.
Qed.

Lemma sse_route_clients_missed_by_broadcast_witness :
  let io := Scenario.allOpen in
  let m := SSE.mkManager [] [] in
  let message := SSE.mkMessage (Some "evt-1") (Some "order.created") "{}" in
  (exists frames,
      SSE.written
        (SSE.broadcastToSubscribers
           io "order.created" message
           (SSE.connectNotifications io Scenario.admin 5000 "5000"
                                     "1970-01-01T00:00:05.000Z" m))
      = SSE.written (SSE.connectNotifications
                       io Scenario.admin 5000 "5000"
                       "1970-01-01T00:00:05.000Z" m)
        ++ frames
      /\ ~ In (SSE.jwt_userId Scenario.admin ++ "-" ++ "5000")%string
              (map fst frames))
  /\ (forall m',
         SSE.connectOrders io Scenario.admin "u-1" 5000 "5000"
                           "1970-01-01T00:00:05.000Z" m = Some m' ->
         exists frames,
           SSE.written (SSE.broadcastToSubscribers
                          io "order.created" message m')
           = SSE.written m' ++ frames
           /\ ~ In ("orders-" ++ "u-1" ++ "-" ++ "5000")%string
                   (map fst frames)).
Proof.
  intros io m message.
  apply (@sse_route_clients_missed_by_broadcast
           io io Scenario.admin "u-1" 5000 "5000" "1970-01-01T00:00:05.000Z"
           "order.created" message m).
  - constructor.
  - cbn. intros a H.
    repeat (destruct H as [<-|H]; [discriminate|]). destruct H.
Defined.

